(** * Axis website auditor and downloader: the asset pipeline of [app.js]

    A shallow embedding of [src/app.js]: the string helpers
    ([extractUrlsFromCss], [fileNameFromUrl], [domainFromUrl], the archive
    name), and [processSite], the run that fetches a page, pulls its inline
    code out, downloads the referenced assets, rewrites the document and
    fills the archive.

    JavaScript strings are modelled as [string]: sequences of 8-bit
    characters read as the code points U+0000 to U+00FF.  The browser
    platform the script runs on (the [URL] class, [DOMParser], the network
    behind [fetch], the serialisation of the DOM) is not part of the
    repository: it is taken as a parameter, the class [Platform], and a
    small concrete instance is given for the examples.  What the script
    shows on its page during a run (status text, progress bar, preview) is
    left out; [log] is modelled on its own, as a function on the text of the
    log area. *)

From Stdlib Require Import String Ascii List Bool Arith Lia DecimalString Permutation.
Import ListNotations.
Local Open Scope string_scope.
Local Open Scope list_scope.
Local Open Scope nat_scope.

(** ** JavaScript string primitives *)

Module JS.

(** [s.split(c)] for a one-character separator [c]: never the empty list. *)
Fixpoint split (sep : ascii) (s : string) : list string :=
  match s with
  | EmptyString => [EmptyString]
  | String c r =>
      if Ascii.eqb c sep then EmptyString :: split sep r
      else match split sep r with
           | [] => [String c EmptyString]
           | x :: xs => String c x :: xs
           end
  end.

(** A string is truthy when it is not empty. *)
Definition truthy (s : string) : bool :=
  match s with EmptyString => false | String _ _ => true end.

(** [a || b] on strings. *)
Definition orElse (a b : string) : string := if truthy a then a else b.

(** [xs.pop()] on a freshly built array: its last element, if any. *)
Definition pop (xs : list string) : option string :=
  match xs with [] => None | x :: r => Some (last r x) end.

(** [xs[0]]. *)
Definition first (xs : list string) : string := hd EmptyString xs.

(** [s.includes(c)] for a one-character needle. *)
Fixpoint includes (c : ascii) (s : string) : bool :=
  match s with
  | EmptyString => false
  | String d r => Ascii.eqb d c || includes c r
  end.

(** [toLowerCase] on the code points below U+0100: A-Z and the accented
    capitals U+00C0 to U+00DE (the multiplication sign apart) move by 32. *)
Definition lowerChar (c : ascii) : ascii :=
  let n := nat_of_ascii c in
  if ((65 <=? n) && (n <=? 90)) || ((192 <=? n) && (n <=? 222) && negb (n =? 215))
  then ascii_of_nat (n + 32) else c.

Fixpoint toLowerCase (s : string) : string :=
  match s with
  | EmptyString => EmptyString
  | String c r => String (lowerChar c) (toLowerCase r)
  end.

(** White space as [trim] sees it, below U+0100: tab, line feed, vertical
    tab, form feed, carriage return, space and the no-break space. *)
Definition isWhite (c : ascii) : bool :=
  let n := nat_of_ascii c in
  ((9 <=? n) && (n <=? 13)) || (n =? 32) || (n =? 160).

Fixpoint trimStart (s : string) : string :=
  match s with
  | EmptyString => EmptyString
  | String c r => if isWhite c then trimStart r else s
  end.

(** [trimEnd]: a character is dropped when it is white and nothing but
    white space follows it. *)
Fixpoint trimEnd (s : string) : string :=
  match s with
  | EmptyString => EmptyString
  | String c r =>
      match trimEnd r with
      | EmptyString => if isWhite c then EmptyString else String c EmptyString
      | r' => String c r'
      end
  end.

Definition trim (s : string) : string := trimEnd (trimStart s).

(** [s.startsWith(p)], returning what follows the prefix. *)
Fixpoint stripPrefix (p s : string) : option string :=
  match p, s with
  | EmptyString, _ => Some s
  | String a p', String b s' => if Ascii.eqb a b then stripPrefix p' s' else None
  | String _ _, EmptyString => None
  end.

End JS.

(** The double quote, which no string literal of this file contains. *)
Definition dquote : ascii := ascii_of_nat 34.
Definition squote : ascii := ascii_of_nat 39.

(** ** [extractUrlsFromCss] (app.js, lines 69-77) *)

(** The character class of the pattern's group: anything but a single
    quote, a double quote or a closing parenthesis. *)
Definition isQuote (c : ascii) : bool := Ascii.eqb c squote || Ascii.eqb c dquote.
Definition inUrlClass (c : ascii) : bool := negb (isQuote c || Ascii.eqb c ")"%char).

(** The optional quote of the pattern.  It is greedy, and giving the quote
    back never helps: what follows in the pattern (the class, or the closing
    parenthesis) does not accept a quote. *)
Definition optQuote (s : string) : string :=
  match s with
  | String c r => if isQuote c then r else s
  | EmptyString => s
  end.

(** The longest run of class characters, and what follows it.  A shorter
    run never helps either: it would be followed by a class character, which
    is neither a quote nor a closing parenthesis. *)
Fixpoint spanClass (s : string) : string * string :=
  match s with
  | String c r =>
      if inUrlClass c then let (a, b) := spanClass r in (String c a, b)
      else (EmptyString, s)
  | EmptyString => (EmptyString, EmptyString)
  end.

(** One attempt of the pattern at the start of [s]: the captured group and
    the text after the match. *)
Definition matchAt (s : string) : option (string * string) :=
  match JS.stripPrefix "url(" s with
  | None => None
  | Some s1 =>
      let (body, s2) := spanClass (optQuote s1) in
      if JS.truthy body then
        match optQuote s2 with
        | String c rest => if Ascii.eqb c ")"%char then Some (body, rest) else None
        | EmptyString => None
        end
      else None
  end.

(** [re.exec(css)] from the current position: the first position at which
    the pattern matches, tried from left to right. *)
Fixpoint re_exec (s : string) : option (string * string) :=
  match matchAt s with
  | Some m => Some m
  | None =>
      match s with
      | EmptyString => None
      | String _ r => re_exec r
      end
  end.

(** The [while] loop around [re.exec]; every match consumes text, so the
    length of the text bounds the number of iterations. *)
Fixpoint execLoop (fuel : nat) (s : string) : list string :=
  match fuel with
  | O => []
  | S f =>
      match re_exec s with
      | None => []
      | Some (m1, rest) => m1 :: execLoop f rest
      end
  end.

Definition extractUrlsFromCss (css : string) : list string :=
  execLoop (String.length css) css.

(** ** The platform *)

(** What the script reads of a [URL] object. *)
Record URL := mkURL { href : string; hostname : string; pathname : string }.

(** An element of the parsed page: its lower-case tag name, its content
    attributes in order, and its text.  Nesting is left out: the script only
    selects elements by tag and attribute, in document order, and the
    elements it removes ([style], [script]) hold text only. *)
Record Element := mkElement {
  tagName : string;
  attributes : list (string * string);
  textContent : string
}.

(** The document: the elements below [head] and below [body], each in
    document order ([head] comes first).  The pages represented are those
    on which the properties of [document] and of a form that the script
    uses are the ones of the DOM: a page can shadow them by the [name] of an
    element (named access), and such pages are left out. *)
Record Document := mkDocument { head : list Element; body : list Element }.

Definition Blob := list nat.

(** An entry of [metaInfo]'s lists: [{url, fname}], [fname] being [null]
    for an image that could not be fetched. *)
Record MetaEntry := mkEntry { m_url : string; m_fname : option string }.

(** [metaInfo] (lines 254-258). *)
Record MetaInfo := mkMeta {
  cssFiles : list MetaEntry;
  jsFiles : list MetaEntry;
  images : list MetaEntry;
  fonts : list MetaEntry;
  inlineCssBlocks : nat;
  inlineJsBlocks : nat;
  inlineCssSize : nat;
  inlineJsSize : nat
}.

(** A form control as the scan reads it (lines 158-161): its [id]
    property, and whether [closest('label')] finds a label around it. *)
Record Control := mkControl { controlId : string; insideLabel : bool }.

(** The browser behind the script.
    - [URL_new input base] is [new URL(input, base)] ([base] absent for the
      one-argument call); [None] when the constructor throws.
    - [parseFromString] is [DOMParser.parseFromString(_, 'text/html')].
    - [outerHTML] is [doc.documentElement.outerHTML].
    - [reflectURL a] is the value of a URL property ([el.href], [el.src])
      of an element whose content attribute is [a].
    - [hasInnerText el] tells whether [el.innerText] is defined: only HTML
      elements have the property, and the first [title] of a page can be
      the title of an inline SVG image.  Where it is defined it is the
      text of the element, the parsed page not being rendered.
    - [formControls doc] lists, for each [form] of the document in order,
      the controls [f.querySelectorAll('input,textarea,select')] finds.
    - [selectorMatches doc sel] is [doc.querySelector(sel)] for a selector
      given as a text: [None] when the text is not a valid selector and the
      call throws, otherwise whether an element was found.
    - [reportMd] and [reportJson] are the texts [runHeuristicScan] builds
      from its DOM queries and the date, and [JSON.stringify] of its result,
      for a scan that does not throw. *)
Class Platform := {
  URL_new : string -> option string -> option URL;
  parseFromString : string -> Document;
  outerHTML : Document -> string;
  reflectURL : option string -> string;
  hasInnerText : Element -> bool;
  formControls : Document -> list (list Control);
  selectorMatches : Document -> string -> option bool;
  reportMd : Document -> string -> MetaInfo -> string;
  reportJson : Document -> string -> MetaInfo -> string
}.

(** The network as the proxy shows it: what [fetch] followed by
    [res.text()] or [res.blob()] yields for a URL, [None] when [fetch]
    rejects or the status is not a success.  One answer per URL within a
    run. *)
Class Network := {
  netText : string -> option string;
  netBlob : string -> option Blob
}.

(** ** The URL helpers *)

Section Helpers.
Context {P : Platform}.

(** [resolveUrl] (lines 63-66). *)
Definition resolveUrl (base relative : string) : string :=
  match URL_new relative (Some base) with
  | Some u => href u
  | None => relative
  end.

(** [u.pathname.split('/').filter(Boolean).pop()]. *)
Definition lastSegment (path : string) : option string :=
  JS.pop (filter JS.truthy (JS.split "/" path)).

(** [(u.pathname.split('.').pop() || '').toLowerCase()]. *)
Definition guessExt (path : string) : string :=
  JS.toLowerCase (match JS.pop (JS.split "." path) with Some e => e | None => EmptyString end).

(** The extension step of [fileNameFromUrl] (lines 85-89). *)
Definition addGuess (path name : string) : string :=
  if JS.includes "." name then name
  else
    let ext := guessExt path in
    if JS.truthy ext && (String.length ext <=? 5) then name ++ "." ++ ext else name.

(** The body of the [try] of [fileNameFromUrl] (lines 83-90), on the
    pathname. *)
Definition fileNameOfPath (path : string) : string :=
  let name := match lastSegment path with Some n => n | None => "index" end in
  let name := JS.first (JS.split "?" name) in
  let name := addGuess path name in
  JS.orElse name "asset".

(** [fileNameFromUrl] (lines 80-94). *)
Definition fileNameFromUrl (url : string) : string :=
  match URL_new url None with
  | Some u => fileNameOfPath (pathname u)
  | None => "asset"
  end.

(** [fullUrl.replace(/^https?:\/\//, '')]. *)
Definition stripScheme (s : string) : string :=
  match JS.stripPrefix "https://" s with
  | Some r => r
  | None => match JS.stripPrefix "http://" s with Some r => r | None => s end
  end.

(** [domainFromUrl] (lines 97-105). *)
Definition domainFromUrl (fullUrl : string) : string :=
  match URL_new fullUrl None with
  | Some u => hostname u
  | None => JS.first (JS.split "/" (stripScheme fullUrl))
  end.

(** The characters of the class in line 434: colon, slash, backslash,
    question mark, percent, star, bar, double quote, angle brackets, space. *)
Definition isUnsafe (c : ascii) : bool :=
  existsb (Ascii.eqb c)
    [":"; "/"; "\"; "?"; "%"; "*"; "|"; dquote; "<"; ">"; " "]%char.

(** [s.replace(/[...]+/g, '-')]: each maximal run of unsafe characters
    becomes one hyphen; [inRun] tells that the previous character was part
    of the run being replaced. *)
Fixpoint replaceRuns (inRun : bool) (s : string) : string :=
  match s with
  | EmptyString => EmptyString
  | String c r =>
      if isUnsafe c then
        if inRun then replaceRuns true r else String "-" (replaceRuns true r)
      else String c (replaceRuns false r)
  end.

Definition safeName (domainName : string) : string := replaceRuns false domainName.

(** Lines 433-435. *)
Definition zipNameOf (url : string) : string :=
  let domainName := JS.orElse (domainFromUrl url) "site" in
  safeName domainName ++ ".zip".

(** [(assetUrl.split('.').pop() || '').split('?')[0].toLowerCase()]
    (lines 293 and 381). *)
Definition extOf (assetUrl : string) : string :=
  JS.toLowerCase
    (JS.first (JS.split "?"
       (match JS.pop (JS.split "." assetUrl) with Some e => e | None => EmptyString end))).

Definition isFontExt (ext : string) : bool :=
  existsb (String.eqb ext) ["woff"; "woff2"; "ttf"; "otf"; "eot"].

Definition isImageExt (ext : string) : bool :=
  existsb (String.eqb ext) ["png"; "jpg"; "jpeg"; "gif"; "svg"; "webp"; "avif"].

End Helpers.

(** ** The document *)

Section Dom.
Context {P : Platform}.

Fixpoint lookupAttr (name : string) (l : list (string * string)) : option string :=
  match l with
  | [] => None
  | (k, v) :: r => if String.eqb k name then Some v else lookupAttr name r
  end.

Definition getAttribute (name : string) (el : Element) : option string :=
  lookupAttr name (attributes el).

Fixpoint putAttr (name value : string) (l : list (string * string)) : list (string * string) :=
  match l with
  | [] => [(name, value)]
  | (k, v) :: r =>
      if String.eqb k name then (k, value) :: r else (k, v) :: putAttr name value r
  end.

Definition setAttribute (name value : string) (el : Element) : Element :=
  mkElement (tagName el) (putAttr name value (attributes el)) (textContent el).

(** [el.getAttribute(name) || el[name]] for a URL property. *)
Definition attrOrProp (name : string) (el : Element) : string :=
  match getAttribute name el with
  | Some v => if JS.truthy v then v else reflectURL (Some v)
  | None => reflectURL None
  end.

Definition hasTag (t : string) (el : Element) : bool := String.eqb (tagName el) t.

(** The value of [rel] as an attribute selector compares it: in an HTML
    document the values of [rel] are matched without regard to case. *)
Definition relOf (el : Element) : option string :=
  option_map JS.toLowerCase (getAttribute "rel" el).

(** The white space that separates the words of an attribute value. *)
Definition isSpace (c : ascii) : bool :=
  existsb (Nat.eqb (nat_of_ascii c)) [32; 9; 10; 12; 13].

Fixpoint splitSpaces (s : string) : list string :=
  match s with
  | EmptyString => [EmptyString]
  | String c r =>
      if isSpace c then EmptyString :: splitSpaces r
      else match splitSpaces r with
           | [] => [String c EmptyString]
           | x :: xs => String c x :: xs
           end
  end.

Definition words (s : string) : list string := filter JS.truthy (splitSpaces s).

(** [style]. *)
Definition isStyle (el : Element) : bool := hasTag "style" el.

(** [script], then [filter(s => !s.src)]. *)
Definition isInlineScript (el : Element) : bool :=
  hasTag "script" el && negb (JS.truthy (reflectURL (getAttribute "src" el))).

(** [link[rel=stylesheet]]. *)
Definition isStylesheetLink (el : Element) : bool :=
  hasTag "link" el &&
  match relOf el with Some r => String.eqb r "stylesheet" | None => false end.

(** [script[src]]. *)
Definition isSrcScript (el : Element) : bool :=
  hasTag "script" el &&
  match getAttribute "src" el with Some _ => true | None => false end.

(** [img]. *)
Definition isImg (el : Element) : bool := hasTag "img" el.

(** [link[rel~=icon], link[rel~='shortcut icon']]: the second selector
    matches nothing, since a word holds no space. *)
Definition isIconLink (el : Element) : bool :=
  hasTag "link" el &&
  match relOf el with
  | Some r => existsb (String.eqb "icon") (words r)
  | None => false
  end.

(** [link[rel=preload][as=font]]. *)
Definition isPreloadFont (el : Element) : bool :=
  hasTag "link" el &&
  match relOf el with Some r => String.eqb r "preload" | None => false end &&
  match getAttribute "as" el with Some a => String.eqb a "font" | None => false end.

(** [querySelectorAll]: the elements a selector matches, in document
    order. *)
Definition querySelectorAll (sel : Element -> bool) (d : Document) : list Element :=
  filter sel (head d ++ body d).

(** [querySelector]: the first of them. *)
Definition querySelector (sel : Element -> bool) (d : Document) : option Element :=
  find sel (head d ++ body d).

(** Every selected element [remove]d. *)
Definition removeAll (sel : Element -> bool) (d : Document) : Document :=
  mkDocument (filter (fun e => negb (sel e)) (head d))
             (filter (fun e => negb (sel e)) (body d)).

(** [els.forEach(s => { combined += s.textContent + '\n\n'; ... })]. *)
Definition nl2 : string := String (ascii_of_nat 10) (String (ascii_of_nat 10) EmptyString).

Fixpoint combine_text (els : list Element) : string :=
  match els with
  | [] => EmptyString
  | e :: r => textContent e ++ nl2 ++ combine_text r
  end.

(** The first selected element of a list replaced by its image. *)
Fixpoint mapFirst (sel : Element -> bool) (f : Element -> Element)
    (l : list Element) : list Element :=
  match l with
  | [] => []
  | e :: r => if sel e then f e :: r else e :: mapFirst sel f r
  end.

(** The element [querySelector] returned, rewritten in place. *)
Definition updateFirst (sel : Element -> bool) (f : Element -> Element)
    (d : Document) : Document :=
  if existsb sel (head d) then mkDocument (mapFirst sel f (head d)) (body d)
  else mkDocument (head d) (mapFirst sel f (body d)).

(** The elements created in lines 263-266 and 270-272. *)
Definition inlineStylesLink : Element :=
  mkElement "link" [("rel", "stylesheet"); ("href", "css/inline-styles.css")] EmptyString.

Definition inlineScriptsTag : Element :=
  mkElement "script" [("src", "js/inline-scripts.js")] EmptyString.

Definition appendHead (e : Element) (d : Document) : Document :=
  mkDocument (head d ++ [e]) (body d).

Definition appendBody (e : Element) (d : Document) : Document :=
  mkDocument (head d) (body d ++ [e]).

End Dom.

(** ** The run: archive, fetches and the state they share *)

(** A call of one of the two fetch wrappers, with the URL it was given. *)
Inductive Call :=
| FetchText (url : string)
| FetchBlob (url : string).

Definition callUrl (c : Call) : string :=
  match c with FetchText u => u | FetchBlob u => u end.

(** What an archive path holds. *)
Inductive Content :=
| Dir
| Text (s : string)
| Bin (b : Blob).

(** The archive as the list of the writes made to it, oldest first; a path
    holds what was written to it last. *)
Definition Zip := list (string * Content).

Fixpoint zipGet (path : string) (z : Zip) : option Content :=
  match z with
  | [] => None
  | (p, c) :: r =>
      match zipGet path r with
      | Some c' => Some c'
      | None => if String.eqb p path then Some c else None
      end
  end.

(** The state of a run: the archive, [metaInfo], and the calls made to the
    fetch wrappers so far, oldest first. *)
Record Run := mkRun { zip : Zip; meta : MetaInfo; calls : list Call }.

Definition emptyMeta : MetaInfo := mkMeta [] [] [] [] 0 0 0 0.
Definition emptyRun : Run := mkRun [] emptyMeta [].

(** Computations of the run. *)
Definition M (A : Type) : Type := Run -> A * Run.

Definition ret {A} (a : A) : M A := fun st => (a, st).

Definition bind {A B} (c : M A) (k : A -> M B) : M B :=
  fun st => let (a, st') := c st in k a st'.

Notation "x <- c1 ;; c2" := (bind c1 (fun x => c2))
  (at level 61, c1 at next level, right associativity).
Notation "c1 ;;; c2" := (bind c1 (fun _ => c2))
  (at level 61, right associativity).

Definition zipFile (path : string) (c : Content) : M unit :=
  fun st => (tt, mkRun (zip st ++ [(path, c)]) (meta st) (calls st)).

Definition setMeta (m : MetaInfo) : M unit :=
  fun st => (tt, mkRun (zip st) m (calls st)).

Definition getMeta : M MetaInfo := fun st => (meta st, st).

Definition modMeta (f : MetaInfo -> MetaInfo) : M unit :=
  fun st => (tt, mkRun (zip st) (f (meta st)) (calls st)).

Definition pushCss (e : MetaEntry) : M unit :=
  modMeta (fun m => mkMeta (cssFiles m ++ [e]) (jsFiles m) (images m) (fonts m)
    (inlineCssBlocks m) (inlineJsBlocks m) (inlineCssSize m) (inlineJsSize m)).

Definition pushJs (e : MetaEntry) : M unit :=
  modMeta (fun m => mkMeta (cssFiles m) (jsFiles m ++ [e]) (images m) (fonts m)
    (inlineCssBlocks m) (inlineJsBlocks m) (inlineCssSize m) (inlineJsSize m)).

Definition pushImage (e : MetaEntry) : M unit :=
  modMeta (fun m => mkMeta (cssFiles m) (jsFiles m) (images m ++ [e]) (fonts m)
    (inlineCssBlocks m) (inlineJsBlocks m) (inlineCssSize m) (inlineJsSize m)).

Definition pushFont (e : MetaEntry) : M unit :=
  modMeta (fun m => mkMeta (cssFiles m) (jsFiles m) (images m) (fonts m ++ [e])
    (inlineCssBlocks m) (inlineJsBlocks m) (inlineCssSize m) (inlineJsSize m)).

Definition when (b : bool) (c : M unit) : M unit := if b then c else ret tt.

Fixpoint forEach {A} (f : A -> M unit) (l : list A) : M unit :=
  match l with
  | [] => ret tt
  | a :: r => f a ;;; forEach f r
  end.

(** A loop over the elements a selector matched, each of which the body may
    rewrite in place: the list is walked in document order, the body runs on
    the selected elements and the others are left as they are.  (No body
    changes which elements its own selector matches, and none adds or
    removes an element.) *)
Fixpoint forEls (sel : Element -> bool) (step : Element -> M Element)
    (els : list Element) : M (list Element) :=
  match els with
  | [] => ret []
  | e :: r =>
      e' <- (if sel e then step e else ret e) ;;
      r' <- forEls sel step r ;;
      ret (e' :: r')
  end.

Definition onDoc (sel : Element -> bool) (step : Element -> M Element)
    (d : Document) : M Document :=
  h <- forEls sel step (head d) ;;
  b <- forEls sel step (body d) ;;
  ret (mkDocument h b).

(** The folders of the archive (lines 233-239). *)
Definition rootDir : string := "website/".
Definition cssDir : string := "website/css/".
Definition jsDir : string := "website/js/".
Definition imgDir : string := "website/images/".
Definition fontsDir : string := "website/fonts/".
Definition auditDir : string := "website/audit/".

Definition mkFolders : M unit :=
  forEach (fun d => zipFile d Dir) [rootDir; cssDir; jsDir; imgDir; fontsDir; auditDir].

Section Pipeline.
Context {P : Platform} {N : Network}.

(** [fetchText] (lines 39-49): the text, or the empty string when the
    request fails. *)
Definition fetchTextResult (url : string) : string :=
  match netText url with Some t => t | None => EmptyString end.

Definition fetchText (url : string) : M string :=
  fun st => (fetchTextResult url, mkRun (zip st) (meta st) (calls st ++ [FetchText url])).

(** [fetchBlob] (lines 50-60): the blob, or [null]. *)
Definition fetchBlob (url : string) : M (option Blob) :=
  fun st => (netBlob url, mkRun (zip st) (meta st) (calls st ++ [FetchBlob url])).

(** A fetched font or image stored under [dir] and recorded by [push]. *)
Definition storeBlob (dir : string) (push : MetaEntry -> M unit)
    (assetUrl : string) (b : option Blob) : M unit :=
  match b with
  | Some b =>
      let fn := fileNameFromUrl assetUrl in
      zipFile (dir ++ fn) (Bin b) ;;;
      push (mkEntry assetUrl (Some fn))
  | None => ret tt
  end.

(** The body of the loop over the [url()] tokens of a fetched stylesheet
    (lines 291-304). *)
Definition cssAsset (resolved u : string) : M unit :=
  let assetUrl := resolveUrl resolved u in
  let ext := extOf assetUrl in
  if isFontExt ext then
    b <- fetchBlob assetUrl ;; storeBlob fontsDir pushFont assetUrl b
  else if isImageExt ext then
    b <- fetchBlob assetUrl ;; storeBlob imgDir pushImage assetUrl b
  else ret tt.

(** The body of the loop over the stylesheet links (lines 279-305). *)
Definition cssStep (url : string) (el : Element) : M Element :=
  let href := attrOrProp "href" el in
  let resolved := resolveUrl url href in
  cssText <- fetchText resolved ;;
  let fname := JS.orElse (fileNameFromUrl resolved) "style.css" in
  zipFile (cssDir ++ fname) (Text (JS.orElse cssText EmptyString)) ;;;
  pushCss (mkEntry resolved (Some fname)) ;;;
  let el' := setAttribute "href" ("css/" ++ fname) el in
  forEach (cssAsset resolved) (extractUrlsFromCss (JS.orElse cssText EmptyString)) ;;;
  ret el'.

(** The body of the loop over the scripts with a source (lines 311-320). *)
Definition jsStep (url : string) (el : Element) : M Element :=
  let src := attrOrProp "src" el in
  let resolved := resolveUrl url src in
  jsText <- fetchText resolved ;;
  let fname := JS.orElse (fileNameFromUrl resolved) "script.js" in
  zipFile (jsDir ++ fname) (Text (JS.orElse jsText EmptyString)) ;;;
  pushJs (mkEntry resolved (Some fname)) ;;;
  ret (setAttribute "src" ("js/" ++ fname) el).

(** The body of the loop over the images (lines 326-340). *)
Definition imgStep (url : string) (img : Element) : M Element :=
  let src := attrOrProp "src" img in
  let resolved := resolveUrl url src in
  b <- fetchBlob resolved ;;
  let fn := fileNameFromUrl resolved in
  match b with
  | Some b =>
      zipFile (imgDir ++ fn) (Bin b) ;;;
      pushImage (mkEntry resolved (Some fn)) ;;;
      ret (setAttribute "src" ("images/" ++ fn) img)
  | None =>
      pushImage (mkEntry resolved None) ;;;
      ret img
  end.

(** The favicon (lines 345-361). *)
Definition iconPhase (url : string) (d : Document) : M Document :=
  match querySelector isIconLink d with
  | Some iconLink =>
      let href := attrOrProp "href" iconLink in
      let resolved := resolveUrl url href in
      iconBlob <- fetchBlob resolved ;;
      match iconBlob with
      | Some b =>
          let fn := JS.orElse (fileNameFromUrl resolved) "favicon.ico" in
          zipFile (rootDir ++ fn) (Bin b) ;;;
          ret (updateFirst isIconLink (setAttribute "href" fn) d)
      | None => ret d
      end
  | None =>
      let tryFav := resolveUrl url "/favicon.ico" in
      b <- fetchBlob tryFav ;;
      match b with
      | Some b => zipFile (rootDir ++ "favicon.ico") (Bin b)
      | None => ret tt
      end ;;;
      ret d
  end.

(** The body of the loop over the font preloads (lines 365-375). *)
Definition preloadStep (url : string) (l : Element) : M Element :=
  let href := attrOrProp "href" l in
  let resolved := resolveUrl url href in
  b <- fetchBlob resolved ;;
  match b with
  | Some b =>
      let fn := fileNameFromUrl resolved in
      zipFile (fontsDir ++ fn) (Bin b) ;;;
      pushFont (mkEntry resolved (Some fn)) ;;;
      ret (setAttribute "href" ("fonts/" ++ fn) l)
  | None => ret l
  end.

(** The body of the loop over the [url()] tokens of the combined inline
    CSS (lines 379-386). *)
Definition inlineCssAsset (url u : string) : M unit :=
  let resolved := resolveUrl url u in
  let ext := extOf resolved in
  if isFontExt ext then
    b <- fetchBlob resolved ;; storeBlob fontsDir pushFont resolved b
  else ret tt.

End Pipeline.

(** ** [runHeuristicScan] and [processSite] *)

Inductive Level := Warn | Info | Ok.

Record Finding := mkFinding { level : Level; text : string }.

(** The result of a call that may throw. *)
Inductive Outcome (A : Type) :=
| Returned (a : A)
| Threw.

Arguments Returned {A} a.
Arguments Threw {A}.

(** What the scan returns, as far as the run and the page use it: the
    title and the counts of the summary (lines 202-204) and the finding on
    the number of assets (lines 149-151).  The other findings are part of
    [reportMd]. *)
Record ScanResult := mkScan {
  s_title : string;
  s_images : nat;
  s_css : nat;
  s_js : nat;
  s_fonts : nat;
  totalAssets : nat;
  assetsFinding : Finding;
  mdReport : string
}.

Definition decimal (n : nat) : string := NilEmpty.string_of_uint (Nat.to_uint n).

Definition nl : string := String (ascii_of_nat 10) EmptyString.

Section Site.
Context {P : Platform} {N : Network}.

Definition totalAssetsOf (m : MetaInfo) : nat :=
  length (cssFiles m) + length (jsFiles m) + length (images m) + length (fonts m).

(** Line 115: [(doc.querySelector('title') || {innerText:''}).innerText.trim()].
    The call of [trim] throws when [innerText] is undefined. *)
Definition scanTitle (doc : Document) : Outcome string :=
  match querySelector (hasTag "title") doc with
  | Some t => if hasInnerText t then Returned (JS.trim (textContent t)) else Threw
  | None => Returned EmptyString
  end.

(** The selector of line 160, built from the [id] of a control. *)
Definition labelSelector (id : string) : string :=
  "label[for=" ++ String dquote (id ++ String dquote "]").

(** The callback of lines 157-162: whether a control is unlabeled.  The
    query of line 160 is made for a control with an [id], and throws when
    the selector built from it is not valid. *)
Definition unlabeled (doc : Document) (c : Control) : Outcome bool :=
  if JS.truthy (controlId c) then
    match selectorMatches doc (labelSelector (controlId c)) with
    | None => Threw
    | Some true => Returned false
    | Some false => Returned (negb (insideLabel c))
    end
  else Returned (negb (insideLabel c)).

(** [controls.filter(...)]: the callback runs on every control, so a throw
    on any of them ends the scan. *)
Fixpoint countUnlabeled (doc : Document) (cs : list Control) : Outcome nat :=
  match cs with
  | [] => Returned 0
  | c :: r =>
      match unlabeled doc c with
      | Threw => Threw
      | Returned b =>
          match countUnlabeled doc r with
          | Threw => Threw
          | Returned n => Returned (if b then S n else n)
          end
      end
  end.

(** Lines 154-165: the number of forms with an unlabeled control. *)
Fixpoint formsIssuesOf (doc : Document) (forms : list (list Control)) : Outcome nat :=
  match forms with
  | [] => Returned 0
  | f :: r =>
      match countUnlabeled doc f with
      | Threw => Threw
      | Returned n =>
          match formsIssuesOf doc r with
          | Threw => Threw
          | Returned k => Returned (if 0 <? n then S k else k)
          end
      end
  end.

(** [runHeuristicScan] (lines 108-208).  Two of its queries can throw: the
    title's [innerText] (line 115) and the selector built from a control's
    [id] (line 160); an exception leaves the function at once. *)
Definition runHeuristicScan (doc : Document) (domain : string) (m : MetaInfo)
  : Outcome ScanResult :=
  match scanTitle doc with
  | Threw => Threw
  | Returned title =>
      match formsIssuesOf doc (formControls doc) with
      | Threw => Threw
      | Returned _ =>
          let total := totalAssetsOf m in
          Returned
            (mkScan title
               (length (images m)) (length (cssFiles m)) (length (jsFiles m))
               (length (fonts m)) total
               (mkFinding (if 40 <? total then Warn else Ok)
                          (decimal total ++ " external assets detected"))
               (reportMd doc domain m))
      end
  end.

(** The README (lines 408-421). *)
Definition readme (url : string) : string :=
  "# Website Project (generated)" ++ nl ++
  "This project was generated from " ++ url ++ nl ++
  "Open in VS Code to inspect & edit:" ++ nl ++
  "- index.html" ++ nl ++ "- css/" ++ nl ++ "- js/" ++ nl ++ "- images/" ++ nl ++
  "- fonts/" ++ nl ++ "- audit/report.md" ++ nl ++ nl ++
  "Notes:" ++ nl ++
  "- Some assets may not have been fetched due to cross-origin restrictions." ++ nl ++
  "- Review audit/report.md for suggested fixes." ++ nl.

(** Lines 247-251: the inline code collected and its elements removed. *)
Definition styleEls (doc : Document) : list Element := querySelectorAll isStyle doc.

Definition combinedCSS (doc : Document) : string := combine_text (styleEls doc).

Definition inlineScriptEls (doc : Document) : list Element :=
  querySelectorAll isInlineScript (removeAll isStyle doc).

Definition combinedJS (doc : Document) : string := combine_text (inlineScriptEls doc).

Definition stripInline (doc : Document) : Document :=
  removeAll isInlineScript (removeAll isStyle doc).

(** Lines 261-273: the combined files added, each with its element. *)
Definition addCombined (doc0 d : Document) : M Document :=
  d <- (if JS.truthy (JS.trim (combinedCSS doc0)) then
          zipFile (cssDir ++ "inline-styles.css") (Text (combinedCSS doc0)) ;;;
          ret (appendHead inlineStylesLink d)
        else ret d) ;;
  if JS.truthy (JS.trim (combinedJS doc0)) then
    zipFile (jsDir ++ "inline-scripts.js") (Text (combinedJS doc0)) ;;;
    ret (appendBody inlineScriptsTag d)
  else ret d.

(** Lines 278-386: the five download phases and the inline CSS. *)
Definition download (url : string) (doc0 d : Document) : M Document :=
  d <- onDoc isStylesheetLink (cssStep url) d ;;
  d <- onDoc isSrcScript (jsStep url) d ;;
  d <- onDoc isImg (imgStep url) d ;;
  d <- iconPhase url d ;;
  d <- onDoc isPreloadFont (preloadStep url) d ;;
  forEach (inlineCssAsset url) (extractUrlsFromCss (JS.orElse (combinedCSS doc0) EmptyString)) ;;;
  ret d.

(** What a run that got its HTML ends with, besides the state: the
    rewritten document, its HTML, and how the packaging went: the result of
    the scan and the name of the archive, or the exception of the scan, which
    nothing in [processSite] catches. *)
Record Final := mkFinal {
  finalDoc : Document;
  finalHTML : string;
  packaged : Outcome (ScanResult * string)
}.

(** Lines 392-435: the final files and the name of the archive.  The scan
    (line 401) comes after [index.html] and the combined files and before
    the audit files, the README and [generateAsync]: when it throws, the
    rest is not run. *)
Definition package (url : string) (doc0 d : Document) : M Final :=
  let html : string := ("<!doctype html>" ++ nl ++ outerHTML d)%string in
  zipFile (rootDir ++ "index.html") (Text html) ;;;
  when (JS.truthy (JS.trim (combinedCSS doc0)))
    (zipFile (cssDir ++ "inline-styles.css") (Text (combinedCSS doc0))) ;;;
  when (JS.truthy (JS.trim (combinedJS doc0)))
    (zipFile (jsDir ++ "inline-scripts.js") (Text (combinedJS doc0))) ;;;
  m <- getMeta ;;
  match runHeuristicScan d url m with
  | Threw => ret (mkFinal d html Threw)
  | Returned scan =>
      zipFile (auditDir ++ "report.md") (Text (JS.orElse (mdReport scan) EmptyString)) ;;;
      zipFile (auditDir ++ "report.json") (Text (reportJson d url m)) ;;;
      zipFile (rootDir ++ "README.md") (Text (readme url)) ;;;
      ret (mkFinal d html (Returned (scan, zipNameOf url)))
  end.

(** Lines 228-435, once the HTML is there. *)
Definition assemble (url htmlText : string) : M Final :=
  let doc0 := parseFromString htmlText in
  mkFolders ;;;
  setMeta (mkMeta [] [] [] []
             (length (styleEls doc0)) (length (inlineScriptEls doc0))
             (String.length (combinedCSS doc0)) (String.length (combinedJS doc0))) ;;;
  d <- addCombined doc0 (stripInline doc0) ;;
  d <- download url doc0 d ;;
  package url doc0 d.

(** The whole run (lines 211-452): [None] is the [return null] of line
    223. *)
Definition runSite (url : string) : M (option Final) :=
  htmlText <- fetchText url ;;
  if negb (JS.truthy htmlText) then ret None
  else f <- assemble url htmlText ;; ret (Some f).

(** [processSite]: it returns the archive and its name, or [null], or
    throws (the click handler of lines 508-515 catches the exception and
    shows it; no archive is generated). *)
Definition processSite (url : string) : Outcome (option (Zip * string)) :=
  let (r, st) := runSite url emptyRun in
  match r with
  | Some f =>
      match packaged f with
      | Returned (_, name) => Returned (Some (zip st, name))
      | Threw => Threw
      end
  | None => Returned None
  end.

(** The writes a run makes to the archive, in order, whether or not an
    archive is generated from them in the end. *)
Definition archiveWrites (url : string) : Zip := zip (snd (runSite url emptyRun)).

(** [metaInfo] at the end of a run, and the result of the scan, if the run
    got its HTML and the scan returned. *)
Definition metaInfoOf (url : string) : MetaInfo := meta (snd (runSite url emptyRun)).

Definition scanOf (url : string) : option ScanResult :=
  match fst (runSite url emptyRun) with
  | Some f =>
      match packaged f with
      | Returned (scan, _) => Some scan
      | Threw => None
      end
  | None => None
  end.

(** The calls a run makes to the fetch wrappers, in order. *)
Definition fetchCalls (url : string) : list Call := calls (snd (runSite url emptyRun)).

(** The document a run ends with, if it got its HTML: the document as the
    download phases leave it, the one the scan and the packaging read. *)
Definition rewritten (url : string) : option Document :=
  option_map finalDoc (fst (runSite url emptyRun)).

End Site.

(** ** A concrete platform for the examples *)

(** A model of the browser's [URL] class on the URLs the examples use:
    absolute [http] and [https] URLs of the form
    scheme://host[:port][/path][?query][#fragment], and references relative
    to one (scheme-relative, absolute path, relative path with dot segments,
    query only, fragment only, empty), all made of characters the parser
    neither escapes nor strips.  A text without a scheme is not an absolute
    URL: given alone, or against a base that is not absolute either, it is
    rejected, as the constructor throws.  The theorems of this file about the pipeline
    hold for any [Platform]; this instance only serves to evaluate the code
    at concrete inputs. *)
Module URLModel.

Record Parts := mkParts {
  scheme : string;
  host : string;
  port : string;
  path : string;
  query : string;
  fragment : string
}.

(** The text before the first character satisfying [p], and the rest. *)
Fixpoint breakOn (p : ascii -> bool) (s : string) : string * string :=
  match s with
  | EmptyString => (EmptyString, EmptyString)
  | String c r =>
      if p c then (EmptyString, s)
      else let (a, b) := breakOn p r in (String c a, b)
  end.

Fixpoint join (sep : string) (l : list string) : string :=
  match l with
  | [] => EmptyString
  | [x] => x
  | x :: r => x ++ sep ++ join sep r
  end.

(** Dot segments removed; [stack] holds the segments kept so far, last
    first. *)
Fixpoint dropDots (stack segs : list string) : list string :=
  match segs with
  | [] => rev stack
  | seg :: rest =>
      if String.eqb seg "." then
        match rest with [] => rev (EmptyString :: stack) | _ => dropDots stack rest end
      else if String.eqb seg ".." then
        match rest with
        | [] => rev (EmptyString :: tl stack)
        | _ => dropDots (tl stack) rest
        end
      else dropDots (seg :: stack) rest
  end.

Definition normalizePath (p : string) : string :=
  ("/" ++ join "/" (dropDots [] (tl (JS.split "/" p))))%string.

Definition isDefaultPort (sch prt : string) : bool :=
  (String.eqb sch "http" && String.eqb prt "80") ||
  (String.eqb sch "https" && String.eqb prt "443").

(** Path, query and fragment of what follows the authority. *)
Definition parseTail (sch hst prt r : string) : Parts :=
  let (p, r1) := breakOn (fun c => Ascii.eqb c "?" || Ascii.eqb c "#") r in
  let (q, f) := breakOn (fun c => Ascii.eqb c "#") r1 in
  mkParts sch hst prt (normalizePath p) q f.

Definition parseAbsolute (s : string) : option Parts :=
  let (sch0, r) := breakOn (fun c => Ascii.eqb c ":") s in
  let sch := JS.toLowerCase sch0 in
  if String.eqb sch "http" || String.eqb sch "https" then
    match JS.stripPrefix "://" r with
    | Some r1 =>
        let (auth, r2) :=
          breakOn (fun c => Ascii.eqb c "/" || Ascii.eqb c "?" || Ascii.eqb c "#") r1 in
        let (h, pp) := breakOn (fun c => Ascii.eqb c ":") auth in
        let prt := match pp with String _ d => d | EmptyString => EmptyString end in
        if JS.truthy h && negb (JS.includes "@" auth) then
          Some (parseTail sch (JS.toLowerCase h)
                  (if isDefaultPort sch prt then EmptyString else prt) r2)
        else None
    | None => None
    end
  else None.

(** The directory of a path: the path up to and with its last slash. *)
Definition dirName (p : string) : string :=
  (join "/" (removelast (JS.split "/" p)) ++ "/")%string.

Definition resolveRelative (b : Parts) (input : string) : option Parts :=
  match input with
  | EmptyString =>
      Some (mkParts (scheme b) (host b) (port b) (path b) (query b) EmptyString)
  | String c r =>
      if Ascii.eqb c "/" then
        match r with
        | String "/" _ => parseAbsolute (scheme b ++ ":" ++ input)
        | _ => Some (parseTail (scheme b) (host b) (port b) input)
        end
      else if Ascii.eqb c "?" then
        let (q, f) := breakOn (fun c => Ascii.eqb c "#") input in
        Some (mkParts (scheme b) (host b) (port b) (path b) q f)
      else if Ascii.eqb c "#" then
        Some (mkParts (scheme b) (host b) (port b) (path b) (query b) input)
      else Some (parseTail (scheme b) (host b) (port b) (dirName (path b) ++ input))
  end.

Definition serialize (p : Parts) : string :=
  scheme p ++ "://" ++ host p ++
  (if JS.truthy (port p) then ":" ++ port p else EmptyString) ++
  path p ++ query p ++ fragment p.

Definition toURL (p : Parts) : URL := mkURL (serialize p) (host p) (path p).

Definition new (input : string) (base : option string) : option URL :=
  match parseAbsolute input with
  | Some p => Some (toURL p)
  | None =>
      match base with
      | None => None
      | Some b =>
          match parseAbsolute b with
          | None => None
          | Some bp => option_map toURL (resolveRelative bp input)
          end
      end
  end.

End URLModel.

(** A one-line serialisation of the model's documents, enough to read the
    rewritten attributes off the final HTML. *)
Definition showAttr (a : string * string) : string :=
  " " ++ fst a ++ "=" ++ String dquote (snd a ++ String dquote EmptyString).

Definition showElement (e : Element) : string :=
  "<" ++ tagName e ++ String.concat EmptyString (map showAttr (attributes e)) ++ ">" ++
  textContent e ++ "</" ++ tagName e ++ ">".

Definition showDocument (d : Document) : string :=
  "<html><head>" ++ String.concat EmptyString (map showElement (head d)) ++ "</head><body>" ++
  String.concat EmptyString (map showElement (body d)) ++ "</body></html>".

(** The example platform: the URL model above; a parser that returns the
    document [doc] for any text; URL properties that reflect an absent or
    empty attribute as the empty string; elements that are all HTML
    elements; no form; fixed report texts. *)
Definition examplePlatform (doc : Document) : Platform := {|
  URL_new := URLModel.new;
  parseFromString := fun _ => doc;
  outerHTML := showDocument;
  reflectURL := fun a => match a with Some v => v | None => EmptyString end;
  hasInnerText := fun _ => true;
  formControls := fun _ => [];
  selectorMatches := fun _ _ => Some false;
  reportMd := fun _ _ _ => "# AI Scan Report";
  reportJson := fun _ _ _ => "{}"
|}.


(** The example network: texts and blobs by association lists. *)
Fixpoint assoc {A} (k : string) (l : list (string * A)) : option A :=
  match l with
  | [] => None
  | (k', v) :: r => if String.eqb k' k then Some v else assoc k r
  end.

Definition exampleNetwork (texts : list (string * string)) (blobs : list (string * Blob))
  : Network := {| netText := fun u => assoc u texts; netBlob := fun u => assoc u blobs |}.

(** The example platform with an empty page, for the URL helpers. *)
Definition barePlatform : Platform := examplePlatform (mkDocument [] []).

(** ** Vocabulary of the statements *)

(** A [url()] token of a style sheet as the grammar of the pattern has it:
    the text before it, an optional opening quote, the characters between,
    an optional closing quote. *)
Inductive Quoting := NoQuote | SingleQuote | DoubleQuote.

Definition quoteText (q : Quoting) : string :=
  match q with
  | NoQuote => EmptyString
  | SingleQuote => String squote EmptyString
  | DoubleQuote => String dquote EmptyString
  end.

Record Token := mkToken {
  before : string;
  opening : Quoting;
  inner : string;
  closing : Quoting
}.

Definition tokenText (t : Token) : string :=
  before t ++ "url(" ++ quoteText (opening t) ++ inner t ++ quoteText (closing t) ++ ")".

(** The style sheet made of the tokens [toks] followed by [tail]. *)
Fixpoint cssOf (toks : list Token) (tail : string) : string :=
  match toks with
  | [] => tail
  | t :: r => tokenText t ++ cssOf r tail
  end.

(** The text [url(] occurs in [s]. *)
Fixpoint hasUrlOpen (s : string) : bool :=
  match JS.stripPrefix "url(" s with
  | Some _ => true
  | None => match s with EmptyString => false | String _ r => hasUrlOpen r end
  end.

Fixpoint allClass (s : string) : bool :=
  match s with
  | EmptyString => true
  | String c r => inUrlClass c && allClass r
  end.

(** A token is well formed when its inner text is a non-empty run of class
    characters, and the text before it opens no token of its own. *)
Definition tokenOk (t : Token) : bool :=
  negb (hasUrlOpen (before t)) && JS.truthy (inner t) && allClass (inner t).

(** The file name as the specification words it: the final non-empty
    segment of the path, cut at a question mark; a guessed extension added
    when the name has none and the guess has at most five characters; and
    [asset] when nothing is left. *)
Definition specFileName {P : Platform} (path : string) : string :=
  let seg := match lastSegment path with Some s => s | None => EmptyString end in
  let name := JS.first (JS.split "?" seg) in
  let name :=
    if JS.includes "." name then name
    else
      let guess := guessExt path in
      if JS.truthy guess && (String.length guess <=? 5) then (name ++ "." ++ guess)%string
      else name in
  if JS.truthy name then name else "asset".

(** The replacement of line 434 as a relation: [Sanitized s t] when [t] is
    [s] with each maximal run of unsafe characters replaced by one hyphen. *)
Fixpoint allUnsafe (s : string) : bool :=
  match s with
  | EmptyString => true
  | String c r => isUnsafe c && allUnsafe r
  end.

Definition startsUnsafe (s : string) : bool :=
  match s with EmptyString => false | String c _ => isUnsafe c end.

Inductive Sanitized : string -> string -> Prop :=
| San_end : Sanitized EmptyString EmptyString
| San_keep c s t :
    isUnsafe c = false -> Sanitized s t -> Sanitized (String c s) (String c t)
| San_run run s t :
    run <> EmptyString -> allUnsafe run = true -> startsUnsafe s = false ->
    Sanitized s t -> Sanitized (run ++ s) (String "-" t).

(** What a computation adds to a run: archive writes, entries of the four
    lists of [metaInfo], and calls. *)
Record Delta := mkDelta {
  dZip : Zip;
  dCss : list MetaEntry;
  dJs : list MetaEntry;
  dImages : list MetaEntry;
  dFonts : list MetaEntry;
  dCalls : list Call
}.

Definition dnil : Delta := mkDelta [] [] [] [] [] [].

Definition dapp (a b : Delta) : Delta :=
  mkDelta (dZip a ++ dZip b) (dCss a ++ dCss b) (dJs a ++ dJs b)
          (dImages a ++ dImages b) (dFonts a ++ dFonts b) (dCalls a ++ dCalls b).

Fixpoint dconcat (ds : list Delta) : Delta :=
  match ds with
  | [] => dnil
  | d :: r => dapp d (dconcat r)
  end.

Definition extendMeta (m : MetaInfo) (d : Delta) : MetaInfo :=
  mkMeta (cssFiles m ++ dCss d) (jsFiles m ++ dJs d) (images m ++ dImages d)
         (fonts m ++ dFonts d)
         (inlineCssBlocks m) (inlineJsBlocks m) (inlineCssSize m) (inlineJsSize m).

Definition extend (st : Run) (d : Delta) : Run :=
  mkRun (zip st ++ dZip d) (extendMeta (meta st) d) (calls st ++ dCalls d).

Definition delta (st : Run) : Delta :=
  mkDelta (zip st) (cssFiles (meta st)) (jsFiles (meta st)) (images (meta st))
          (fonts (meta st)) (calls st).

(** The result and the effect of a computation started on the empty run. *)
Definition resultOf {A} (c : M A) : A := fst (c emptyRun).
Definition deltaOf {A} (c : M A) : Delta := delta (snd (c emptyRun)).

(** A computation is uniform when it neither reads the run nor does
    anything but add to it. *)
Definition Uniform {A} (c : M A) : Prop :=
  forall st, c st = (resultOf c, extend st (deltaOf c)).

(** A selected element replaced by its image, the others kept. *)
Definition onSel (sel : Element -> bool) (f : Element -> Element) (e : Element) : Element :=
  if sel e then f e else e.

Definition mapDoc (g : Element -> Element) (d : Document) : Document :=
  mkDocument (map g (head d)) (map g (body d)).

Definition elements (d : Document) : list Element := head d ++ body d.

(** The closed forms of the run: what each loop does to an element, and
    the calls it makes. *)
Section ClosedForms.
Context {P : Platform} {N : Network}.

(** The page as parsed, and as the download phases find it: inline code
    removed, and the elements for the combined files added. *)
Definition pageDoc (url : string) : Document := parseFromString (fetchTextResult url).

Definition prepared (doc0 : Document) : Document :=
  let d := stripInline doc0 in
  let d := if JS.truthy (JS.trim (combinedCSS doc0)) then appendHead inlineStylesLink d else d in
  if JS.truthy (JS.trim (combinedJS doc0)) then appendBody inlineScriptsTag d else d.

(** The absolute URL of a reference found in the document: its attribute
    resolved against the URL of the page. *)
Definition pageRef (url attr : string) (el : Element) : string :=
  resolveUrl url (attrOrProp attr el).

Definition cssName (url : string) (el : Element) : string :=
  JS.orElse (fileNameFromUrl (pageRef url "href" el)) "style.css".

Definition jsName (url : string) (el : Element) : string :=
  JS.orElse (fileNameFromUrl (pageRef url "src" el)) "script.js".

Definition iconName (url : string) (el : Element) : string :=
  JS.orElse (fileNameFromUrl (pageRef url "href" el)) "favicon.ico".

Definition fetched (u : string) : bool :=
  match netBlob u with Some _ => true | None => false end.

Definition cssRewrite (url : string) (el : Element) : Element :=
  setAttribute "href" ("css/" ++ cssName url el) el.

Definition jsRewrite (url : string) (el : Element) : Element :=
  setAttribute "src" ("js/" ++ jsName url el) el.

Definition imgRewrite (url : string) (el : Element) : Element :=
  if fetched (pageRef url "src" el)
  then setAttribute "src" ("images/" ++ fileNameFromUrl (pageRef url "src" el)) el
  else el.

Definition iconRewrite (url : string) (el : Element) : Element :=
  if fetched (pageRef url "href" el)
  then setAttribute "href" (iconName url el) el
  else el.

Definition preloadRewrite (url : string) (el : Element) : Element :=
  if fetched (pageRef url "href" el)
  then setAttribute "href" ("fonts/" ++ fileNameFromUrl (pageRef url "href" el)) el
  else el.

(** What the four loops over elements do to an element, taken together. *)
Definition rewriteEl (url : string) (el : Element) : Element :=
  if isStylesheetLink el then cssRewrite url el
  else if isSrcScript el then jsRewrite url el
  else if isImg el then imgRewrite url el
  else if isPreloadFont el then preloadRewrite url el
  else el.

(** The document after the loops over style sheets, scripts and images. *)
Definition afterImages (url : string) (d : Document) : Document :=
  mapDoc (onSel isImg (imgRewrite url))
    (mapDoc (onSel isSrcScript (jsRewrite url))
       (mapDoc (onSel isStylesheetLink (cssRewrite url)) d)).

(** The whole rewriting: the four loops, and the favicon link. *)
Definition rewriteDoc (url : string) (d : Document) : Document :=
  updateFirst isIconLink (iconRewrite url) (mapDoc (rewriteEl url) d).

(** The [url()] tokens of a fetched style sheet, each resolved against the
    URL of the sheet, and those of them a sheet makes the run fetch. *)
Definition sheetTokens (sheet : string) : list string :=
  map (resolveUrl sheet) (extractUrlsFromCss (fetchTextResult sheet)).

Definition wantedBySheet (a : string) : bool :=
  isFontExt (extOf a) || isImageExt (extOf a).

Definition sheetCalls (url : string) (el : Element) : list Call :=
  FetchText (pageRef url "href" el) ::
  map FetchBlob (filter wantedBySheet (sheetTokens (pageRef url "href" el))).

(** The tokens of the combined inline CSS, resolved against the URL of the
    page, and those of them the run fetches. *)
Definition inlineTokens (url : string) (doc0 : Document) : list string :=
  map (resolveUrl url) (extractUrlsFromCss (combinedCSS doc0)).

Definition wantedInline (a : string) : bool := isFontExt (extOf a).

Definition iconUrl (url : string) (d : Document) : string :=
  match querySelector isIconLink d with
  | Some l => pageRef url "href" l
  | None => resolveUrl url "/favicon.ico"
  end.

(** The calls of the download phases, phase by phase. *)
Definition cssPhaseCalls (url : string) (d : Document) : list Call :=
  flat_map (sheetCalls url) (filter isStylesheetLink (elements d)).

Definition jsPhaseCalls (url : string) (d : Document) : list Call :=
  map (fun el => FetchText (pageRef url "src" el)) (filter isSrcScript (elements d)).

Definition imgPhaseCalls (url : string) (d : Document) : list Call :=
  map (fun el => FetchBlob (pageRef url "src" el)) (filter isImg (elements d)).

Definition preloadPhaseCalls (url : string) (d : Document) : list Call :=
  map (fun el => FetchBlob (pageRef url "href" el)) (filter isPreloadFont (elements d)).

Definition inlinePhaseCalls (url : string) (doc0 : Document) : list Call :=
  map FetchBlob (filter wantedInline (inlineTokens url doc0)).

Definition downloadCalls (url : string) (doc0 : Document) : list Call :=
  cssPhaseCalls url (prepared doc0) ++
  jsPhaseCalls url (prepared doc0) ++
  imgPhaseCalls url (prepared doc0) ++
  [FetchBlob (iconUrl url (prepared doc0))] ++
  preloadPhaseCalls url (prepared doc0) ++
  inlinePhaseCalls url doc0.

End ClosedForms.

(** A rewriting [g] leaves a selector alone when it changes neither what
    the selector matches nor the elements it matches. *)
Definition Apart (sel : Element -> bool) (g : Element -> Element) : Prop :=
  forall e, sel (g e) = sel e /\ (sel e = true -> g e = e).

(** What the loops over [url()] tokens and over style sheets add to a
    run. *)
Section TokenDeltas.
Context {P : Platform} {N : Network}.

(** A binary fetch of [a] whose blob, if any, goes to the fonts folder and
    to [metaInfo.fonts]. *)
Definition fontDelta (a : string) : Delta :=
  match netBlob a with
  | Some b =>
      mkDelta [(fontsDir ++ fileNameFromUrl a, Bin b)%string] [] [] []
              [mkEntry a (Some (fileNameFromUrl a))] [FetchBlob a]
  | None => mkDelta [] [] [] [] [] [FetchBlob a]
  end.

(** The same for the images folder and [metaInfo.images]. *)
Definition imageDelta (a : string) : Delta :=
  match netBlob a with
  | Some b =>
      mkDelta [(imgDir ++ fileNameFromUrl a, Bin b)%string] [] []
              [mkEntry a (Some (fileNameFromUrl a))] [] [FetchBlob a]
  | None => mkDelta [] [] [] [] [] [FetchBlob a]
  end.

(** A token of a fetched style sheet, resolved to [a]. *)
Definition sheetTokenDelta (a : string) : Delta :=
  if isFontExt (extOf a) then fontDelta a
  else if isImageExt (extOf a) then imageDelta a
  else dnil.

(** A token of the combined inline CSS, resolved to [a]. *)
Definition inlineTokenDelta (a : string) : Delta :=
  if isFontExt (extOf a) then fontDelta a else dnil.

(** A style sheet link: its fetch, its file, its entry in
    [metaInfo.cssFiles], then its tokens. *)
Definition sheetDelta (url : string) (el : Element) : Delta :=
  dapp (mkDelta [(cssDir ++ cssName url el, Text (fetchTextResult (pageRef url "href" el)))%string]
                [mkEntry (pageRef url "href" el) (Some (cssName url el))] [] [] []
                [FetchText (pageRef url "href" el)])
       (dconcat (map sheetTokenDelta (sheetTokens (pageRef url "href" el)))).

(** What a loop over the selected elements of a document adds. *)
Definition phaseDelta (sel : Element -> bool) (step : Element -> M Element)
    (d : Document) : Delta :=
  dconcat (map (fun e => deltaOf (step e)) (filter sel (elements d))).

End TokenDeltas.

(** The run in closed form: the folders, what the phases between the
    folders and the final files add, and the final files. *)
Section RunClosedForm.
Context {P : Platform} {N : Network}.

Definition folderZip : Zip :=
  map (fun d => (d, Dir)) [rootDir; cssDir; jsDir; imgDir; fontsDir; auditDir].

Definition startMeta (doc0 : Document) : MetaInfo :=
  mkMeta [] [] [] []
    (length (styleEls doc0)) (length (inlineScriptEls doc0))
    (String.length (combinedCSS doc0)) (String.length (combinedJS doc0)).

Definition bodyDelta (url : string) (doc0 : Document) : Delta :=
  dapp (deltaOf (addCombined doc0 (stripInline doc0)))
       (deltaOf (download url doc0 (prepared doc0))).

Definition finalMeta (url : string) (doc0 : Document) : MetaInfo :=
  extendMeta (startMeta doc0) (bodyDelta url doc0).

Definition finalHtmlOf (d : Document) : string :=
  ("<!doctype html>" ++ nl ++ outerHTML d)%string.

(** The writes of the packaging: those before the scan, and those after
    it, which are made when the scan returned. *)
Definition auditWrites (url : string) (d : Document) (m : MetaInfo) : Zip :=
  match runHeuristicScan d url m with
  | Returned scan =>
      [(auditDir ++ "report.md", Text (JS.orElse (mdReport scan) EmptyString))%string;
       (auditDir ++ "report.json", Text (reportJson d url m))%string;
       (rootDir ++ "README.md", Text (readme url))%string]
  | Threw => []
  end.

Definition packageWrites (url : string) (doc0 d : Document) (m : MetaInfo) : Zip :=
  [(rootDir ++ "index.html", Text (finalHtmlOf d))%string] ++
  (if JS.truthy (JS.trim (combinedCSS doc0))
   then [(cssDir ++ "inline-styles.css", Text (combinedCSS doc0))%string] else []) ++
  (if JS.truthy (JS.trim (combinedJS doc0))
   then [(jsDir ++ "inline-scripts.js", Text (combinedJS doc0))%string] else []) ++
  auditWrites url d m.

Definition finalZip (url : string) (doc0 : Document) : Zip :=
  folderZip ++ dZip (bodyDelta url doc0) ++
  packageWrites url doc0 (rewriteDoc url (prepared doc0)) (finalMeta url doc0).

Definition finalOf (url : string) (doc0 : Document) : Final :=
  let d := rewriteDoc url (prepared doc0) in
  mkFinal d (finalHtmlOf d)
    match runHeuristicScan d url (finalMeta url doc0) with
    | Returned scan => Returned (scan, zipNameOf url)
    | Threw => Threw
    end.

End RunClosedForm.

(** The references of a page as the specification names them: an absolute
    URL, a kind, and where the reference was found. *)
Inductive Kind := Stylesheet | Script | Image | Font | Icon.

Inductive Via := Html | CssUrl | Preload.

Record AssetReference := mkRef {
  originUrl : string;
  kind : Kind;
  discoveredVia : Via
}.

(** The fetch a reference calls for: text for style sheets and scripts,
    binary otherwise. *)
Definition fetchOf (r : AssetReference) : Call :=
  match kind r with
  | Stylesheet | Script => FetchText (originUrl r)
  | _ => FetchBlob (originUrl r)
  end.

(** How many of the calls [cs] were made on the URL [x], and how many of
    the references [rs] have it as their URL. *)
Definition fetchCount (x : string) (cs : list Call) : nat :=
  length (filter (fun c => String.eqb (callUrl c) x) cs).

Definition refCount (x : string) (rs : list AssetReference) : nat :=
  length (filter (fun r => String.eqb (originUrl r) x) rs).

Section Discovery.
Context {P : Platform} {N : Network}.

Definition tokenRef (a : string) : AssetReference :=
  mkRef a (if isFontExt (extOf a) then Font else Image) CssUrl.

(** The references of a run, each with its kind.  On the prepared document
    (the page without its inline code, with the link and the script of the
    combined files when there are any): every style sheet link, every script
    with a source, every image, one icon reference (the first icon link, or
    [/favicon.ico] when the page has none) and every font preload.  Then
    every [url()] token with a font or an image extension in the text
    fetched for each of those style sheets, and every token with a font
    extension in the combined inline CSS, whose image tokens are not
    followed.  The list is in the order of the specification's list of
    sources, which is not the order of the calls, and nothing is removed
    from it: a URL referenced twice is in it twice. *)
Definition discover (url : string) (doc0 : Document) : list AssetReference :=
  let d := prepared doc0 in
  map (fun el => mkRef (pageRef url "href" el) Stylesheet Html)
      (filter isStylesheetLink (elements d)) ++
  map (fun el => mkRef (pageRef url "src" el) Script Html)
      (filter isSrcScript (elements d)) ++
  map (fun el => mkRef (pageRef url "src" el) Image Html) (filter isImg (elements d)) ++
  [mkRef (iconUrl url d) Icon Html] ++
  map (fun el => mkRef (pageRef url "href" el) Font Preload)
      (filter isPreloadFont (elements d)) ++
  flat_map (fun el => map tokenRef (filter wantedBySheet (sheetTokens (pageRef url "href" el))))
      (filter isStylesheetLink (elements d)) ++
  map (fun a => mkRef a Font CssUrl) (filter wantedInline (inlineTokens url doc0)).

End Discovery.

(** ** Example pages *)

Definition examplePage : string := "https://x.com/".

(** A page with the same image twice. *)
Definition twoImagesDoc : Document :=
  mkDocument []
    [mkElement "img" [("src", "a.png")] EmptyString;
     mkElement "img" [("src", "a.png"); ("alt", "again")] EmptyString].

Definition twoImagesNet : Network :=
  exampleNetwork [(examplePage, "<html></html>")] [("https://x.com/a.png", [137; 80; 78; 71])].

(** A page with one style sheet, one script and one image, none of which
    can be fetched. *)
Definition brokenAssetsDoc : Document :=
  mkDocument
    [mkElement "link" [("rel", "stylesheet"); ("href", "https://cdn.x.com/a.css")] EmptyString]
    [mkElement "script" [("src", "https://cdn.x.com/app.js")] EmptyString;
     mkElement "img" [("src", "https://cdn.x.com/logo.png")] EmptyString].

Definition brokenAssetsNet : Network :=
  exampleNetwork [(examplePage, "<html></html>")] [].

(** A page with an inline style block that refers to an image and a font,
    a style sheet that refers to a font, and an icon. *)
Definition styledDoc : Document :=
  mkDocument
    [mkElement "style" [] "body{background:url(bg.png)} @font-face{src:url(f.woff2)}";
     mkElement "link" [("rel", "stylesheet"); ("href", "css/main.css")] EmptyString;
     mkElement "link" [("rel", "icon"); ("href", "/favicon.ico")] EmptyString]
    [mkElement "img" [("src", "logo.png")] EmptyString].

Definition styledNet : Network :=
  exampleNetwork
    [(examplePage, "<html></html>");
     ("https://x.com/css/main.css", "h1{src:url('../fonts/t.woff')} p{background:url(p.gif)} a{x:url(doc.pdf)}");
     ("https://x.com/css/inline-styles.css", "/* remote */")]
    [("https://x.com/f.woff2", [1]); ("https://x.com/fonts/t.woff", [2]);
     ("https://x.com/css/p.gif", [3]); ("https://x.com/bg.png", [4]);
     ("https://x.com/favicon.ico", [5])].



(** A page with one inline style block and nothing else, asked for by a
    text that is not an absolute URL; the proxy answers it, and answers the
    relative target of the created link as well. *)
Definition inlineStyleDoc : Document :=
  mkDocument [mkElement "style" [] "p{color:red}"] [].

Definition bareUrlNet : Network :=
  exampleNetwork
    [("example.com", "<html></html>"); ("css/inline-styles.css", "/* remote */")] [].

(** A text has ink when one of its characters is not white space. *)
Fixpoint hasInk (s : string) : bool :=
  match s with
  | EmptyString => false
  | String c r => negb (JS.isWhite c) || hasInk r
  end.

(** Two networks that differ on one URL: the first answers it with the
    empty text, the second fails. *)
Definition emptyAnswerNet (x : string) : Network := exampleNetwork [(x, EmptyString)] [].
Definition noAnswerNet : Network := exampleNetwork [] [].

(** ** More of [app.js]: the log, HTML escaping, the rules of the scan *)

(** The em dash (U+2014) that lines 34 and 141 print is outside the 8-bit
    characters of this file: the functions that print it take it as the
    argument [dash]. *)

Definition LOG_MAX : nat := 2000.

(** [s.slice(0, n)]. *)
Fixpoint sliceTo (n : nat) (s : string) : string :=
  match n, s with
  | S k, String c r => String c (sliceTo k r)
  | _, _ => EmptyString
  end.

Definition CR : ascii := ascii_of_nat 13.
Definition LF : ascii := ascii_of_nat 10.

(** The log area is a [textarea] (its [value] keeps line feeds): the value
    read from it is the text that was set, with its line breaks normalised:
    every CR LF pair and every other CR becomes one LF. *)
Fixpoint textareaValue (s : string) : string :=
  match s with
  | EmptyString => EmptyString
  | String c r =>
      if Ascii.eqb c CR then
        match r with
        | String d r' =>
            if Ascii.eqb d LF then String LF (textareaValue r')
            else String LF (textareaValue r)
        | EmptyString => String LF EmptyString
        end
      else String c (textareaValue r)
  end.

(** [log] (lines 32-36), as a function of the time stamp [ts] and of the
    text read from the log area, returning the text read from it after the
    call.  Every read of [logArea.value] goes through [textareaValue]: the
    one of line 35 that is measured and cut, and the one after the call. *)
Definition log (ts dash msg logArea : string) : string :=
  let v := textareaValue (ts ++ " " ++ dash ++ " " ++ msg ++ nl ++ logArea) in
  if LOG_MAX <? String.length v then textareaValue (sliceTo LOG_MAX v) else v.

(** [s.replace(/c/g, by)] for a one-character pattern. *)
Fixpoint replaceChar (c : ascii) (by_ : string) (s : string) : string :=
  match s with
  | EmptyString => EmptyString
  | String d r =>
      if Ascii.eqb d c then (by_ ++ replaceChar c by_ r)%string
      else String d (replaceChar c by_ r)
  end.

(** [escapeHtml] (line 489): three replacements, one after the other. *)
Definition escapeHtml (s : string) : string :=
  replaceChar ">" "&gt;" (replaceChar "<" "&lt;" (replaceChar "&" "&amp;" s)).

(** What one character becomes, for the statements. *)
Definition escapeChar (c : ascii) : string :=
  if Ascii.eqb c "&" then "&amp;"
  else if Ascii.eqb c "<" then "&lt;"
  else if Ascii.eqb c ">" then "&gt;"
  else String c EmptyString.

Fixpoint escapeEach (s : string) : string :=
  match s with
  | EmptyString => EmptyString
  | String c r => (escapeChar c ++ escapeEach r)%string
  end.

(** The queries of [runHeuristicScan] (lines 115-120, 129-130, 139,
    170-174) on the flat document.  [innerText] is read as [textContent]:
    the parsed page is not rendered. *)
Definition isTitle (e : Element) : bool := hasTag "title" e.

Definition isMetaNamed (n : string) (e : Element) : bool :=
  hasTag "meta" e &&
  match getAttribute "name" e with Some v => String.eqb v n | None => false end.

Definition isMetaCharset (e : Element) : bool :=
  hasTag "meta" e &&
  match getAttribute "charset" e with Some _ => true | None => false end.

Definition attrOrEmpty (n : string) (e : Element) : string :=
  match getAttribute n e with Some v => JS.orElse v EmptyString | None => EmptyString end.

Definition titleOf (doc : Document) : string :=
  JS.trim (match querySelector isTitle doc with
           | Some t => textContent t
           | None => EmptyString
           end).

Definition metaDescOf (doc : Document) : string :=
  match querySelector (isMetaNamed "description") doc with
  | Some m => attrOrEmpty "content" m
  | None => EmptyString
  end.

Definition hasViewportOf (doc : Document) : bool :=
  match querySelector (isMetaNamed "viewport") doc with Some _ => true | None => false end.

Definition charsetOf (doc : Document) : bool :=
  match querySelector isMetaCharset doc with Some _ => true | None => false end.

Definition lacksAlt (i : Element) : bool := negb (JS.truthy (JS.trim (attrOrEmpty "alt" i))).

Definition missingAltOf (doc : Document) : list Element :=
  filter lacksAlt (querySelectorAll isImg doc).

Definition h1sOf (doc : Document) : list Element := querySelectorAll (hasTag "h1") doc.

Definition startsWith (p s : string) : bool :=
  match JS.stripPrefix p s with Some _ => true | None => false end.

Definition isBadAnchor (a : Element) : bool :=
  let href := JS.trim (attrOrEmpty "href" a) in
  negb (JS.truthy href) || String.eqb href "#" ||
  startsWith "javascript:" (JS.toLowerCase href).

Definition badAnchorsOf (doc : Document) : list Element :=
  filter isBadAnchor (querySelectorAll (hasTag "a") doc).

(** The findings of [runHeuristicScan] (lines 122-179), in the order in
    which they are pushed.  [lang] is the [lang] attribute of the root
    element (or the empty string) and [formsIssues] the number of forms with
    an unlabeled control (lines 154-165): the flat document has neither the
    root element nor the nesting of forms. *)
Definition scanFindings (dash : string) (doc : Document) (lang : string)
    (formsIssues : nat) (m : MetaInfo) : list Finding :=
  let total := totalAssetsOf m in
  (if JS.truthy (titleOf doc) then [] else [mkFinding Warn "Missing <title> tag"]) ++
  (if JS.truthy (metaDescOf doc) then [] else [mkFinding Warn "Missing meta description"]) ++
  (if hasViewportOf doc then [] else [mkFinding Warn "Missing viewport meta"]) ++
  (if JS.truthy lang then [] else [mkFinding Warn "Missing html lang attribute"]) ++
  (if charsetOf doc then []
   else [mkFinding Info "No charset meta tag; default will be used"]) ++
  [match length (missingAltOf doc) with
   | O => mkFinding Ok ("All " ++ decimal (length (querySelectorAll isImg doc)) ++
                        " images have alt text (or none present).")
   | n => mkFinding Warn (decimal n ++ " image(s) missing alt attribute")
   end] ++
  [match length (h1sOf doc) with
   | O => mkFinding Warn "No H1 found"
   | 1 => mkFinding Ok "Single H1 found"
   | n => mkFinding Info ("Multiple H1 tags (" ++ decimal n ++ ") " ++ dash ++
                          " check semantics")
   end] ++
  (if 0 <? inlineCssBlocks m
   then [mkFinding Info (decimal (inlineCssBlocks m) ++ " inline <style> block(s)")] else []) ++
  (if 0 <? inlineJsBlocks m
   then [mkFinding Info (decimal (inlineJsBlocks m) ++ " inline <script> block(s)")] else []) ++
  [mkFinding (if 40 <? total then Warn else Ok) (decimal total ++ " external assets detected")] ++
  [match formsIssues with
   | O => mkFinding Ok "Forms appear labeled (if any)."
   | n => mkFinding Warn (decimal n ++ " form(s) with unlabeled controls")
   end] ++
  (match length (badAnchorsOf doc) with
   | O => []
   | n => [mkFinding Warn (decimal n ++ " anchor(s) have empty or javascript: href")]
   end) ++
  (if 20000 <? inlineCssSize m then [mkFinding Warn "Large inline CSS (>20KB)"] else []) ++
  (if 50000 <? inlineJsSize m then [mkFinding Warn "Large inline JS (>50KB)"] else []).

(** The suggestions, pushed along with some of the warnings. *)
Definition scanSuggestions (doc : Document) (lang : string) (formsIssues : nat)
    (m : MetaInfo) : list string :=
  (if JS.truthy (titleOf doc) then []
   else ["Add a clear title tag for SEO and usability."]) ++
  (if JS.truthy (metaDescOf doc) then [] else ["Add a meta description for previews."]) ++
  (if hasViewportOf doc then [] else ["Add viewport meta for mobile-friendliness."]) ++
  (if JS.truthy lang then []
   else [("Add <html lang=" ++
          String dquote ("en" ++ String dquote "> or appropriate locale."))%string]) ++
  (match length (missingAltOf doc) with
   | O => []
   | _ => ["Add alt attributes to images for accessibility."]
   end) ++
  (match length (h1sOf doc) with
   | O => ["Add a single H1 for page structure."]
   | _ => []
   end) ++
  (if 40 <? totalAssetsOf m
   then ["Consider bundling, lazy-loading, or using CDNs for large counts of assets."]
   else []) ++
  (match formsIssues with
   | O => []
   | _ => ["Label form controls for accessibility."]
   end).

(** [renderScanResult] (lines 480-481): the number of issues shown. *)
Definition isWarn (f : Finding) : bool :=
  match level f with Warn => true | _ => false end.

Definition issuesOf (findings : list Finding) : nat := length (filter isWarn findings).

(** A text without unsafe characters. *)
Fixpoint allSafe (s : string) : bool :=
  match s with
  | EmptyString => true
  | String c r => negb (isUnsafe c) && allSafe r
  end.

(** An entry of the archive that lies in the folder [website]. *)
Definition underWebsite (w : string * Content) : bool := startsWith "website/" (fst w).

(** A page with a title, a script with a source, an inline script, an
    image without [alt] and a link that leads nowhere. *)
Definition scriptedDoc : Document :=
  mkDocument
    [mkElement "title" [] " Shop ";
     mkElement "meta" [("name", "viewport"); ("content", "width=device-width")] EmptyString]
    [mkElement "h1" [] "Shop";
     mkElement "script" [("src", "app.js")] EmptyString;
     mkElement "script" [] "console.log(1)";
     mkElement "img" [("src", "logo.png")] EmptyString;
     mkElement "a" [("href", "#")] "top"].

Definition scriptedNet : Network :=
  exampleNetwork
    [(examplePage, "<html></html>"); ("https://x.com/app.js", "run()")]
    [("https://x.com/logo.png", [9])].

(** A selector [sel] and what is read off the elements it selects, [obs],
    are kept by a run when no step of the run touches them: the rewriting
    of the elements and of the icon link changes neither, the elements the
    run removes are not selected, and neither are the two it adds. *)
Definition Kept {P : Platform} {N : Network} {B : Type} (url : string)
    (sel : Element -> bool) (obs : Element -> B) : Prop :=
  (forall e, sel (rewriteEl url e) = sel e /\
             (sel e = true -> obs (rewriteEl url e) = obs e)) /\
  (forall e, isIconLink e = true ->
             sel (iconRewrite url e) = sel e /\
             (sel e = true -> obs (iconRewrite url e) = obs e)) /\
  (forall e, sel e = true -> isStyle e = false /\ isInlineScript e = false) /\
  sel inlineStylesLink = false /\ sel inlineScriptsTag = false.

(** * Properties *)

(** ** Strings *)

Lemma append_nil_r (s : string) : (s ++ EmptyString)%string = s.
Proof. induction s as [|c s IH]; simpl; [reflexivity | now rewrite IH]. Qed.

Lemma append_assoc (a b c : string) : ((a ++ b) ++ c)%string = (a ++ (b ++ c))%string.
Proof. induction a as [|x a IH]; simpl; [reflexivity | now rewrite IH]. Qed.

Lemma length_append (a b : string) :
  String.length (a ++ b) = String.length a + String.length b.
Proof. induction a as [|x a IH]; simpl; [reflexivity | now rewrite IH]. Qed.

Lemma stripPrefix_append (p s : string) : JS.stripPrefix p (p ++ s) = Some s.
Proof.
  induction p as [|c p IH]; simpl; [now destruct s|].
  now rewrite Ascii.eqb_refl.
Qed.

Lemma stripPrefix_length (p s r : string) :
  JS.stripPrefix p s = Some r -> String.length s = String.length p + String.length r.
Proof.
  revert s; induction p as [|c p IH]; intros s H.
  - destruct s; simpl in H; inversion H; reflexivity.
  - destruct s as [|d s]; simpl in H; [discriminate|].
    destruct (Ascii.eqb c d); [|discriminate].
    simpl. now rewrite (IH _ H).
Qed.

(** ** The pattern of [extractUrlsFromCss] *)

Lemma optQuote_length (s : string) : String.length (optQuote s) <= String.length s.
Proof. destruct s as [|c r]; simpl; [lia|]. destruct (isQuote c); simpl; lia. Qed.

Lemma spanClass_length (s a b : string) :
  spanClass s = (a, b) -> String.length s = String.length a + String.length b.
Proof.
  revert a b; induction s as [|c r IH]; intros a b H; simpl in H.
  - inversion H; reflexivity.
  - destruct (inUrlClass c).
    + destruct (spanClass r) as [a' b'] eqn:E. inversion H; subst.
      simpl. now rewrite (IH _ _ eq_refl).
    + inversion H; subst. reflexivity.
Qed.

Lemma matchAt_shorter (s b r : string) :
  matchAt s = Some (b, r) -> String.length r < String.length s.
Proof.
  unfold matchAt. destruct (JS.stripPrefix "url(" s) as [s1|] eqn:E1; [|discriminate].
  destruct (spanClass (optQuote s1)) as [body s2] eqn:E2.
  destruct (JS.truthy body); [|discriminate].
  destruct (optQuote s2) as [|c rest] eqn:E3; [discriminate|].
  destruct (Ascii.eqb c ")"); [|discriminate].
  intros H; inversion H; subst.
  apply stripPrefix_length in E1. apply spanClass_length in E2.
  pose proof (optQuote_length s1). pose proof (optQuote_length s2).
  rewrite E3 in *. simpl in *. lia.
Qed.

Lemma re_exec_shorter (s b r : string) :
  re_exec s = Some (b, r) -> String.length r < String.length s.
Proof.
  induction s as [|c s IH]; cbn [re_exec].
  - discriminate.
  - destruct (matchAt (String c s)) as [[b' r']|] eqn:E.
    + intros H; inversion H; subst. now apply matchAt_shorter in E.
    + intros H. apply IH in H. simpl. lia.
Qed.

(** Any fuel that covers the text gives the same list. *)
Lemma execLoop_fuel (n m : nat) (s : string) :
  String.length s <= n -> String.length s <= m -> execLoop n s = execLoop m s.
Proof.
  revert m s; induction n as [|n IH]; intros [|m] s Hn Hm; try reflexivity.
  - destruct s; [|simpl in Hn; lia]. reflexivity.
  - destruct s; [|simpl in Hm; lia]. reflexivity.
  - simpl. destruct (re_exec s) as [[b r]|] eqn:E; [|reflexivity].
    apply re_exec_shorter in E. f_equal. apply IH; lia.
Qed.

(** The loop, one iteration at a time. *)
Lemma extractUrlsFromCss_step (s : string) :
  extractUrlsFromCss s =
  match re_exec s with
  | None => []
  | Some (b, r) => b :: extractUrlsFromCss r
  end.
Proof.
  unfold extractUrlsFromCss. destruct s as [|c s].
  - reflexivity.
  - cbn [String.length execLoop].
    destruct (re_exec (String c s)) as [[b r]|] eqn:E; [|reflexivity].
    apply re_exec_shorter in E. simpl in E. f_equal. apply execLoop_fuel; lia.
Qed.

Lemma hasUrlOpen_false_re_exec (s : string) : hasUrlOpen s = false -> re_exec s = None.
Proof.
  induction s as [|c s IH]; intros H.
  - reflexivity.
  - cbn [hasUrlOpen] in H. cbn [re_exec]. unfold matchAt.
    destruct (JS.stripPrefix "url(" (String c s)); [discriminate|]. auto.
Qed.

Lemma spanClass_run (body rest : string) :
  allClass body = true ->
  match rest with EmptyString => true | String c _ => negb (inUrlClass c) end = true ->
  spanClass (body ++ rest) = (body, rest).
Proof.
  intros Hb Hr. induction body as [|c b IH]; simpl in *.
  - destruct rest as [|c r]; [reflexivity|].
    simpl. now destruct (inUrlClass c).
  - apply andb_true_iff in Hb as [Hc Hb]. rewrite Hc, (IH Hb). reflexivity.
Qed.

(** The pattern matches a well-formed token where it starts, whatever its
    quotes, and captures its inner text. *)
Lemma matchAt_token (q1 q2 : Quoting) (body rest : string) :
  JS.truthy body = true -> allClass body = true ->
  matchAt ("url(" ++ quoteText q1 ++ body ++ quoteText q2 ++ ")" ++ rest) = Some (body, rest).
Proof.
  intros Hne Hb. unfold matchAt. rewrite stripPrefix_append.
  assert (Hq : optQuote (quoteText q1 ++ body ++ quoteText q2 ++ ")" ++ rest)
               = (body ++ quoteText q2 ++ ")" ++ rest)%string).
  { destruct q1; simpl; try reflexivity.
    destruct body as [|c b]; [discriminate|]. simpl in *.
    apply andb_true_iff in Hb as [Hc _]. unfold inUrlClass in Hc.
    destruct (isQuote c); [discriminate|reflexivity]. }
  rewrite Hq, spanClass_run; [|assumption|now destruct q2].
  rewrite Hne. now destruct q2.
Qed.

(** No match starts in text that does not hold [url(], even with a token
    right after it. *)
Lemma stripPrefix_straddle (b y : string) :
  b <> EmptyString -> JS.stripPrefix "url(" b = None ->
  JS.stripPrefix "url(" (b ++ "url(" ++ y) = None.
Proof.
  intros Hne H.
  destruct b as [|c1 [|c2 [|c3 [|c4 b]]]]; [congruence|..];
    cbn [JS.stripPrefix String.append] in H |- *;
    repeat match goal with
           | |- context [Ascii.eqb ?a ?b] => is_var b; destruct (Ascii.eqb a b) eqn:?
           end; try reflexivity; try discriminate.
Qed.

Lemma re_exec_skip (b y : string) :
  hasUrlOpen b = false -> re_exec (b ++ "url(" ++ y) = re_exec ("url(" ++ y).
Proof.
  induction b as [|c b IH]; intros H; [reflexivity|].
  cbn [hasUrlOpen] in H.
  destruct (JS.stripPrefix "url(" (String c b)) eqn:E; [discriminate|].
  change ((String c b ++ "url(" ++ y)%string) with (String c (b ++ "url(" ++ y)).
  cbn [re_exec]. unfold matchAt at 1.
  change (String c (b ++ "url(" ++ y)) with ((String c b ++ "url(" ++ y)%string).
  rewrite stripPrefix_straddle; [|discriminate|assumption].
  change ((String c b ++ "url(" ++ y)%string) with (String c (b ++ "url(" ++ y)).
  now apply IH.
Qed.

Lemma re_exec_token (t : Token) (rest : string) :
  tokenOk t = true -> re_exec (tokenText t ++ rest) = Some (inner t, rest).
Proof.
  unfold tokenOk, tokenText. intros H.
  apply andb_true_iff in H as [H Hc]. apply andb_true_iff in H as [Hb Hn].
  apply negb_true_iff in Hb.
  rewrite !append_assoc.
  rewrite re_exec_skip by assumption.
  set (s := ("url(" ++ _)%string).
  assert (Hs : matchAt s = Some (inner t, rest)).
  { subst s. now apply matchAt_token. }
  destruct s; cbn [re_exec]; now rewrite Hs.
Qed.

(** C6. A style sheet made of well-formed [url()] tokens, quoted or not,
    each preceded by text that opens no token, yields the inner texts of its
    tokens, in the order of the text. *)
Theorem extractUrlsFromCss_tokens (toks : list Token) (tail : string) :
  forallb tokenOk toks = true -> hasUrlOpen tail = false ->
  extractUrlsFromCss (cssOf toks tail) = map inner toks.
Proof.
  intros Hok Htail. induction toks as [|t toks IH]; cbn [cssOf map].
  - rewrite extractUrlsFromCss_step, hasUrlOpen_false_re_exec; auto.
  - cbn [forallb] in Hok. apply andb_true_iff in Hok as [Ht Hok].
    rewrite extractUrlsFromCss_step, re_exec_token by assumption.
    now rewrite IH.
Qed.

(** The example of the specification, read as two tokens. *)
Lemma extractUrlsFromCss_tokens_witness :
  extractUrlsFromCss "background:url('a.png') , url(b.woff2)" = ["a.png"; "b.woff2"].
Proof.
  exact (extractUrlsFromCss_tokens
           [mkToken "background:" SingleQuote "a.png" SingleQuote;
            mkToken " , " NoQuote "b.woff2" NoQuote]
           EmptyString eq_refl eq_refl).
Defined.

(** What the pattern matches is a token: the converse of [matchAt_token]. *)
Lemma spanClass_inv (s a b : string) :
  spanClass s = (a, b) -> s = (a ++ b)%string /\ allClass a = true.
Proof.
  revert a b; induction s as [|c r IH]; intros a b H; simpl in H.
  - inversion H; subst; auto.
  - destruct (inUrlClass c) eqn:Ec.
    + destruct (spanClass r) as [a' b'] eqn:E. inversion H; subst.
      destruct (IH _ _ eq_refl) as [-> Ha]. simpl. now rewrite Ec.
    + inversion H; subst; auto.
Qed.

Lemma optQuote_inv (s : string) : exists q, s = (quoteText q ++ optQuote s)%string.
Proof.
  destruct s as [|c r]; [now exists NoQuote|]. simpl.
  destruct (isQuote c) eqn:E; [|now exists NoQuote].
  unfold isQuote in E. apply orb_true_iff in E as [E|E]; apply Ascii.eqb_eq in E; subst.
  - now exists SingleQuote.
  - now exists DoubleQuote.
Qed.

Lemma stripPrefix_inv (p s r : string) :
  JS.stripPrefix p s = Some r -> s = (p ++ r)%string.
Proof.
  revert s; induction p as [|c p IH]; intros s H.
  - destruct s; simpl in H; inversion H; reflexivity.
  - destruct s as [|d s]; simpl in H; [discriminate|].
    destruct (Ascii.eqb c d) eqn:E; [|discriminate].
    apply Ascii.eqb_eq in E; subst. simpl. now rewrite (IH _ H).
Qed.

Lemma matchAt_inv (s body rest : string) :
  matchAt s = Some (body, rest) ->
  exists q1 q2,
    s = ("url(" ++ quoteText q1 ++ body ++ quoteText q2 ++ ")" ++ rest)%string /\
    JS.truthy body = true /\ allClass body = true.
Proof.
  unfold matchAt. destruct (JS.stripPrefix "url(" s) as [s1|] eqn:E1; [|discriminate].
  destruct (spanClass (optQuote s1)) as [b s2] eqn:E2.
  destruct (JS.truthy b) eqn:Eb; [|discriminate].
  destruct (optQuote s2) as [|c r] eqn:E3; [discriminate|].
  destruct (Ascii.eqb c ")") eqn:Ec; [|discriminate].
  intros H; inversion H; subst. apply Ascii.eqb_eq in Ec; subst.
  apply stripPrefix_inv in E1. apply spanClass_inv in E2 as [E2 Hc].
  destruct (optQuote_inv s1) as [q1 H1]. destruct (optQuote_inv s2) as [q2 H2].
  exists q1, q2. repeat split; auto.
  rewrite E1, H1, E2, H2, E3. reflexivity.
Qed.

(** ** [fileNameFromUrl] *)

Section FileName.
Context {P : Platform}.

Lemma fileNameOfPath_segment (path seg : string) :
  lastSegment path = Some seg -> fileNameOfPath path = specFileName path.
Proof.
  unfold fileNameOfPath, specFileName, addGuess, JS.orElse. now intros ->.
Qed.

Lemma addGuess_truthy (path name : string) :
  JS.truthy name = true -> JS.truthy (addGuess path name) = true.
Proof.
  unfold addGuess. intros H. destruct (JS.includes "." name); [assumption|].
  destruct (JS.truthy (guessExt path) && _); [|assumption].
  destruct name; [discriminate|reflexivity].
Qed.

Lemma fileNameOfPath_index (path : string) :
  lastSegment path = None -> fileNameOfPath path = addGuess path "index".
Proof.
  unfold fileNameOfPath. intros ->. cbn [JS.split JS.first hd].
  change (JS.first (JS.split "?" "index")) with "index".
  unfold JS.orElse. now rewrite addGuess_truthy.
Qed.

End FileName.

(** C5, as the specification states it, fails on a URL whose path has no
    segment: the name starts from [index], it is not [asset], and it is not
    the name the specification's wording gives. *)
Lemma fileNameFromUrl_no_segment :
  @lastSegment "/" = None /\
  @fileNameFromUrl barePlatform "https://x.com/" = "index./" /\
  @fileNameFromUrl barePlatform "https://x.com/" <> "asset" /\
  @fileNameFromUrl barePlatform "https://x.com/" <> @specFileName barePlatform "/".
Proof. repeat split; try reflexivity; vm_compute; discriminate. Qed.

(** C5, amended.  When the URL does not parse the name is [asset].  When
    its path has a non-empty segment the name is the one the specification
    describes, built from the final segment.  When the path has no segment
    the name is built from [index] in the same way.  The two examples of the
    specification hold. *)
Theorem fileNameFromUrl_cases :
  (forall (P : Platform) (url : string),
      URL_new url None = None -> fileNameFromUrl url = "asset") /\
  (forall (P : Platform) (url : string) (u : URL) (seg : string),
      URL_new url None = Some u -> lastSegment (pathname u) = Some seg ->
      fileNameFromUrl url = specFileName (pathname u)) /\
  (forall (P : Platform) (url : string) (u : URL),
      URL_new url None = Some u -> lastSegment (pathname u) = None ->
      fileNameFromUrl url = addGuess (pathname u) "index") /\
  @fileNameFromUrl barePlatform "https://x.com/assets/app.min.js?v=2" = "app.min.js" /\
  @fileNameFromUrl barePlatform "https://x.com/path/noext" = "noext" /\
  @fileNameFromUrl barePlatform "https://x.com/path/file.jpg" = "file.jpg".
Proof.
  repeat split; try reflexivity.
  - intros P url H. unfold fileNameFromUrl. now rewrite H.
  - intros P url u seg H Hs. unfold fileNameFromUrl. rewrite H.
    now apply fileNameOfPath_segment with seg.
  - intros P url u H Hs. unfold fileNameFromUrl. rewrite H.
    now apply fileNameOfPath_index.
Qed.

Lemma fileNameFromUrl_cases_witness :
  @fileNameFromUrl barePlatform "not a url" = "asset" /\
  @fileNameFromUrl barePlatform "https://x.com/path/file.jpg"
  = @specFileName barePlatform "/path/file.jpg" /\
  @fileNameFromUrl barePlatform "https://x.com/" = addGuess "/" "index".
Proof.
  destruct fileNameFromUrl_cases as (A & B & C & _).
  split; [|split].
  - exact (A barePlatform "not a url" eq_refl).
  - exact (B barePlatform "https://x.com/path/file.jpg"
             (mkURL "https://x.com/path/file.jpg" "x.com" "/path/file.jpg") "file.jpg"
             eq_refl eq_refl).
  - exact (C barePlatform "https://x.com/" (mkURL "https://x.com/" "x.com" "/")
             eq_refl eq_refl).
Defined.

(** ** The archive name *)

Lemma replaceRuns_skip (run s : string) :
  allUnsafe run = true -> startsUnsafe s = false ->
  replaceRuns true (run ++ s) = replaceRuns false s.
Proof.
  intros Hr Hs. induction run as [|c run IH]; simpl in *.
  - destruct s as [|c s]; [reflexivity|]. simpl in *. now rewrite Hs.
  - apply andb_true_iff in Hr as [Hc Hr]. rewrite Hc. auto.
Qed.

Lemma allUnsafe_snoc (run : string) (c : ascii) :
  allUnsafe run = true -> isUnsafe c = true ->
  allUnsafe (run ++ String c EmptyString) = true.
Proof.
  intros Hr Hc. induction run as [|d run IH]; simpl in *.
  - now rewrite Hc.
  - apply andb_true_iff in Hr as [Hd Hr]. rewrite Hd. auto.
Qed.

Lemma replaceRuns_sanitized (s : string) :
  Sanitized s (replaceRuns false s) /\
  (forall run, run <> EmptyString -> allUnsafe run = true ->
     Sanitized (run ++ s) (String "-" (replaceRuns true s))).
Proof.
  induction s as [|c s [IH1 IH2]].
  - split; [constructor|]. intros run Hne Hr. apply San_run; auto. constructor.
  - cbn [replaceRuns]. destruct (isUnsafe c) eqn:Ec.
    + split.
      * apply (IH2 (String c EmptyString)); [discriminate|]. simpl. now rewrite Ec.
      * intros run Hne Hr.
        replace (run ++ String c s)%string with ((run ++ String c EmptyString) ++ s)%string
          by (now rewrite append_assoc).
        apply IH2; [now destruct run|now apply allUnsafe_snoc].
    + split.
      * now constructor.
      * intros run Hne Hr. apply San_run; auto. now constructor.
Qed.

(** The relation determines the result: it is the graph of [safeName]. *)
Lemma Sanitized_safeName (s t : string) : Sanitized s t <-> t = safeName s.
Proof.
  split.
  - unfold safeName. induction 1 as [|c s t Hc _ IH|run s t Hne Hr Hs _ IH].
    + reflexivity.
    + simpl. now rewrite Hc, IH.
    + destruct run as [|c run]; [congruence|]. simpl in Hr |- *.
      apply andb_true_iff in Hr as [Hc Hr]. rewrite Hc.
      now rewrite replaceRuns_skip, IH.
  - intros ->. apply replaceRuns_sanitized.
Qed.

(** C4, as the specification states it, fails: the domain of the example
    is not the host with its port and its capital letter, and the archive is
    not named after them. *)
Lemma domainFromUrl_drops_port :
  @domainFromUrl barePlatform "https://Example.com:8080/x" <> "Example.com:8080" /\
  @zipNameOf barePlatform "https://Example.com:8080/x" <> "Example.com-8080.zip".
Proof. split; vm_compute; discriminate. Qed.

(** C4, amended.  The domain of a URL that parses is its [hostname], which
    for the example is [example.com], lower-cased and without the port; the
    archive is named after the domain ([site] when it is empty), each run of
    unsafe characters replaced by one hyphen, followed by [.zip]: here
    [example.com.zip].  The replacement itself turns [Example.com:8080] into
    [Example.com-8080]. *)
Theorem zipNameOf_sanitized :
  (forall (P : Platform) (url : string) (u : URL),
      URL_new url None = Some u -> domainFromUrl url = hostname u) /\
  (forall (P : Platform) (url : string),
      exists name, Sanitized (JS.orElse (domainFromUrl url) "site") name /\
                   zipNameOf url = (name ++ ".zip")%string) /\
  @domainFromUrl barePlatform "https://Example.com:8080/x" = "example.com" /\
  @zipNameOf barePlatform "https://Example.com:8080/x" = "example.com.zip" /\
  safeName "Example.com:8080" = "Example.com-8080".
Proof.
  repeat split; try reflexivity.
  - intros P url u H. unfold domainFromUrl. now rewrite H.
  - intros P url. exists (safeName (JS.orElse (domainFromUrl url) "site")).
    split; [now apply Sanitized_safeName | reflexivity].
Qed.

Lemma zipNameOf_sanitized_witness :
  @domainFromUrl barePlatform "https://Example.com:8080/x" = "example.com".
Proof.
  exact (proj1 zipNameOf_sanitized barePlatform "https://Example.com:8080/x"
           (mkURL "https://example.com:8080/x" "example.com" "/x") eq_refl).
Defined.

(** ** Runs and what computations add to them *)

Lemma dapp_nil_l (d : Delta) : dapp dnil d = d.
Proof. now destruct d. Qed.

Lemma dapp_nil_r (d : Delta) : dapp d dnil = d.
Proof. destruct d; unfold dapp; simpl. now rewrite !app_nil_r. Qed.

Lemma dapp_assoc (a b c : Delta) : dapp (dapp a b) c = dapp a (dapp b c).
Proof. unfold dapp; simpl. now rewrite <- !app_assoc. Qed.

Lemma extend_nil (st : Run) : extend st dnil = st.
Proof.
  destruct st as [z [a b c d e f g h] k]. unfold extend, extendMeta; simpl.
  now rewrite !app_nil_r.
Qed.

Lemma extend_dapp (st : Run) (a b : Delta) :
  extend (extend st a) b = extend st (dapp a b).
Proof. unfold extend, extendMeta, dapp; simpl. now rewrite <- !app_assoc. Qed.

Lemma delta_extend (st : Run) (d : Delta) : delta (extend st d) = dapp (delta st) d.
Proof. reflexivity. Qed.

Lemma delta_empty : delta emptyRun = dnil.
Proof. reflexivity. Qed.

Lemma dconcat_app (xs ys : list Delta) :
  dconcat (xs ++ ys) = dapp (dconcat xs) (dconcat ys).
Proof.
  induction xs as [|x xs IH]; simpl.
  - now rewrite dapp_nil_l.
  - now rewrite IH, dapp_assoc.
Qed.

Lemma dCalls_dconcat (ds : list Delta) : dCalls (dconcat ds) = concat (map dCalls ds).
Proof. induction ds as [|d ds IH]; simpl; [reflexivity | now rewrite IH]. Qed.

Lemma dZip_dconcat (ds : list Delta) : dZip (dconcat ds) = concat (map dZip ds).
Proof. induction ds as [|d ds IH]; simpl; [reflexivity | now rewrite IH]. Qed.

Lemma dCss_dconcat (ds : list Delta) : dCss (dconcat ds) = concat (map dCss ds).
Proof. induction ds as [|d ds IH]; simpl; [reflexivity | now rewrite IH]. Qed.

Section UniformLaws.
Context {A B : Type}.

Lemma uniform_result (c : M A) (st : Run) : Uniform c -> fst (c st) = resultOf c.
Proof. intros H. now rewrite H. Qed.

Lemma uniform_state (c : M A) (st : Run) :
  Uniform c -> snd (c st) = extend st (deltaOf c).
Proof. intros H. now rewrite H. Qed.

Lemma Uniform_ret (a : A) : Uniform (ret a).
Proof. intros st. unfold ret, resultOf, deltaOf; simpl. now rewrite extend_nil. Qed.

Lemma Uniform_bind (c : M A) (k : A -> M B) :
  Uniform c -> (forall a, Uniform (k a)) -> Uniform (bind c k).
Proof.
  intros Hc Hk st. unfold resultOf, deltaOf, bind.
  rewrite (Hc st), (Hc emptyRun).
  rewrite (Hk (resultOf c) (extend st (deltaOf c))).
  rewrite (Hk (resultOf c) (extend emptyRun (deltaOf c))).
  simpl. now rewrite !delta_extend, delta_empty, dapp_nil_l, extend_dapp.
Qed.

Lemma resultOf_bind (c : M A) (k : A -> M B) :
  Uniform c -> (forall a, Uniform (k a)) ->
  resultOf (bind c k) = resultOf (k (resultOf c)).
Proof.
  intros Hc Hk. unfold resultOf at 1. unfold bind. rewrite (Hc emptyRun).
  now rewrite (Hk (resultOf c)).
Qed.

Lemma deltaOf_bind (c : M A) (k : A -> M B) :
  Uniform c -> (forall a, Uniform (k a)) ->
  deltaOf (bind c k) = dapp (deltaOf c) (deltaOf (k (resultOf c))).
Proof.
  intros Hc Hk. unfold deltaOf at 1. unfold bind. rewrite (Hc emptyRun).
  rewrite (Hk (resultOf c)). simpl.
  now rewrite !delta_extend, delta_empty, dapp_nil_l.
Qed.

End UniformLaws.

Lemma Uniform_zipFile (path : string) (c : Content) : Uniform (zipFile path c).
Proof.
  intros [z [a b c' d e f g h] k]. unfold zipFile, resultOf, deltaOf, extend, extendMeta.
  simpl. now rewrite !app_nil_r.
Qed.

Lemma Uniform_pushCss (e : MetaEntry) : Uniform (pushCss e).
Proof.
  intros [z [a b c' d e' f g h] k].
  unfold pushCss, modMeta, resultOf, deltaOf, extend, extendMeta.
  simpl. now rewrite !app_nil_r.
Qed.

Lemma Uniform_pushJs (e : MetaEntry) : Uniform (pushJs e).
Proof.
  intros [z [a b c' d e' f g h] k].
  unfold pushJs, modMeta, resultOf, deltaOf, extend, extendMeta.
  simpl. now rewrite !app_nil_r.
Qed.

Lemma Uniform_pushImage (e : MetaEntry) : Uniform (pushImage e).
Proof.
  intros [z [a b c' d e' f g h] k].
  unfold pushImage, modMeta, resultOf, deltaOf, extend, extendMeta.
  simpl. now rewrite !app_nil_r.
Qed.

Lemma Uniform_pushFont (e : MetaEntry) : Uniform (pushFont e).
Proof.
  intros [z [a b c' d e' f g h] k].
  unfold pushFont, modMeta, resultOf, deltaOf, extend, extendMeta.
  simpl. now rewrite !app_nil_r.
Qed.

Lemma Uniform_when (b : bool) (c : M unit) : Uniform c -> Uniform (when b c).
Proof. destruct b; simpl; [auto | intros _; apply Uniform_ret]. Qed.

Lemma Uniform_forEach {A} (f : A -> M unit) (l : list A) :
  (forall a, Uniform (f a)) -> Uniform (forEach f l).
Proof.
  intros Hf. induction l as [|a l IH]; simpl.
  - apply Uniform_ret.
  - apply Uniform_bind; auto.
Qed.

Lemma deltaOf_forEach {A} (f : A -> M unit) (l : list A) :
  (forall a, Uniform (f a)) ->
  deltaOf (forEach f l) = dconcat (map (fun a => deltaOf (f a)) l).
Proof.
  intros Hf. induction l as [|a l IH]; simpl.
  - reflexivity.
  - rewrite deltaOf_bind; auto. { now rewrite IH. }
    intros _. now apply Uniform_forEach.
Qed.

Lemma Uniform_forEls (sel : Element -> bool) (step : Element -> M Element)
    (l : list Element) :
  (forall e, Uniform (step e)) -> Uniform (forEls sel step l).
Proof.
  intros Hs. induction l as [|e l IH]; simpl.
  - apply Uniform_ret.
  - apply Uniform_bind.
    + destruct (sel e); [auto | apply Uniform_ret].
    + intros e'. apply Uniform_bind; auto. intros r'. apply Uniform_ret.
Qed.

Lemma resultOf_forEls (sel : Element -> bool) (step : Element -> M Element)
    (l : list Element) :
  (forall e, Uniform (step e)) ->
  resultOf (forEls sel step l) = map (onSel sel (fun e => resultOf (step e))) l.
Proof.
  intros Hs. induction l as [|e l IH]; simpl.
  - reflexivity.
  - rewrite resultOf_bind.
    + rewrite resultOf_bind; [| now apply Uniform_forEls | intros; apply Uniform_ret].
      rewrite IH. unfold onSel at 2. now destruct (sel e).
    + destruct (sel e); [auto | apply Uniform_ret].
    + intros e'. apply Uniform_bind; [now apply Uniform_forEls|].
      intros; apply Uniform_ret.
Qed.

Lemma deltaOf_forEls (sel : Element -> bool) (step : Element -> M Element)
    (l : list Element) :
  (forall e, Uniform (step e)) ->
  deltaOf (forEls sel step l) = dconcat (map (fun e => deltaOf (step e)) (filter sel l)).
Proof.
  intros Hs. induction l as [|e l IH]; simpl.
  - reflexivity.
  - assert (Hk : forall e', Uniform (r' <- forEls sel step l ;; ret (e' :: r'))).
    { intros e'. apply Uniform_bind; [now apply Uniform_forEls|].
      intros; apply Uniform_ret. }
    rewrite deltaOf_bind; auto.
    + rewrite deltaOf_bind; [| now apply Uniform_forEls | intros; apply Uniform_ret].
      rewrite IH. change (deltaOf (ret _)) with dnil. rewrite dapp_nil_r.
      destruct (sel e); simpl; [reflexivity|].
      change (deltaOf (ret e)) with dnil. now rewrite dapp_nil_l.
    + destruct (sel e); [auto | apply Uniform_ret].
Qed.

Lemma Uniform_onDoc (sel : Element -> bool) (step : Element -> M Element) (d : Document) :
  (forall e, Uniform (step e)) -> Uniform (onDoc sel step d).
Proof.
  intros Hs. unfold onDoc. apply Uniform_bind; [now apply Uniform_forEls|].
  intros h. apply Uniform_bind; [now apply Uniform_forEls|].
  intros b. apply Uniform_ret.
Qed.

Lemma resultOf_onDoc (sel : Element -> bool) (step : Element -> M Element) (d : Document) :
  (forall e, Uniform (step e)) ->
  resultOf (onDoc sel step d) = mapDoc (onSel sel (fun e => resultOf (step e))) d.
Proof.
  intros Hs. unfold onDoc, mapDoc.
  rewrite resultOf_bind; [| now apply Uniform_forEls |].
  - rewrite resultOf_bind; [| now apply Uniform_forEls | intros; apply Uniform_ret].
    now rewrite !resultOf_forEls.
  - intros h. apply Uniform_bind; [now apply Uniform_forEls|]. intros; apply Uniform_ret.
Qed.

Lemma deltaOf_onDoc (sel : Element -> bool) (step : Element -> M Element) (d : Document) :
  (forall e, Uniform (step e)) ->
  deltaOf (onDoc sel step d) =
  dconcat (map (fun e => deltaOf (step e)) (filter sel (elements d))).
Proof.
  intros Hs. unfold onDoc, elements.
  rewrite deltaOf_bind; [| now apply Uniform_forEls |].
  - rewrite deltaOf_bind; [| now apply Uniform_forEls | intros; apply Uniform_ret].
    change (deltaOf (ret _)) with dnil. rewrite dapp_nil_r.
    now rewrite !deltaOf_forEls, filter_app, map_app, dconcat_app.
  - intros h. apply Uniform_bind; [now apply Uniform_forEls|]. intros; apply Uniform_ret.
Qed.

(** ** Attributes and selectors *)

Lemma lookupAttr_putAttr_other (n m v : string) (l : list (string * string)) :
  String.eqb m n = false -> lookupAttr n (putAttr m v l) = lookupAttr n l.
Proof.
  intros Hmn. induction l as [|[k x] l IH]; simpl.
  - now rewrite Hmn.
  - destruct (String.eqb k m) eqn:E; simpl.
    + apply String.eqb_eq in E; subst. now rewrite Hmn.
    + destruct (String.eqb k n); auto.
Qed.

Lemma lookupAttr_putAttr_same (n v : string) (l : list (string * string)) :
  lookupAttr n (putAttr n v l) = Some v.
Proof.
  induction l as [|[k x] l IH]; simpl.
  - now rewrite String.eqb_refl.
  - destruct (String.eqb k n) eqn:E; simpl; now rewrite E.
Qed.

Section Selectors.
Context {P : Platform}.

Lemma getAttribute_setAttribute (n v : string) (e : Element) :
  getAttribute n (setAttribute n v e) = Some v.
Proof. apply lookupAttr_putAttr_same. Qed.

Lemma getAttribute_setAttribute_other (n m v : string) (e : Element) :
  String.eqb m n = false -> getAttribute n (setAttribute m v e) = getAttribute n e.
Proof. apply lookupAttr_putAttr_other. Qed.

Lemma hasTag_setAttribute (t n v : string) (e : Element) :
  hasTag t (setAttribute n v e) = hasTag t e.
Proof. reflexivity. Qed.

Lemma relOf_setAttribute (n v : string) (e : Element) :
  String.eqb n "rel" = false -> relOf (setAttribute n v e) = relOf e.
Proof. intros H. unfold relOf. now rewrite getAttribute_setAttribute_other. Qed.

Lemma hasTag_excl (t t' : string) (e : Element) :
  String.eqb t t' = false -> hasTag t e = true -> hasTag t' e = false.
Proof.
  unfold hasTag. intros Htt H. apply String.eqb_eq in H. now rewrite H.
Qed.

(** The selectors look at the tag, at [rel], [as] and the presence of
    [src]: writing [href] changes none of them. *)
Lemma isStylesheetLink_href (v : string) (e : Element) :
  isStylesheetLink (setAttribute "href" v e) = isStylesheetLink e.
Proof. unfold isStylesheetLink. now rewrite hasTag_setAttribute, relOf_setAttribute. Qed.

Lemma isIconLink_href (v : string) (e : Element) :
  isIconLink (setAttribute "href" v e) = isIconLink e.
Proof. unfold isIconLink. now rewrite hasTag_setAttribute, relOf_setAttribute. Qed.

Lemma isPreloadFont_href (v : string) (e : Element) :
  isPreloadFont (setAttribute "href" v e) = isPreloadFont e.
Proof.
  unfold isPreloadFont.
  now rewrite hasTag_setAttribute, relOf_setAttribute, getAttribute_setAttribute_other.
Qed.

Lemma isSrcScript_href (v : string) (e : Element) :
  isSrcScript (setAttribute "href" v e) = isSrcScript e.
Proof.
  unfold isSrcScript. now rewrite hasTag_setAttribute, getAttribute_setAttribute_other.
Qed.

Lemma isIconLink_src (v : string) (e : Element) :
  isIconLink (setAttribute "src" v e) = isIconLink e.
Proof. unfold isIconLink. now rewrite hasTag_setAttribute, relOf_setAttribute. Qed.

Lemma isPreloadFont_src (v : string) (e : Element) :
  isPreloadFont (setAttribute "src" v e) = isPreloadFont e.
Proof.
  unfold isPreloadFont.
  now rewrite hasTag_setAttribute, relOf_setAttribute, getAttribute_setAttribute_other.
Qed.

Lemma isSrcScript_src (v : string) (e : Element) :
  isSrcScript (setAttribute "src" v e) = hasTag "script" e.
Proof.
  unfold isSrcScript. rewrite hasTag_setAttribute, getAttribute_setAttribute.
  apply andb_true_r.
Qed.

(** No element is selected by two of the five queries. *)
Lemma stylesheet_rel (e : Element) :
  isStylesheetLink e = true -> hasTag "link" e = true /\ relOf e = Some "stylesheet".
Proof.
  unfold isStylesheetLink. intros H. apply andb_true_iff in H as [Ht Hr].
  split; [assumption|]. destruct (relOf e) as [r|]; [|discriminate].
  apply String.eqb_eq in Hr. now subst.
Qed.

Lemma preload_rel (e : Element) :
  isPreloadFont e = true -> hasTag "link" e = true /\ relOf e = Some "preload".
Proof.
  unfold isPreloadFont. intros H. apply andb_true_iff in H as [H _].
  apply andb_true_iff in H as [Ht Hr].
  split; [assumption|]. destruct (relOf e) as [r|]; [|discriminate].
  apply String.eqb_eq in Hr. now subst.
Qed.

Lemma stylesheet_not_script (e : Element) : isStylesheetLink e = true -> isSrcScript e = false.
Proof.
  intros H. apply stylesheet_rel in H as [Ht _]. unfold isSrcScript.
  now rewrite (hasTag_excl "link" "script" e).
Qed.

Lemma stylesheet_not_img (e : Element) : isStylesheetLink e = true -> isImg e = false.
Proof.
  intros H. apply stylesheet_rel in H as [Ht _]. unfold isImg.
  now rewrite (hasTag_excl "link" "img" e).
Qed.

Lemma stylesheet_not_icon (e : Element) : isStylesheetLink e = true -> isIconLink e = false.
Proof.
  intros H. apply stylesheet_rel in H as [Ht Hr]. unfold isIconLink.
  now rewrite Ht, Hr.
Qed.

Lemma stylesheet_not_preload (e : Element) :
  isStylesheetLink e = true -> isPreloadFont e = false.
Proof.
  intros H. apply stylesheet_rel in H as [Ht Hr]. unfold isPreloadFont.
  now rewrite Ht, Hr.
Qed.

Lemma script_tag (e : Element) : isSrcScript e = true -> hasTag "script" e = true.
Proof. unfold isSrcScript. intros H. now apply andb_true_iff in H as [Ht _]. Qed.

Lemma script_not_stylesheet (e : Element) : isSrcScript e = true -> isStylesheetLink e = false.
Proof.
  intros H. destruct (isStylesheetLink e) eqn:E; [|reflexivity].
  apply stylesheet_not_script in E. congruence.
Qed.

Lemma script_not_img (e : Element) : isSrcScript e = true -> isImg e = false.
Proof. intros H. apply script_tag in H. unfold isImg. now rewrite (hasTag_excl "script" "img" e). Qed.

Lemma script_not_icon (e : Element) : isSrcScript e = true -> isIconLink e = false.
Proof.
  intros H. apply script_tag in H. unfold isIconLink.
  now rewrite (hasTag_excl "script" "link" e).
Qed.

Lemma script_not_preload (e : Element) : isSrcScript e = true -> isPreloadFont e = false.
Proof.
  intros H. apply script_tag in H. unfold isPreloadFont.
  now rewrite (hasTag_excl "script" "link" e).
Qed.

Lemma img_not_script (e : Element) : isImg e = true -> hasTag "script" e = false.
Proof. intros H. now apply (hasTag_excl "img" "script" e). Qed.

Lemma img_not_stylesheet (e : Element) : isImg e = true -> isStylesheetLink e = false.
Proof.
  intros H. unfold isStylesheetLink. now rewrite (hasTag_excl "img" "link" e).
Qed.

Lemma img_not_icon (e : Element) : isImg e = true -> isIconLink e = false.
Proof. intros H. unfold isIconLink. now rewrite (hasTag_excl "img" "link" e). Qed.

Lemma img_not_preload (e : Element) : isImg e = true -> isPreloadFont e = false.
Proof. intros H. unfold isPreloadFont. now rewrite (hasTag_excl "img" "link" e). Qed.

Lemma preload_not_icon (e : Element) : isPreloadFont e = true -> isIconLink e = false.
Proof.
  intros H. apply preload_rel in H as [Ht Hr]. unfold isIconLink. now rewrite Ht, Hr.
Qed.

Lemma icon_not_preload (e : Element) : isIconLink e = true -> isPreloadFont e = false.
Proof.
  intros H. destruct (isPreloadFont e) eqn:E; [|reflexivity].
  apply preload_not_icon in E. congruence.
Qed.

Lemma icon_not_stylesheet (e : Element) : isIconLink e = true -> isStylesheetLink e = false.
Proof.
  intros H. destruct (isStylesheetLink e) eqn:E; [|reflexivity].
  apply stylesheet_not_icon in E. congruence.
Qed.

Lemma icon_not_script (e : Element) : isIconLink e = true -> isSrcScript e = false.
Proof.
  intros H. destruct (isSrcScript e) eqn:E; [|reflexivity].
  apply script_not_icon in E. congruence.
Qed.

Lemma icon_not_img (e : Element) : isIconLink e = true -> isImg e = false.
Proof.
  intros H. destruct (isImg e) eqn:E; [|reflexivity].
  apply img_not_icon in E. congruence.
Qed.

End Selectors.

(** ** Lists of elements under rewriting *)

Lemma filter_map_apart (sel : Element -> bool) (g : Element -> Element) (l : list Element) :
  Apart sel g -> filter sel (map g l) = filter sel l.
Proof.
  intros H. induction l as [|e l IH]; simpl; [reflexivity|].
  destruct (H e) as [Hs Hf]. rewrite Hs, IH.
  destruct (sel e); [now rewrite Hf | reflexivity].
Qed.

Lemma find_map_apart (sel : Element -> bool) (g : Element -> Element) (l : list Element) :
  Apart sel g -> find sel (map g l) = find sel l.
Proof.
  intros H. induction l as [|e l IH]; simpl; [reflexivity|].
  destruct (H e) as [Hs Hf]. rewrite Hs, IH.
  destruct (sel e); [now rewrite Hf | reflexivity].
Qed.

Lemma existsb_map_apart (sel : Element -> bool) (g : Element -> Element) (l : list Element) :
  Apart sel g -> existsb sel (map g l) = existsb sel l.
Proof.
  intros H. induction l as [|e l IH]; simpl; [reflexivity|].
  destruct (H e) as [Hs _]. now rewrite Hs, IH.
Qed.

Lemma Apart_onSel (sel sel' : Element -> bool) (f : Element -> Element) :
  (forall e, sel' e = true -> sel e = false /\ sel (f e) = false) ->
  Apart sel (onSel sel' f).
Proof.
  intros H e. unfold onSel. destruct (sel' e) eqn:E; [|auto].
  destruct (H e E) as [H1 H2]. rewrite H1, H2. split; [reflexivity|discriminate].
Qed.

Lemma elements_mapDoc (g : Element -> Element) (d : Document) :
  elements (mapDoc g d) = map g (elements d).
Proof. unfold elements, mapDoc; simpl. now rewrite map_app. Qed.

Lemma mapDoc_mapDoc (g h : Element -> Element) (d : Document) :
  mapDoc g (mapDoc h d) = mapDoc (fun e => g (h e)) d.
Proof. unfold mapDoc; simpl. now rewrite !map_map. Qed.

Lemma mapDoc_ext (g h : Element -> Element) (d : Document) :
  (forall e, g e = h e) -> mapDoc g d = mapDoc h d.
Proof. intros H. unfold mapDoc. f_equal; now apply map_ext. Qed.

Lemma querySelector_mapDoc (sel : Element -> bool) (g : Element -> Element) (d : Document) :
  Apart sel g -> querySelector sel (mapDoc g d) = querySelector sel d.
Proof.
  intros H. unfold querySelector. fold (elements (mapDoc g d)). fold (elements d).
  rewrite elements_mapDoc. now apply find_map_apart.
Qed.

(** [mapFirst] only touches the first selected element. *)
Lemma mapFirst_ext (sel : Element -> bool) (f f' : Element -> Element) (l : list Element) :
  (forall e, find sel l = Some e -> f e = f' e) -> mapFirst sel f l = mapFirst sel f' l.
Proof.
  induction l as [|e l IH]; simpl; intros H; [reflexivity|].
  destruct (sel e); [now rewrite H | now rewrite IH].
Qed.

Lemma mapFirst_id (sel : Element -> bool) (l : list Element) :
  mapFirst sel (fun e => e) l = l.
Proof.
  induction l as [|e l IH]; simpl; [reflexivity|].
  destruct (sel e); [reflexivity | now rewrite IH].
Qed.

Lemma mapFirst_none (sel : Element -> bool) (f : Element -> Element) (l : list Element) :
  existsb sel l = false -> mapFirst sel f l = l.
Proof.
  induction l as [|e l IH]; simpl; intros H; [reflexivity|].
  apply orb_false_iff in H as [He Hl]. now rewrite He, IH.
Qed.

Lemma find_app_existsb (sel : Element -> bool) (h b : list Element) :
  find sel (h ++ b) = if existsb sel h then find sel h else find sel b.
Proof.
  induction h as [|e h IH]; simpl; [reflexivity|].
  destruct (sel e); [reflexivity | exact IH].
Qed.

Lemma find_none_existsb (sel : Element -> bool) (l : list Element) :
  find sel l = None -> existsb sel l = false.
Proof.
  induction l as [|e l IH]; simpl; [reflexivity|].
  destruct (sel e); [discriminate | exact IH].
Qed.

Lemma updateFirst_ext (sel : Element -> bool) (f f' : Element -> Element) (d : Document) :
  (forall e, querySelector sel d = Some e -> f e = f' e) ->
  updateFirst sel f d = updateFirst sel f' d.
Proof.
  unfold querySelector, updateFirst. rewrite find_app_existsb.
  destruct (existsb sel (head d)); intros H; f_equal; now apply mapFirst_ext.
Qed.

Lemma updateFirst_id (sel : Element -> bool) (d : Document) :
  updateFirst sel (fun e => e) d = d.
Proof.
  unfold updateFirst. destruct (existsb sel (head d)); rewrite mapFirst_id; now destruct d.
Qed.

Lemma updateFirst_none (sel : Element -> bool) (f : Element -> Element) (d : Document) :
  querySelector sel d = None -> updateFirst sel f d = d.
Proof.
  intros H. rewrite (updateFirst_ext sel f (fun e => e)); [apply updateFirst_id|].
  intros e He. congruence.
Qed.

(** A rewriting of elements the selector does not match passes through
    [mapFirst]. *)
Lemma map_mapFirst (sel : Element -> bool) (f g : Element -> Element) (l : list Element) :
  Apart sel g -> (forall e, sel e = true -> g (f e) = f e) ->
  map g (mapFirst sel f l) = mapFirst sel f (map g l).
Proof.
  intros Ha Hf. induction l as [|e l IH]; simpl; [reflexivity|].
  destruct (Ha e) as [Hs Hfix]. rewrite Hs.
  destruct (sel e) eqn:E; simpl.
  - now rewrite Hf, Hfix.
  - now rewrite IH.
Qed.

Lemma mapDoc_updateFirst (sel : Element -> bool) (f g : Element -> Element) (d : Document) :
  Apart sel g -> (forall e, sel e = true -> g (f e) = f e) ->
  mapDoc g (updateFirst sel f d) = updateFirst sel f (mapDoc g d).
Proof.
  intros Ha Hf. unfold updateFirst, mapDoc; simpl.
  rewrite existsb_map_apart by assumption.
  destruct (existsb sel (head d)); simpl; f_equal; now apply map_mapFirst.
Qed.

(** The elements another selector matches are the same after
    [mapFirst]. *)
Lemma filter_mapFirst (sel sel' : Element -> bool) (f : Element -> Element) (l : list Element) :
  (forall e, sel' e = true -> sel e = false /\ sel (f e) = false) ->
  filter sel (mapFirst sel' f l) = filter sel l.
Proof.
  intros H. induction l as [|e l IH]; simpl; [reflexivity|].
  destruct (sel' e) eqn:E; simpl.
  - destruct (H e E) as [H1 H2]. now rewrite H1, H2.
  - now rewrite IH.
Qed.

Lemma filter_updateFirst (sel sel' : Element -> bool) (f : Element -> Element) (d : Document) :
  (forall e, sel' e = true -> sel e = false /\ sel (f e) = false) ->
  filter sel (elements (updateFirst sel' f d)) = filter sel (elements d).
Proof.
  intros H. unfold updateFirst, elements.
  destruct (existsb sel' (head d)); simpl; rewrite !filter_app; f_equal;
    now apply filter_mapFirst.
Qed.

(** ** The steps of the run *)

Lemma orElse_empty (s : string) : JS.orElse s EmptyString = s.
Proof. now destruct s. Qed.

Section Steps.
Context {P : Platform} {N : Network}.

Lemma Uniform_fetchText (url : string) : Uniform (fetchText url).
Proof.
  intros [z [a b c d e f g h] k]. unfold fetchText, resultOf, deltaOf, extend, extendMeta.
  simpl. now rewrite !app_nil_r.
Qed.

Lemma Uniform_fetchBlob (url : string) : Uniform (fetchBlob url).
Proof.
  intros [z [a b c d e f g h] k]. unfold fetchBlob, resultOf, deltaOf, extend, extendMeta.
  simpl. now rewrite !app_nil_r.
Qed.

End Steps.

(** Uniformity is proved by following the structure of a computation; the
    database holds the lemmas of the computations already treated. *)
Create HintDb uniform.

Ltac uniform :=
  repeat first
    [ solve [auto with uniform nocore] | apply Uniform_ret | apply Uniform_zipFile | apply Uniform_pushCss
    | apply Uniform_pushJs | apply Uniform_pushImage | apply Uniform_pushFont
    | apply Uniform_fetchText | apply Uniform_fetchBlob
    | apply Uniform_forEach | apply Uniform_onDoc | apply Uniform_when
    | apply Uniform_bind | assumption
    | match goal with
      | |- forall _, _ => intro
      | H : forall e, Uniform _ |- Uniform _ => apply H
      | |- Uniform (if ?b then _ else _) => destruct b
      | |- Uniform (match ?x with _ => _ end) => destruct x
      end ].

Ltac run_bind :=
  repeat first [ rewrite resultOf_bind by uniform | rewrite deltaOf_bind by uniform ].

Section StepFacts.
Context {P : Platform} {N : Network}.

Lemma Uniform_storeBlob dir push a b :
  (forall e, Uniform (push e)) -> Uniform (storeBlob dir push a b).
Proof. intros H. unfold storeBlob. uniform. Qed.

Lemma Uniform_cssAsset (r u : string) : Uniform (cssAsset r u).
Proof. unfold cssAsset, storeBlob. uniform. Qed.

Lemma Uniform_inlineCssAsset (url u : string) : Uniform (inlineCssAsset url u).
Proof. unfold inlineCssAsset, storeBlob. uniform. Qed.

#[local] Hint Resolve Uniform_cssAsset Uniform_inlineCssAsset : uniform.

Lemma Uniform_cssStep (url : string) (e : Element) : Uniform (cssStep url e).
Proof. unfold cssStep. uniform. Qed.

Lemma Uniform_jsStep (url : string) (e : Element) : Uniform (jsStep url e).
Proof. unfold jsStep. uniform. Qed.

Lemma Uniform_imgStep (url : string) (e : Element) : Uniform (imgStep url e).
Proof. unfold imgStep. uniform. Qed.

Lemma Uniform_preloadStep (url : string) (e : Element) : Uniform (preloadStep url e).
Proof. unfold preloadStep. uniform. Qed.

Lemma Uniform_iconPhase (url : string) (d : Document) : Uniform (iconPhase url d).
Proof. unfold iconPhase. uniform. Qed.

Lemma Uniform_addCombined (doc0 d : Document) : Uniform (addCombined doc0 d).
Proof. unfold addCombined. uniform. Qed.

#[local] Hint Resolve Uniform_cssStep Uniform_jsStep Uniform_imgStep
  Uniform_preloadStep Uniform_iconPhase Uniform_addCombined : uniform.

Lemma Uniform_download (url : string) (doc0 d : Document) : Uniform (download url doc0 d).
Proof. unfold download. uniform. Qed.

#[local] Hint Resolve Uniform_download : uniform.

(** What each loop body returns. *)
Lemma resultOf_cssStep (url : string) (e : Element) :
  resultOf (cssStep url e) = cssRewrite url e.
Proof.
  unfold cssStep. now run_bind.
Qed.

Lemma resultOf_jsStep (url : string) (e : Element) :
  resultOf (jsStep url e) = jsRewrite url e.
Proof. reflexivity. Qed.

Lemma resultOf_imgStep (url : string) (e : Element) :
  resultOf (imgStep url e) = imgRewrite url e.
Proof.
  unfold imgRewrite, fetched, pageRef, imgStep, resultOf, bind, fetchBlob. simpl.
  now destruct (netBlob _).
Qed.

Lemma resultOf_preloadStep (url : string) (e : Element) :
  resultOf (preloadStep url e) = preloadRewrite url e.
Proof.
  unfold preloadRewrite, fetched, pageRef, preloadStep, resultOf, bind, fetchBlob. simpl.
  now destruct (netBlob _).
Qed.

Lemma resultOf_iconPhase (url : string) (d : Document) :
  resultOf (iconPhase url d) = updateFirst isIconLink (iconRewrite url) d.
Proof.
  unfold iconPhase. destruct (querySelector isIconLink d) as [l|] eqn:Eq.
  - unfold resultOf, bind, fetchBlob. simpl.
    destruct (netBlob (resolveUrl url (attrOrProp "href" l))) eqn:Eb; simpl.
    + apply updateFirst_ext. intros e He. rewrite Eq in He. inversion He; subst.
      unfold iconRewrite, fetched, pageRef, iconName, pageRef. now rewrite Eb.
    + rewrite (updateFirst_ext isIconLink (iconRewrite url) (fun e => e));
        [now rewrite updateFirst_id|].
      intros e He. rewrite Eq in He. inversion He; subst.
      unfold iconRewrite, fetched, pageRef. now rewrite Eb.
  - rewrite updateFirst_none by assumption.
    unfold resultOf, bind, fetchBlob. simpl. now destruct (netBlob _).
Qed.

Lemma resultOf_addCombined (doc0 : Document) :
  resultOf (addCombined doc0 (stripInline doc0)) = prepared doc0.
Proof.
  unfold addCombined, prepared, resultOf, bind.
  destruct (JS.truthy (JS.trim (combinedCSS doc0)));
    destruct (JS.truthy (JS.trim (combinedJS doc0))); reflexivity.
Qed.

End StepFacts.

#[local] Hint Resolve Uniform_cssAsset Uniform_inlineCssAsset Uniform_cssStep
  Uniform_jsStep Uniform_imgStep Uniform_preloadStep Uniform_iconPhase
  Uniform_addCombined Uniform_download : uniform.

(** ** The phases on the document *)

Section Phases.
Context {P : Platform} {N : Network}.
Variable url : string.

Lemma onSel_ext (sel : Element -> bool) (f f' : Element -> Element) (e : Element) :
  (forall x, f x = f' x) -> onSel sel f e = onSel sel f' e.
Proof. intros H. unfold onSel. now rewrite H. Qed.

Lemma resultOf_cssPhase (d : Document) :
  resultOf (onDoc isStylesheetLink (cssStep url) d)
  = mapDoc (onSel isStylesheetLink (cssRewrite url)) d.
Proof.
  rewrite resultOf_onDoc by uniform. apply mapDoc_ext. intros e.
  apply onSel_ext. apply resultOf_cssStep.
Qed.

Lemma resultOf_jsPhase (d : Document) :
  resultOf (onDoc isSrcScript (jsStep url) d) = mapDoc (onSel isSrcScript (jsRewrite url)) d.
Proof. now rewrite resultOf_onDoc by uniform. Qed.

Lemma resultOf_imgPhase (d : Document) :
  resultOf (onDoc isImg (imgStep url) d) = mapDoc (onSel isImg (imgRewrite url)) d.
Proof.
  rewrite resultOf_onDoc by uniform. apply mapDoc_ext. intros e.
  apply onSel_ext. apply resultOf_imgStep.
Qed.

Lemma resultOf_preloadPhase (d : Document) :
  resultOf (onDoc isPreloadFont (preloadStep url) d)
  = mapDoc (onSel isPreloadFont (preloadRewrite url)) d.
Proof.
  rewrite resultOf_onDoc by uniform. apply mapDoc_ext. intros e.
  apply onSel_ext. apply resultOf_preloadStep.
Qed.

(** Each loop leaves alone the elements of the queries that follow it. *)
Lemma css_apart_script : Apart isSrcScript (onSel isStylesheetLink (cssRewrite url)).
Proof.
  apply Apart_onSel. intros e H. unfold cssRewrite. rewrite isSrcScript_href.
  split; now apply stylesheet_not_script.
Qed.

Lemma css_apart_img : Apart isImg (onSel isStylesheetLink (cssRewrite url)).
Proof.
  apply Apart_onSel. intros e H. split; [now apply stylesheet_not_img|].
  unfold cssRewrite, isImg. rewrite hasTag_setAttribute. now apply stylesheet_not_img.
Qed.

Lemma css_apart_icon : Apart isIconLink (onSel isStylesheetLink (cssRewrite url)).
Proof.
  apply Apart_onSel. intros e H. unfold cssRewrite. rewrite isIconLink_href.
  split; now apply stylesheet_not_icon.
Qed.

Lemma css_apart_preload : Apart isPreloadFont (onSel isStylesheetLink (cssRewrite url)).
Proof.
  apply Apart_onSel. intros e H. unfold cssRewrite. rewrite isPreloadFont_href.
  split; now apply stylesheet_not_preload.
Qed.

Lemma js_apart_img : Apart isImg (onSel isSrcScript (jsRewrite url)).
Proof.
  apply Apart_onSel. intros e H. split; [now apply script_not_img|].
  unfold jsRewrite, isImg. rewrite hasTag_setAttribute. now apply script_not_img.
Qed.

Lemma js_apart_icon : Apart isIconLink (onSel isSrcScript (jsRewrite url)).
Proof.
  apply Apart_onSel. intros e H. unfold jsRewrite. rewrite isIconLink_src.
  split; now apply script_not_icon.
Qed.

Lemma js_apart_preload : Apart isPreloadFont (onSel isSrcScript (jsRewrite url)).
Proof.
  apply Apart_onSel. intros e H. unfold jsRewrite. rewrite isPreloadFont_src.
  split; now apply script_not_preload.
Qed.

Lemma img_apart_icon : Apart isIconLink (onSel isImg (imgRewrite url)).
Proof.
  apply Apart_onSel. intros e H. split; [now apply img_not_icon|].
  unfold imgRewrite. destruct (fetched _); [rewrite isIconLink_src|]; now apply img_not_icon.
Qed.

Lemma img_apart_preload : Apart isPreloadFont (onSel isImg (imgRewrite url)).
Proof.
  apply Apart_onSel. intros e H. split; [now apply img_not_preload|].
  unfold imgRewrite.
  destruct (fetched _); [rewrite isPreloadFont_src|]; now apply img_not_preload.
Qed.

Lemma preload_apart_icon : Apart isIconLink (onSel isPreloadFont (preloadRewrite url)).
Proof.
  apply Apart_onSel. intros e H. split; [now apply preload_not_icon|].
  unfold preloadRewrite.
  destruct (fetched _); [rewrite isIconLink_href|]; now apply preload_not_icon.
Qed.

Lemma icon_preload_untouched (e : Element) :
  isIconLink e = true -> isPreloadFont e = false /\ isPreloadFont (iconRewrite url e) = false.
Proof.
  intros H. split; [now apply icon_not_preload|].
  unfold iconRewrite.
  destruct (fetched _); [rewrite isPreloadFont_href|]; now apply icon_not_preload.
Qed.

Lemma scripts_after_css (d : Document) :
  filter isSrcScript (elements (mapDoc (onSel isStylesheetLink (cssRewrite url)) d))
  = filter isSrcScript (elements d).
Proof. rewrite elements_mapDoc. apply filter_map_apart, css_apart_script. Qed.

Lemma images_after_js (d : Document) :
  filter isImg (elements (mapDoc (onSel isSrcScript (jsRewrite url))
                            (mapDoc (onSel isStylesheetLink (cssRewrite url)) d)))
  = filter isImg (elements d).
Proof.
  rewrite !elements_mapDoc.
  rewrite filter_map_apart by apply js_apart_img.
  apply filter_map_apart, css_apart_img.
Qed.

Lemma icon_after_images (d : Document) :
  querySelector isIconLink (afterImages url d) = querySelector isIconLink d.
Proof.
  unfold afterImages.
  rewrite querySelector_mapDoc by apply img_apart_icon.
  rewrite querySelector_mapDoc by apply js_apart_icon.
  apply querySelector_mapDoc, css_apart_icon.
Qed.

Lemma preloads_after_icon (d : Document) :
  filter isPreloadFont
    (elements (updateFirst isIconLink (iconRewrite url) (afterImages url d)))
  = filter isPreloadFont (elements d).
Proof.
  rewrite filter_updateFirst by apply icon_preload_untouched.
  unfold afterImages. rewrite !elements_mapDoc.
  rewrite filter_map_apart by apply img_apart_preload.
  rewrite filter_map_apart by apply js_apart_preload.
  apply filter_map_apart, css_apart_preload.
Qed.

(** The four loops over elements amount to one rewriting of each
    element. *)
Lemma rewriteEl_loops (e : Element) :
  onSel isPreloadFont (preloadRewrite url)
    (onSel isImg (imgRewrite url)
       (onSel isSrcScript (jsRewrite url)
          (onSel isStylesheetLink (cssRewrite url) e)))
  = rewriteEl url e.
Proof.
  unfold rewriteEl.
  destruct (css_apart_script e) as [A1 _]. destruct (css_apart_img e) as [A2 _].
  destruct (css_apart_preload e) as [A3 _].
  destruct (js_apart_img e) as [B1 _]. destruct (js_apart_preload e) as [B2 _].
  destruct (img_apart_preload e) as [C1 _].
  destruct (isStylesheetLink e) eqn:E1.
  - set (e1 := onSel isStylesheetLink (cssRewrite url) e) in *.
    assert (He1 : e1 = cssRewrite url e) by (unfold e1, onSel; now rewrite E1).
    pose proof (stylesheet_not_script e E1) as S1.
    pose proof (stylesheet_not_img e E1) as S2.
    pose proof (stylesheet_not_preload e E1) as S3.
    unfold onSel at 3. rewrite A1, S1.
    unfold onSel at 2. rewrite A2, S2.
    unfold onSel at 1. rewrite A3, S3. exact He1.
  - assert (He1 : onSel isStylesheetLink (cssRewrite url) e = e)
      by (unfold onSel; now rewrite E1).
    rewrite He1 in *. clear A1 A2 A3 He1.
    destruct (isSrcScript e) eqn:E2.
    + set (e2 := onSel isSrcScript (jsRewrite url) e) in *.
      assert (He2 : e2 = jsRewrite url e) by (unfold e2, onSel; now rewrite E2).
      pose proof (script_not_img e E2) as S2.
      pose proof (script_not_preload e E2) as S3.
      unfold onSel at 2. rewrite B1, S2.
      unfold onSel at 1. rewrite B2, S3. exact He2.
    + assert (He2 : onSel isSrcScript (jsRewrite url) e = e)
        by (unfold onSel; now rewrite E2).
      rewrite He2 in *. clear B1 B2 He2.
      destruct (isImg e) eqn:E3.
      * set (e3 := onSel isImg (imgRewrite url) e) in *.
        assert (He3 : e3 = imgRewrite url e) by (unfold e3, onSel; now rewrite E3).
        pose proof (img_not_preload e E3) as S3.
        unfold onSel at 1. rewrite C1, S3. exact He3.
      * assert (He3 : onSel isImg (imgRewrite url) e = e)
          by (unfold onSel; now rewrite E3).
        rewrite He3. reflexivity.
Qed.

(** The document the download phases return. *)
Lemma resultOf_download (doc0 d : Document) :
  resultOf (download url doc0 d) = rewriteDoc url d.
Proof.
  unfold download. run_bind.
  change (resultOf (ret ?x)) with x.
  rewrite resultOf_cssPhase, resultOf_jsPhase, resultOf_imgPhase.
  rewrite resultOf_iconPhase, resultOf_preloadPhase.
  fold (afterImages url d). unfold rewriteDoc.
  rewrite mapDoc_updateFirst.
  - f_equal. unfold afterImages. rewrite !mapDoc_mapDoc.
    apply mapDoc_ext, rewriteEl_loops.
  - apply preload_apart_icon.
  - intros e He. destruct (icon_preload_untouched e He) as [_ H].
    unfold onSel. now rewrite H.
Qed.

End Phases.

(** ** The calls of the phases *)

Section Calls.
Context {P : Platform} {N : Network}.
Variable url : string.

Lemma dCalls_cssAsset (r u : string) :
  dCalls (deltaOf (cssAsset r u))
  = if wantedBySheet (resolveUrl r u) then [FetchBlob (resolveUrl r u)] else [].
Proof.
  unfold cssAsset, wantedBySheet, deltaOf, bind, fetchBlob, storeBlob.
  destruct (isFontExt _); [now destruct (netBlob _)|].
  destruct (isImageExt _); [now destruct (netBlob _)|reflexivity].
Qed.

Lemma dCalls_inlineCssAsset (u : string) :
  dCalls (deltaOf (inlineCssAsset url u))
  = if wantedInline (resolveUrl url u) then [FetchBlob (resolveUrl url u)] else [].
Proof.
  unfold inlineCssAsset, wantedInline, deltaOf, bind, fetchBlob, storeBlob.
  destruct (isFontExt _); [now destruct (netBlob _)|reflexivity].
Qed.

Lemma dCalls_sheetLoop (r : string) (toks : list string) :
  dCalls (deltaOf (forEach (cssAsset r) toks))
  = map FetchBlob (filter wantedBySheet (map (resolveUrl r) toks)).
Proof.
  rewrite deltaOf_forEach by uniform. rewrite dCalls_dconcat.
  induction toks as [|u toks IH]; cbn [map concat filter]; [reflexivity|].
  rewrite dCalls_cssAsset, IH. now destruct (wantedBySheet _).
Qed.

Lemma dCalls_inlineLoop (toks : list string) :
  dCalls (deltaOf (forEach (inlineCssAsset url) toks))
  = map FetchBlob (filter wantedInline (map (resolveUrl url) toks)).
Proof.
  rewrite deltaOf_forEach by uniform. rewrite dCalls_dconcat.
  induction toks as [|u toks IH]; cbn [map concat filter]; [reflexivity|].
  rewrite dCalls_inlineCssAsset, IH. now destruct (wantedInline _).
Qed.

Lemma dCalls_cssStep (e : Element) : dCalls (deltaOf (cssStep url e)) = sheetCalls url e.
Proof.
  unfold cssStep. run_bind. cbn [dCalls dapp].
  rewrite dCalls_sheetLoop. rewrite orElse_empty.
  change (dCalls (deltaOf (ret ?x))) with (@nil Call).
  change (dCalls (deltaOf (zipFile ?p ?c))) with (@nil Call).
  change (dCalls (deltaOf (pushCss ?x))) with (@nil Call).
  rewrite app_nil_r. reflexivity.
Qed.

Lemma dCalls_jsStep (e : Element) :
  dCalls (deltaOf (jsStep url e)) = [FetchText (pageRef url "src" e)].
Proof. reflexivity. Qed.

Lemma dCalls_imgStep (e : Element) :
  dCalls (deltaOf (imgStep url e)) = [FetchBlob (pageRef url "src" e)].
Proof. unfold imgStep, deltaOf, bind, fetchBlob. simpl. now destruct (netBlob _). Qed.

Lemma dCalls_preloadStep (e : Element) :
  dCalls (deltaOf (preloadStep url e)) = [FetchBlob (pageRef url "href" e)].
Proof. unfold preloadStep, deltaOf, bind, fetchBlob. simpl. now destruct (netBlob _). Qed.

Lemma dCalls_iconPhase (d : Document) :
  dCalls (deltaOf (iconPhase url d)) = [FetchBlob (iconUrl url d)].
Proof.
  unfold iconPhase, iconUrl, deltaOf, bind, fetchBlob.
  destruct (querySelector isIconLink d); simpl; now destruct (netBlob _).
Qed.

Lemma dCalls_onDoc (sel : Element -> bool) (step : Element -> M Element) (d : Document) :
  (forall e, Uniform (step e)) ->
  dCalls (deltaOf (onDoc sel step d))
  = flat_map (fun e => dCalls (deltaOf (step e))) (filter sel (elements d)).
Proof.
  intros H. rewrite deltaOf_onDoc, dCalls_dconcat by assumption.
  now rewrite map_map, flat_map_concat_map.
Qed.

Lemma flat_map_singleton {A B} (f : A -> B) (l : list A) :
  flat_map (fun a => [f a]) l = map f l.
Proof. induction l as [|a l IH]; simpl; [reflexivity | now rewrite IH]. Qed.

Lemma dCalls_download (doc0 d : Document) :
  dCalls (deltaOf (download url doc0 d))
  = cssPhaseCalls url d ++ jsPhaseCalls url d ++ imgPhaseCalls url d ++
    [FetchBlob (iconUrl url d)] ++ preloadPhaseCalls url d ++ inlinePhaseCalls url doc0.
Proof.
  unfold download. run_bind. change (resultOf (ret ?x)) with x.
  rewrite resultOf_cssPhase, resultOf_jsPhase, resultOf_imgPhase, resultOf_iconPhase.
  fold (afterImages url d).
  cbn [dCalls dapp].
  rewrite !dCalls_onDoc by uniform. rewrite dCalls_iconPhase, dCalls_inlineLoop.
  rewrite scripts_after_css, images_after_js, preloads_after_icon.
  unfold iconUrl. rewrite icon_after_images. fold (iconUrl url d).
  rewrite orElse_empty.
  unfold cssPhaseCalls, jsPhaseCalls, imgPhaseCalls, preloadPhaseCalls, inlinePhaseCalls,
    inlineTokens.
  change (dCalls (deltaOf (ret tt))) with (@nil Call). rewrite app_nil_r.
  rewrite (flat_map_ext _ (sheetCalls url) dCalls_cssStep).
  rewrite (flat_map_ext _ (fun e => [FetchBlob (pageRef url "src" e)]) dCalls_imgStep).
  rewrite (flat_map_ext _ (fun e => [FetchBlob (pageRef url "href" e)]) dCalls_preloadStep).
  rewrite (flat_map_ext _ (fun e => [FetchText (pageRef url "src" e)]) dCalls_jsStep).
  now rewrite !flat_map_singleton.
Qed.

Lemma dCalls_addCombined (doc0 d : Document) :
  dCalls (deltaOf (addCombined doc0 d)) = [].
Proof.
  unfold addCombined, deltaOf, bind.
  destruct (JS.truthy (JS.trim (combinedCSS doc0)));
    destruct (JS.truthy (JS.trim (combinedJS doc0))); reflexivity.
Qed.

Lemma dCalls_bodyDelta (doc0 : Document) :
  dCalls (bodyDelta url doc0) = downloadCalls url doc0.
Proof.
  unfold bodyDelta. cbn [dCalls dapp]. now rewrite dCalls_addCombined, dCalls_download.
Qed.

End Calls.

(** ** The run in closed form *)

Section RunFacts.
Context {P : Platform} {N : Network}.

Lemma package_eq (url : string) (doc0 d : Document) (st : Run) :
  package url doc0 d st
  = (mkFinal d (finalHtmlOf d)
       match runHeuristicScan d url (meta st) with
       | Returned scan => Returned (scan, zipNameOf url)
       | Threw => Threw
       end,
     mkRun (zip st ++ packageWrites url doc0 d (meta st)) (meta st) (calls st)).
Proof.
  unfold package, packageWrites, auditWrites, bind, zipFile, when, getMeta, ret.
  destruct (JS.truthy (JS.trim (combinedCSS doc0)));
    destruct (JS.truthy (JS.trim (combinedJS doc0)));
    cbn [zip meta calls fst snd app];
    destruct (runHeuristicScan d url (meta st));
    cbn [zip meta calls fst snd app]; rewrite <- ?app_assoc, ?app_nil_r; reflexivity.
Qed.

Lemma mkFolders_eq (st : Run) :
  mkFolders st = (tt, mkRun (zip st ++ folderZip) (meta st) (calls st)).
Proof.
  unfold mkFolders, folderZip. cbn [forEach map]. unfold bind, zipFile, ret.
  cbn [zip meta calls]. rewrite <- !app_assoc. reflexivity.
Qed.

Lemma assemble_eq (url htmlText : string) (st : Run) :
  assemble url htmlText st
  = package url (parseFromString htmlText)
      (rewriteDoc url (prepared (parseFromString htmlText)))
      (extend (mkRun (zip st ++ folderZip) (startMeta (parseFromString htmlText)) (calls st))
              (bodyDelta url (parseFromString htmlText))).
Proof.
  unfold assemble. set (doc0 := parseFromString htmlText).
  unfold bind at 1. rewrite mkFolders_eq.
  unfold bind at 1. unfold setMeta at 1. cbn [zip meta calls].
  unfold bind at 1. rewrite (Uniform_addCombined doc0 (stripInline doc0)).
  rewrite resultOf_addCombined.
  unfold bind at 1. rewrite (Uniform_download url doc0 (prepared doc0)).
  rewrite resultOf_download, extend_dapp. reflexivity.
Qed.

(** A run that got no HTML stops after its first call. *)
Lemma runSite_failed (url : string) :
  JS.truthy (fetchTextResult url) = false ->
  runSite url emptyRun = (None, mkRun [] emptyMeta [FetchText url]).
Proof.
  intros H. unfold runSite, bind, fetchText. now rewrite H.
Qed.

(** A run that got its HTML goes through every phase. *)
Lemma runSite_ok (url : string) :
  JS.truthy (fetchTextResult url) = true ->
  runSite url emptyRun
  = (Some (finalOf url (pageDoc url)),
     mkRun (finalZip url (pageDoc url)) (finalMeta url (pageDoc url))
           (FetchText url :: downloadCalls url (pageDoc url))).
Proof.
  intros H. unfold runSite, bind at 1, fetchText. rewrite H. cbn [negb].
  unfold bind. rewrite assemble_eq, package_eq. fold (pageDoc url).
  unfold ret, finalOf, finalZip, finalMeta. cbn [zip meta calls extend emptyRun app].
  now rewrite (dCalls_bodyDelta url).
Qed.

Lemma fetchCalls_ok (url : string) :
  JS.truthy (fetchTextResult url) = true ->
  fetchCalls url = FetchText url :: downloadCalls url (pageDoc url).
Proof. intros H. unfold fetchCalls. now rewrite runSite_ok. Qed.

Lemma rewritten_ok (url : string) :
  JS.truthy (fetchTextResult url) = true ->
  rewritten url = Some (rewriteDoc url (prepared (pageDoc url))).
Proof. intros H. unfold rewritten. now rewrite runSite_ok. Qed.

End RunFacts.

(** ** Which URLs a run fetches *)

Section FetchedUrls.
Context {P : Platform} {N : Network}.

Lemma fetchCount_app (x : string) (a b : list Call) :
  fetchCount x (a ++ b) = fetchCount x a + fetchCount x b.
Proof. unfold fetchCount. now rewrite filter_app, length_app. Qed.

Lemma refCount_app (x : string) (a b : list AssetReference) :
  refCount x (a ++ b) = refCount x a + refCount x b.
Proof. unfold refCount. now rewrite filter_app, length_app. Qed.

Lemma fetchCount_cons (x : string) (c : Call) (l : list Call) :
  fetchCount x (c :: l) = (if String.eqb (callUrl c) x then 1 else 0) + fetchCount x l.
Proof. unfold fetchCount. simpl. now destruct (String.eqb (callUrl c) x). Qed.

Lemma refCount_cons (x : string) (r : AssetReference) (l : list AssetReference) :
  refCount x (r :: l) = (if String.eqb (originUrl r) x then 1 else 0) + refCount x l.
Proof. unfold refCount. simpl. now destruct (String.eqb (originUrl r) x). Qed.

Lemma filter_map_comm {A B} (p : B -> bool) (f : A -> B) (l : list A) :
  filter p (map f l) = map f (filter (fun a => p (f a)) l).
Proof.
  induction l as [|a l IH]; simpl; [reflexivity|].
  destruct (p (f a)); simpl; now rewrite IH.
Qed.

(** Calls and references built from the same URLs count alike. *)
Lemma count_map_same {A} (x : string) (c : A -> Call) (r : A -> AssetReference)
    (l : list A) :
  (forall a, callUrl (c a) = originUrl (r a)) ->
  fetchCount x (map c l) = refCount x (map r l).
Proof.
  intros H. unfold fetchCount, refCount. rewrite !filter_map_comm, !length_map.
  f_equal. apply filter_ext. intros a. now rewrite H.
Qed.

Lemma count_sheets (x url : string) (l : list Element) :
  fetchCount x (flat_map (sheetCalls url) l)
  = refCount x (map (fun el => mkRef (pageRef url "href" el) Stylesheet Html) l)
    + refCount x (flat_map (fun el =>
        map tokenRef (filter wantedBySheet (sheetTokens (pageRef url "href" el)))) l).
Proof.
  induction l as [|e l IH]; [reflexivity|].
  cbn [flat_map map]. rewrite fetchCount_app, refCount_app, refCount_cons, IH.
  unfold sheetCalls at 1. rewrite fetchCount_cons.
  rewrite (count_map_same x FetchBlob tokenRef) by reflexivity.
  cbn [callUrl originUrl]. lia.
Qed.

Lemma count_download (x url : string) (doc0 : Document) :
  fetchCount x (downloadCalls url doc0) = refCount x (discover url doc0).
Proof.
  unfold downloadCalls, discover, cssPhaseCalls, jsPhaseCalls, imgPhaseCalls,
    preloadPhaseCalls, inlinePhaseCalls.
  rewrite !fetchCount_app, !refCount_app, count_sheets.
  rewrite (count_map_same x (fun el => FetchText (pageRef url "src" el))
             (fun el => mkRef (pageRef url "src" el) Script Html)) by reflexivity.
  rewrite (count_map_same x (fun el => FetchBlob (pageRef url "src" el))
             (fun el => mkRef (pageRef url "src" el) Image Html)) by reflexivity.
  rewrite (count_map_same x (fun el => FetchBlob (pageRef url "href" el))
             (fun el => mkRef (pageRef url "href" el) Font Preload)) by reflexivity.
  rewrite (count_map_same x FetchBlob (fun a => mkRef a Font CssUrl)) by reflexivity.
  rewrite fetchCount_cons, refCount_cons. cbn [callUrl originUrl].
  change (fetchCount x []) with 0. change (refCount x []) with 0. lia.
Qed.

End FetchedUrls.

(** C1, as the specification states it, fails: the two images of the
    example page share one URL, and the run fetches that URL twice. *)
Lemma duplicate_reference_fetched_twice :
  @refCount "https://x.com/a.png"
     (@discover (examplePlatform twoImagesDoc) twoImagesNet examplePage twoImagesDoc) = 2 /\
  fetchCount "https://x.com/a.png"
     (@fetchCalls (examplePlatform twoImagesDoc) twoImagesNet examplePage) = 2 /\
  fetchCount "https://x.com/a.png"
     (@fetchCalls (examplePlatform twoImagesDoc) twoImagesNet examplePage) <> 1.
Proof. repeat split; try reflexivity. vm_compute. discriminate. Qed.

Lemma perm_flat_map_cons {A B} (f : A -> B) (g : A -> list B) (l : list A) :
  Permutation (flat_map (fun a => f a :: g a) l) (map f l ++ flat_map g l).
Proof.
  induction l as [|a l IH]; simpl; [constructor|]. apply perm_skip.
  apply Permutation_trans with (g a ++ map f l ++ flat_map g l).
  - now apply Permutation_app_head.
  - apply Permutation_app_swap_app.
Qed.

Lemma map_flat_map_comm {A B C} (h : B -> C) (g : A -> list B) (l : list A) :
  map h (flat_map g l) = flat_map (fun a => map h (g a)) l.
Proof.
  induction l as [|a l IH]; simpl; [reflexivity|]. now rewrite map_app, IH.
Qed.

Section OneCallPerReference.
Context {P : Platform} {N : Network}.

Lemma fetchOf_tokenRef (a : string) : fetchOf (tokenRef a) = FetchBlob a.
Proof. unfold tokenRef, fetchOf. cbn [kind originUrl]. now destruct (isFontExt _). Qed.

(** The calls of the download phases are the fetches of the references,
    in another order: the tokens of a sheet are fetched right after the
    sheet. *)
Lemma downloadCalls_discover (url : string) (doc0 : Document) :
  Permutation (downloadCalls url doc0) (map fetchOf (discover url doc0)).
Proof.
  assert (HT : forall L,
             map fetchOf
               (flat_map (fun el => map tokenRef
                            (filter wantedBySheet (sheetTokens (pageRef url "href" el)))) L)
             = flat_map (fun el => map FetchBlob
                           (filter wantedBySheet (sheetTokens (pageRef url "href" el)))) L).
  { intros L. rewrite map_flat_map_comm. apply flat_map_ext. intros el.
    rewrite map_map. apply map_ext. intros a. apply fetchOf_tokenRef. }
  unfold downloadCalls, discover, cssPhaseCalls, jsPhaseCalls, imgPhaseCalls,
    preloadPhaseCalls, inlinePhaseCalls, sheetCalls.
  rewrite !map_app, HT, !map_map. cbn [map fetchOf kind originUrl].
  set (L := filter isStylesheetLink (elements (prepared doc0))).
  set (J := map _ (filter isSrcScript _)).
  set (I := map _ (filter isImg _)).
  set (F := map _ (filter isPreloadFont _)).
  set (C := [FetchBlob _]).
  set (T := map _ (filter wantedInline _)).
  set (K := flat_map (fun el => map FetchBlob _) L).
  apply Permutation_trans
    with ((map (fun el => FetchText (pageRef url "href" el)) L ++ K) ++ J ++ I ++ C ++ F ++ T).
  - apply Permutation_app_tail. apply perm_flat_map_cons.
  - rewrite <- !app_assoc. apply Permutation_app_head.
    rewrite (app_assoc J), (app_assoc (J ++ I)), (app_assoc ((J ++ I) ++ C)).
    rewrite (app_assoc J I (C ++ F ++ K ++ T)), (app_assoc (J ++ I) C),
      (app_assoc ((J ++ I) ++ C) F).
    apply Permutation_app_swap_app.
Qed.

End OneCallPerReference.

(** C1, amended.  A run that got its HTML calls a fetch wrapper once for
    the page and once for each reference it walks through, [fetchText] for a
    style sheet or a script and [fetchBlob] for anything else: the calls are
    the fetches of the references, in another order, and nothing is left out
    or merged.  So the number of calls made on a URL is the number of
    references that resolve to it, plus the fetch of the page when the URL
    is the page's: a URL referenced [n] times is fetched [n] times. *)
Theorem fetch_once_per_reference {P : Platform} {N : Network} (url : string) :
  JS.truthy (fetchTextResult url) = true ->
  Permutation (fetchCalls url) (FetchText url :: map fetchOf (discover url (pageDoc url))) /\
  forall x,
    fetchCount x (fetchCalls url)
    = (if String.eqb url x then 1 else 0) + refCount x (discover url (pageDoc url)).
Proof.
  intros H. rewrite fetchCalls_ok by assumption. split.
  - apply perm_skip, downloadCalls_discover.
  - intros x. now rewrite fetchCount_cons, count_download.
Qed.

Lemma fetch_once_per_reference_witness :
  fetchCount "https://x.com/a.png"
    (@fetchCalls (examplePlatform twoImagesDoc) twoImagesNet examplePage)
  = 0 + @refCount "https://x.com/a.png"
          (@discover (examplePlatform twoImagesDoc) twoImagesNet examplePage twoImagesDoc).
Proof.
  exact (proj2 (@fetch_once_per_reference (examplePlatform twoImagesDoc) twoImagesNet
                  examplePage eq_refl) "https://x.com/a.png").
Defined.

(** C7.  In a run that got its HTML, every fetch of a style sheet, a
    script, an image, the icon or a font preload is made on the attribute of
    its element resolved against the URL of the page, and every fetch made
    for a [url()] token of a fetched style sheet is made on the token
    resolved against the URL of that sheet.  (The tokens of the inline CSS
    are resolved against the URL of the page.) *)
Theorem references_resolved_against_their_base {P : Platform} {N : Network} (url : string) :
  JS.truthy (fetchTextResult url) = true ->
  let d := prepared (pageDoc url) in
  fetchCalls url =
    FetchText url ::
    flat_map
      (fun el =>
         let sheet := resolveUrl url (attrOrProp "href" el) in
         FetchText sheet ::
         map FetchBlob
           (filter wantedBySheet
              (map (resolveUrl sheet) (extractUrlsFromCss (fetchTextResult sheet)))))
      (filter isStylesheetLink (elements d)) ++
    map (fun el => FetchText (resolveUrl url (attrOrProp "src" el)))
      (filter isSrcScript (elements d)) ++
    map (fun el => FetchBlob (resolveUrl url (attrOrProp "src" el)))
      (filter isImg (elements d)) ++
    [FetchBlob
       match querySelector isIconLink d with
       | Some l => resolveUrl url (attrOrProp "href" l)
       | None => resolveUrl url "/favicon.ico"
       end] ++
    map (fun el => FetchBlob (resolveUrl url (attrOrProp "href" el)))
      (filter isPreloadFont (elements d)) ++
    map FetchBlob
      (filter wantedInline
         (map (resolveUrl url) (extractUrlsFromCss (combinedCSS (pageDoc url))))).
Proof. intros H d. now rewrite fetchCalls_ok. Qed.

Lemma references_resolved_against_their_base_witness :
  @fetchCalls (examplePlatform styledDoc) styledNet examplePage =
    [FetchText "https://x.com/";
     FetchText "https://x.com/css/main.css";
     FetchBlob "https://x.com/fonts/t.woff";
     FetchBlob "https://x.com/css/p.gif";
     FetchText "https://x.com/css/inline-styles.css";
     FetchBlob "https://x.com/logo.png";
     FetchBlob "https://x.com/favicon.ico";
     FetchBlob "https://x.com/f.woff2"].
Proof.
  exact (@references_resolved_against_their_base (examplePlatform styledDoc) styledNet
           examplePage eq_refl).
Defined.

(** ** The rewritten document *)

Section Rewriting.
Context {P : Platform} {N : Network}.
Variable url : string.

Lemma rewriteEl_stylesheet (e : Element) :
  isStylesheetLink e = true ->
  getAttribute "href" (rewriteEl url e) = Some ("css/" ++ cssName url e)%string.
Proof.
  intros H. unfold rewriteEl, cssRewrite. rewrite H. apply getAttribute_setAttribute.
Qed.

Lemma rewriteEl_script (e : Element) :
  isSrcScript e = true ->
  getAttribute "src" (rewriteEl url e) = Some ("js/" ++ jsName url e)%string.
Proof.
  intros H. unfold rewriteEl, jsRewrite. rewrite (script_not_stylesheet e H), H.
  apply getAttribute_setAttribute.
Qed.

Lemma rewriteEl_img (e : Element) :
  isImg e = true ->
  rewriteEl url e = imgRewrite url e /\
  getAttribute "src" (rewriteEl url e)
  = if fetched (pageRef url "src" e)
    then Some ("images/" ++ fileNameFromUrl (pageRef url "src" e))%string
    else getAttribute "src" e.
Proof.
  intros H. unfold rewriteEl.
  rewrite (img_not_stylesheet e H).
  assert (isSrcScript e = false) as ->.
  { unfold isSrcScript. now rewrite (img_not_script e H). }
  rewrite H. split; [reflexivity|]. unfold imgRewrite.
  destruct (fetched _); [apply getAttribute_setAttribute | reflexivity].
Qed.

Lemma rewriteEl_preload (e : Element) :
  isPreloadFont e = true ->
  rewriteEl url e = preloadRewrite url e /\
  getAttribute "href" (rewriteEl url e)
  = if fetched (pageRef url "href" e)
    then Some ("fonts/" ++ fileNameFromUrl (pageRef url "href" e))%string
    else getAttribute "href" e.
Proof.
  intros H. unfold rewriteEl.
  assert (isStylesheetLink e = false) as ->.
  { destruct (isStylesheetLink e) eqn:E; [|reflexivity].
    apply stylesheet_not_preload in E. congruence. }
  assert (isSrcScript e = false) as ->.
  { destruct (isSrcScript e) eqn:E; [|reflexivity].
    apply script_not_preload in E. congruence. }
  assert (isImg e = false) as ->.
  { destruct (isImg e) eqn:E; [|reflexivity].
    apply img_not_preload in E. congruence. }
  rewrite H. split; [reflexivity|]. unfold preloadRewrite.
  destruct (fetched _); [apply getAttribute_setAttribute | reflexivity].
Qed.

Lemma iconRewrite_href (e : Element) :
  getAttribute "href" (iconRewrite url e)
  = if fetched (pageRef url "href" e) then Some (iconName url e)
    else getAttribute "href" e.
Proof.
  unfold iconRewrite. destruct (fetched _); [apply getAttribute_setAttribute | reflexivity].
Qed.

Lemma rewriteEl_other (e : Element) :
  isStylesheetLink e = false -> isSrcScript e = false -> isImg e = false ->
  isPreloadFont e = false -> rewriteEl url e = e.
Proof. intros H1 H2 H3 H4. unfold rewriteEl. now rewrite H1, H2, H3, H4. Qed.

End Rewriting.

(** C2, as the specification states it, fails: on the example page the
    fetches of the style sheet and of the script fail, and their attributes
    are local paths all the same; only the image keeps its URL. *)
Lemma failed_stylesheet_rewritten :
  @fetchTextResult brokenAssetsNet "https://cdn.x.com/a.css" = EmptyString /\
  @netText brokenAssetsNet "https://cdn.x.com/a.css" = None /\
  @netText brokenAssetsNet "https://cdn.x.com/app.js" = None /\
  @rewritten (examplePlatform brokenAssetsDoc) brokenAssetsNet examplePage =
    Some (mkDocument
      [mkElement "link" [("rel", "stylesheet"); ("href", "css/a.css")] EmptyString]
      [mkElement "script" [("src", "js/app.js")] EmptyString;
       mkElement "img" [("src", "https://cdn.x.com/logo.png")] EmptyString]).
Proof. repeat split; reflexivity. Qed.

(** ** What the token loops and the phases add *)

Section DeltaFacts.
Context {P : Platform} {N : Network}.

Lemma deltaOf_cssAsset (r u : string) :
  deltaOf (cssAsset r u) = sheetTokenDelta (resolveUrl r u).
Proof.
  unfold cssAsset, sheetTokenDelta, fontDelta, imageDelta, deltaOf, bind, fetchBlob, storeBlob.
  destruct (isFontExt _); [now destruct (netBlob _)|].
  destruct (isImageExt _); [now destruct (netBlob _)|reflexivity].
Qed.

Lemma deltaOf_inlineCssAsset (url u : string) :
  deltaOf (inlineCssAsset url u) = inlineTokenDelta (resolveUrl url u).
Proof.
  unfold inlineCssAsset, inlineTokenDelta, fontDelta, deltaOf, bind, fetchBlob, storeBlob.
  destruct (isFontExt _); [now destruct (netBlob _)|reflexivity].
Qed.

Lemma cssAsset_eq (r u : string) (st : Run) :
  cssAsset r u st = (tt, extend st (sheetTokenDelta (resolveUrl r u))).
Proof.
  rewrite (Uniform_cssAsset r u st), deltaOf_cssAsset.
  now destruct (resultOf (cssAsset r u)).
Qed.

Lemma inlineCssAsset_eq (url u : string) (st : Run) :
  inlineCssAsset url u st = (tt, extend st (inlineTokenDelta (resolveUrl url u))).
Proof.
  rewrite (Uniform_inlineCssAsset url u st), deltaOf_inlineCssAsset.
  now destruct (resultOf (inlineCssAsset url u)).
Qed.

Lemma deltaOf_sheetLoop (r : string) (toks : list string) :
  deltaOf (forEach (cssAsset r) toks)
  = dconcat (map sheetTokenDelta (map (resolveUrl r) toks)).
Proof.
  rewrite deltaOf_forEach by uniform. rewrite map_map. f_equal.
  apply map_ext. intros u. apply deltaOf_cssAsset.
Qed.

Lemma deltaOf_inlineLoop (url : string) (toks : list string) :
  deltaOf (forEach (inlineCssAsset url) toks)
  = dconcat (map inlineTokenDelta (map (resolveUrl url) toks)).
Proof.
  rewrite deltaOf_forEach by uniform. rewrite map_map. f_equal.
  apply map_ext. intros u. apply deltaOf_inlineCssAsset.
Qed.

Lemma deltaOf_cssStep (url : string) (e : Element) :
  deltaOf (cssStep url e) = sheetDelta url e.
Proof.
  unfold cssStep. run_bind. rewrite deltaOf_sheetLoop, orElse_empty.
  change (deltaOf (ret ?x)) with dnil. rewrite dapp_nil_r.
  unfold sheetDelta, sheetTokens, cssName, pageRef.
  rewrite <- !dapp_assoc. f_equal.
Qed.

Lemma deltaOf_iconPhase_after (url : string) (d : Document) :
  deltaOf (iconPhase url (afterImages url d)) = deltaOf (iconPhase url d).
Proof.
  unfold iconPhase. rewrite icon_after_images.
  destruct (querySelector isIconLink d) as [l|];
    unfold deltaOf, bind, fetchBlob; simpl; now destruct (netBlob _).
Qed.

(** The download phases, each on the prepared document. *)
Lemma deltaOf_download (url : string) (doc0 d : Document) :
  deltaOf (download url doc0 d)
  = dapp (dconcat (map (sheetDelta url) (filter isStylesheetLink (elements d))))
      (dapp (phaseDelta isSrcScript (jsStep url) d)
         (dapp (phaseDelta isImg (imgStep url) d)
            (dapp (deltaOf (iconPhase url d))
               (dapp (phaseDelta isPreloadFont (preloadStep url) d)
                  (dconcat (map inlineTokenDelta (inlineTokens url doc0))))))).
Proof.
  unfold download. run_bind. change (resultOf (ret ?x)) with x.
  rewrite resultOf_cssPhase, resultOf_jsPhase, resultOf_imgPhase, resultOf_iconPhase.
  fold (afterImages url d).
  rewrite !deltaOf_onDoc by uniform.
  rewrite scripts_after_css, images_after_js, preloads_after_icon.
  rewrite deltaOf_iconPhase_after, deltaOf_inlineLoop, orElse_empty.
  change (deltaOf (ret tt)) with dnil. rewrite dapp_nil_r.
  unfold phaseDelta, inlineTokens.
  rewrite (map_ext _ (sheetDelta url) (deltaOf_cssStep url)). reflexivity.
Qed.

Lemma deltaOf_addCombined (doc0 d : Document) :
  deltaOf (addCombined doc0 d)
  = mkDelta
      ((if JS.truthy (JS.trim (combinedCSS doc0))
        then [(cssDir ++ "inline-styles.css", Text (combinedCSS doc0))%string] else []) ++
       (if JS.truthy (JS.trim (combinedJS doc0))
        then [(jsDir ++ "inline-scripts.js", Text (combinedJS doc0))%string] else []))
      [] [] [] [] [].
Proof.
  unfold addCombined, deltaOf, bind.
  destruct (JS.truthy (JS.trim (combinedCSS doc0)));
    destruct (JS.truthy (JS.trim (combinedJS doc0))); reflexivity.
Qed.

Lemma In_dZip_dconcat (w : string * Content) (d : Delta) (ds : list Delta) :
  In d ds -> In w (dZip d) -> In w (dZip (dconcat ds)).
Proof.
  intros Hd Hw. rewrite dZip_dconcat. apply in_concat.
  exists (dZip d). split; [now apply in_map | assumption].
Qed.

Lemma In_dCalls_dconcat (c : Call) (d : Delta) (ds : list Delta) :
  In d ds -> In c (dCalls d) -> In c (dCalls (dconcat ds)).
Proof.
  intros Hd Hc. rewrite dCalls_dconcat. apply in_concat.
  exists (dCalls d). split; [now apply in_map | assumption].
Qed.

End DeltaFacts.

(** ** The tokens of style sheets and of the inline CSS *)

Section Tokens.
Context {P : Platform} {N : Network}.

Lemma archiveWrites_ok (url : string) :
  JS.truthy (fetchTextResult url) = true ->
  archiveWrites url = finalZip url (pageDoc url).
Proof. intros H. unfold archiveWrites. now rewrite runSite_ok. Qed.


Lemma sheet_token_in_body (url : string) (doc0 : Document) (el : Element) (a : string) :
  In el (filter isStylesheetLink (elements (prepared doc0))) ->
  In a (sheetTokens (pageRef url "href" el)) ->
  incl (dZip (sheetTokenDelta a)) (dZip (bodyDelta url doc0)) /\
  incl (dCalls (sheetTokenDelta a)) (dCalls (bodyDelta url doc0)).
Proof.
  intros Hel Ha. unfold bodyDelta. rewrite deltaOf_download. cbn [dZip dCalls dapp].
  split; intros w Hw; apply in_or_app; right; apply in_or_app; left.
  - apply In_dZip_dconcat with (sheetDelta url el); [now apply in_map|].
    unfold sheetDelta. cbn [dZip dapp]. apply in_or_app; right.
    apply In_dZip_dconcat with (sheetTokenDelta a); [now apply in_map | assumption].
  - apply In_dCalls_dconcat with (sheetDelta url el); [now apply in_map|].
    unfold sheetDelta. cbn [dCalls dapp]. apply in_or_app; right.
    apply In_dCalls_dconcat with (sheetTokenDelta a); [now apply in_map | assumption].
Qed.

Lemma inline_token_in_body (url : string) (doc0 : Document) (a : string) :
  In a (inlineTokens url doc0) ->
  incl (dZip (inlineTokenDelta a)) (dZip (bodyDelta url doc0)) /\
  incl (dCalls (inlineTokenDelta a)) (dCalls (bodyDelta url doc0)).
Proof.
  intros Ha. unfold bodyDelta. rewrite deltaOf_download. cbn [dZip dCalls dapp].
  split; intros w Hw; apply in_or_app; right;
    do 5 (apply in_or_app; right).
  - apply In_dZip_dconcat with (inlineTokenDelta a); [now apply in_map | assumption].
  - apply In_dCalls_dconcat with (inlineTokenDelta a); [now apply in_map | assumption].
Qed.

Lemma body_in_run (url : string) :
  JS.truthy (fetchTextResult url) = true ->
  incl (dZip (bodyDelta url (pageDoc url))) (archiveWrites url) /\
  incl (dCalls (bodyDelta url (pageDoc url))) (fetchCalls url).
Proof.
  intros H. rewrite archiveWrites_ok, fetchCalls_ok by assumption.
  rewrite <- dCalls_bodyDelta. unfold finalZip. split; intros w Hw.
  - apply in_or_app; right. apply in_or_app; now left.
  - now right.
Qed.

End Tokens.

(** C3, as the specification states it, fails for the inline CSS: the
    example page's style block refers to an image by [url(bg.png)], the
    image is there to fetch, and the run neither fetches it nor stores it,
    while it does both for the image a style sheet refers to. *)
Lemma inline_image_token_skipped :
  In "https://x.com/bg.png" (@inlineTokens (examplePlatform styledDoc) examplePage styledDoc) /\
  isImageExt (extOf "https://x.com/bg.png") = true /\
  @netBlob styledNet "https://x.com/bg.png" = Some [4] /\
  fetchCount "https://x.com/bg.png"
    (@fetchCalls (examplePlatform styledDoc) styledNet examplePage) = 0 /\
  zipGet "website/images/bg.png"
    (@archiveWrites (examplePlatform styledDoc) styledNet examplePage) = None /\
  zipGet "website/images/p.gif"
    (@archiveWrites (examplePlatform styledDoc) styledNet examplePage) = Some (Bin [3]).
Proof. repeat split; try reflexivity. vm_compute. auto. Qed.

(** C3, amended.  A [url()] token of a fetched style sheet, resolved
    against the sheet, is fetched as a binary font and stored in the fonts
    folder when its extension is a font's, fetched as a binary image and
    stored in the images folder when it is an image's, and skipped
    otherwise.  A token of the combined inline CSS, resolved against the
    page, is fetched and stored in the same way when its extension is a
    font's, and skipped otherwise, images included.  In a run that got its
    HTML this is done for every token extracted from every fetched sheet and
    from the inline CSS: the writes and calls it gives are among the run's. *)
Theorem css_tokens_by_extension {P : Platform} {N : Network} (url : string) :
  JS.truthy (fetchTextResult url) = true ->
  (forall sheet u st,
     let a := resolveUrl sheet u in
     cssAsset sheet u st =
       (tt, if isFontExt (extOf a) then extend st (fontDelta a)
            else if isImageExt (extOf a) then extend st (imageDelta a)
            else st)) /\
  (forall u st,
     let a := resolveUrl url u in
     inlineCssAsset url u st =
       (tt, if isFontExt (extOf a) then extend st (fontDelta a) else st)) /\
  (forall el u,
     In el (filter isStylesheetLink (elements (prepared (pageDoc url)))) ->
     In u (extractUrlsFromCss (fetchTextResult (resolveUrl url (attrOrProp "href" el)))) ->
     let a := resolveUrl (resolveUrl url (attrOrProp "href" el)) u in
     incl (dZip (sheetTokenDelta a)) (archiveWrites url) /\
     incl (dCalls (sheetTokenDelta a)) (fetchCalls url)) /\
  (forall u,
     In u (extractUrlsFromCss (combinedCSS (pageDoc url))) ->
     let a := resolveUrl url u in
     incl (dZip (inlineTokenDelta a)) (archiveWrites url) /\
     incl (dCalls (inlineTokenDelta a)) (fetchCalls url)).
Proof.
  intros H. destruct (body_in_run url H) as [Hz Hc].
  split; [|split; [|split]].
  - intros sheet u st a. rewrite cssAsset_eq. fold a. unfold sheetTokenDelta.
    destruct (isFontExt (extOf a)); [reflexivity|].
    destruct (isImageExt (extOf a)); [reflexivity|]. now rewrite extend_nil.
  - intros u st a. rewrite inlineCssAsset_eq. fold a. unfold inlineTokenDelta.
    destruct (isFontExt (extOf a)); [reflexivity|]. now rewrite extend_nil.
  - intros el u Hel Hu a.
    destruct (sheet_token_in_body url (pageDoc url) el a Hel) as [A B].
    { unfold sheetTokens. now apply in_map. }
    split; eapply incl_tran; eauto.
  - intros u Hu a.
    destruct (inline_token_in_body url (pageDoc url) a) as [A B].
    { unfold inlineTokens. now apply in_map. }
    split; eapply incl_tran; eauto.
Qed.

Lemma css_tokens_by_extension_witness :
  incl [("website/fonts/t.woff", Bin [2])]
       (@archiveWrites (examplePlatform styledDoc) styledNet examplePage) /\
  incl [FetchBlob "https://x.com/fonts/t.woff"]
       (@fetchCalls (examplePlatform styledDoc) styledNet examplePage).
Proof.
  refine (proj1 (proj2 (proj2
    (@css_tokens_by_extension (examplePlatform styledDoc) styledNet examplePage eq_refl)))
    (mkElement "link" [("rel", "stylesheet"); ("href", "css/main.css")] EmptyString)
    "../fonts/t.woff" _ _).
  - simpl. auto.
  - simpl. auto.
Defined.

(** ** The archive *)

Lemma zipGet_app (p : string) (a b : Zip) :
  zipGet p (a ++ b) = match zipGet p b with Some c => Some c | None => zipGet p a end.
Proof.
  induction a as [|[q c] a IH]; simpl.
  - now destruct (zipGet p b).
  - rewrite IH. now destruct (zipGet p b).
Qed.

Lemma zipGet_last (p : string) (c : Content) (z : Zip) :
  zipGet p (z ++ [(p, c)]) = Some c.
Proof. rewrite zipGet_app. simpl. now rewrite String.eqb_refl. Qed.

Section Archive.
Context {P : Platform} {N : Network}.



End Archive.




(** ** The files behind the rewritten references *)

Lemma zipGet_In (p : string) (c : Content) (z : Zip) :
  In (p, c) z -> zipGet p z <> None.
Proof.
  induction z as [|[q x] z IH]; simpl; [contradiction|].
  intros [E|Hin].
  - inversion E; subst. destruct (zipGet p z); [discriminate|].
    rewrite String.eqb_refl. discriminate.
  - specialize (IH Hin). now destruct (zipGet p z).
Qed.

Section LocalFiles.
Context {P : Platform} {N : Network}.
Variable url : string.

Lemma In_phase_zip (w : string * Content) (sel : Element -> bool)
    (step : Element -> M Element) (d : Document) (e : Element) :
  In e (elements d) -> sel e = true -> In w (dZip (deltaOf (step e))) ->
  In w (dZip (phaseDelta sel step d)).
Proof.
  intros He Hs Hw. unfold phaseDelta.
  apply (In_dZip_dconcat w (deltaOf (step e))); [|assumption].
  apply in_map_iff. exists e. split; [reflexivity|]. apply filter_In. now split.
Qed.

Lemma In_download_finalZip (w : string * Content) (doc0 : Document) :
  In w (dZip (deltaOf (download url doc0 (prepared doc0)))) -> In w (finalZip url doc0).
Proof.
  intros H. unfold finalZip, bodyDelta. cbn [dZip dapp].
  apply in_or_app. right. apply in_or_app. left. apply in_or_app. now right.
Qed.

Lemma sheet_file (doc0 : Document) (e : Element) :
  In e (elements (prepared doc0)) -> isStylesheetLink e = true ->
  In ((cssDir ++ cssName url e)%string, Text (fetchTextResult (pageRef url "href" e)))
     (finalZip url doc0).
Proof.
  intros He Hs. apply In_download_finalZip. rewrite deltaOf_download.
  cbn [dZip dapp]. apply in_or_app. left.
  apply (In_dZip_dconcat _ (sheetDelta url e)).
  - apply in_map_iff. exists e. split; [reflexivity|]. apply filter_In. now split.
  - unfold sheetDelta. cbn [dZip dapp]. apply in_or_app. left. now left.
Qed.

Lemma script_file (doc0 : Document) (e : Element) :
  In e (elements (prepared doc0)) -> isSrcScript e = true ->
  In ((jsDir ++ jsName url e)%string, Text (fetchTextResult (pageRef url "src" e)))
     (finalZip url doc0).
Proof.
  intros He Hs. apply In_download_finalZip. rewrite deltaOf_download.
  cbn [dZip dapp]. apply in_or_app. right. apply in_or_app. left.
  apply (In_phase_zip _ _ _ _ e He Hs).
  unfold jsStep, deltaOf, bind, fetchText. simpl. rewrite orElse_empty. now left.
Qed.

Lemma image_file (doc0 : Document) (e : Element) (b : Blob) :
  In e (elements (prepared doc0)) -> isImg e = true ->
  netBlob (pageRef url "src" e) = Some b ->
  In ((imgDir ++ fileNameFromUrl (pageRef url "src" e))%string, Bin b) (finalZip url doc0).
Proof.
  intros He Hs Hb. apply In_download_finalZip. rewrite deltaOf_download.
  cbn [dZip dapp]. apply in_or_app. right. apply in_or_app. right. apply in_or_app. left.
  apply (In_phase_zip _ _ _ _ e He Hs).
  unfold imgStep, deltaOf, bind, fetchBlob, pageRef in *. simpl. rewrite Hb. now left.
Qed.

Lemma preload_file (doc0 : Document) (e : Element) (b : Blob) :
  In e (elements (prepared doc0)) -> isPreloadFont e = true ->
  netBlob (pageRef url "href" e) = Some b ->
  In ((fontsDir ++ fileNameFromUrl (pageRef url "href" e))%string, Bin b)
     (finalZip url doc0).
Proof.
  intros He Hs Hb. apply In_download_finalZip. rewrite deltaOf_download.
  cbn [dZip dapp]. do 4 (apply in_or_app; right). apply in_or_app. left.
  apply (In_phase_zip _ _ _ _ e He Hs).
  unfold preloadStep, deltaOf, bind, fetchBlob, pageRef in *. simpl. rewrite Hb. now left.
Qed.

End LocalFiles.

(** ** The attributes after the run, and the files written for them *)

(** C2, amended.  The document a run ends with is the prepared page with
    each element rewritten on its own.  The attribute of a style sheet link
    is always [css/] and the local name, that of a script with a source
    always [js/] and the local name, whether or not the fetch gave anything:
    either way the run writes the text the fetch gave, which is the empty
    text when the fetch failed, to the archive under that name in
    [website/css/] or [website/js/].  The attribute of an image, of a font
    preload and of the icon link is the folder and the local name
    ([images/], [fonts/], none for the icon) when the fetch succeeded and is
    left as it was when it failed.  Other elements are left as they
    were. *)
Theorem rewritten_attributes {P : Platform} {N : Network} (url : string) :
  JS.truthy (fetchTextResult url) = true ->
  rewritten url
  = Some (updateFirst isIconLink (iconRewrite url)
            (mapDoc (rewriteEl url) (prepared (pageDoc url)))) /\
  (forall e, isStylesheetLink e = true ->
     getAttribute "href" (rewriteEl url e)
     = Some ("css/" ++ JS.orElse (fileNameFromUrl (pageRef url "href" e)) "style.css")%string) /\
  (forall e, isSrcScript e = true ->
     getAttribute "src" (rewriteEl url e)
     = Some ("js/" ++ JS.orElse (fileNameFromUrl (pageRef url "src" e)) "script.js")%string) /\
  (forall e, isImg e = true ->
     match netBlob (pageRef url "src" e) with
     | Some _ =>
         getAttribute "src" (rewriteEl url e)
         = Some ("images/" ++ fileNameFromUrl (pageRef url "src" e))%string
     | None => rewriteEl url e = e
     end) /\
  (forall e, isPreloadFont e = true ->
     match netBlob (pageRef url "href" e) with
     | Some _ =>
         getAttribute "href" (rewriteEl url e)
         = Some ("fonts/" ++ fileNameFromUrl (pageRef url "href" e))%string
     | None => rewriteEl url e = e
     end) /\
  (forall e,
     match netBlob (pageRef url "href" e) with
     | Some _ =>
         getAttribute "href" (iconRewrite url e)
         = Some (JS.orElse (fileNameFromUrl (pageRef url "href" e)) "favicon.ico")
     | None => iconRewrite url e = e
     end) /\
  (forall e, isStylesheetLink e = false -> isSrcScript e = false -> isImg e = false ->
     isPreloadFont e = false -> rewriteEl url e = e) /\
  (forall e, In e (elements (prepared (pageDoc url))) -> isStylesheetLink e = true ->
     In (("website/css/" ++ JS.orElse (fileNameFromUrl (pageRef url "href" e)) "style.css")%string,
         Text (fetchTextResult (pageRef url "href" e)))
        (archiveWrites url)) /\
  (forall e, In e (elements (prepared (pageDoc url))) -> isSrcScript e = true ->
     In (("website/js/" ++ JS.orElse (fileNameFromUrl (pageRef url "src" e)) "script.js")%string,
         Text (fetchTextResult (pageRef url "src" e)))
        (archiveWrites url)) /\
  (forall u, netText u = None -> fetchTextResult u = EmptyString).
Proof.
  intros H. repeat split.
  - now apply rewritten_ok.
  - apply rewriteEl_stylesheet.
  - apply rewriteEl_script.
  - intros e He. destruct (rewriteEl_img url e He) as [Hr Ha].
    unfold fetched in Ha. unfold imgRewrite, fetched in Hr.
    destruct (netBlob (pageRef url "src" e)); assumption.
  - intros e He. destruct (rewriteEl_preload url e He) as [Hr Ha].
    unfold fetched in Ha. unfold preloadRewrite, fetched in Hr.
    destruct (netBlob (pageRef url "href" e)); assumption.
  - intros e. pose proof (iconRewrite_href url e) as Ha.
    unfold iconRewrite, fetched in *.
    destruct (netBlob (pageRef url "href" e)); [assumption | reflexivity].
  - apply rewriteEl_other.
  - intros e He Hs. rewrite archiveWrites_ok by assumption.
    exact (sheet_file url _ e He Hs).
  - intros e He Hs. rewrite archiveWrites_ok by assumption.
    exact (script_file url _ e He Hs).
  - intros u Hu. unfold fetchTextResult. now rewrite Hu.
Qed.

Lemma rewritten_attributes_witness :
  @rewritten (examplePlatform styledDoc) styledNet examplePage =
    Some (mkDocument
      [mkElement "link" [("rel", "stylesheet"); ("href", "css/main.css")] EmptyString;
       mkElement "link" [("rel", "icon"); ("href", "favicon.ico")] EmptyString;
       mkElement "link" [("rel", "stylesheet"); ("href", "css/inline-styles.css")] EmptyString]
      [mkElement "img" [("src", "logo.png")] EmptyString]).
Proof.
  exact (proj1 (@rewritten_attributes (examplePlatform styledDoc) styledNet
                  examplePage eq_refl)).
Defined.

(** ** The combined inline CSS and its link *)

Lemma trimEnd_truthy (s : string) : JS.truthy (JS.trimEnd s) = hasInk s.
Proof.
  induction s as [|c s IH]; [reflexivity|]. cbn [JS.trimEnd hasInk].
  destruct (JS.trimEnd s) as [|d r]; simpl in IH; rewrite <- IH.
  - rewrite orb_false_r. now destruct (JS.isWhite c).
  - now rewrite orb_true_r.
Qed.

Lemma hasInk_trimStart (s : string) : hasInk (JS.trimStart s) = hasInk s.
Proof.
  induction s as [|c s IH]; [reflexivity|]. cbn [JS.trimStart].
  destruct (JS.isWhite c) eqn:E; [|reflexivity].
  cbn [hasInk]. now rewrite E, IH.
Qed.

Lemma trim_truthy (s : string) : JS.truthy (JS.trim s) = hasInk s.
Proof. unfold JS.trim. now rewrite trimEnd_truthy, hasInk_trimStart. Qed.

Lemma hasInk_append (a b : string) : hasInk (a ++ b) = hasInk a || hasInk b.
Proof.
  induction a as [|c a IH]; [reflexivity|]. cbn [String.append hasInk].
  now rewrite IH, orb_assoc.
Qed.

Lemma hasInk_combine_text (els : list Element) (s : Element) :
  In s els -> hasInk (textContent s) = true -> hasInk (combine_text els) = true.
Proof.
  intros Hin Hs. induction els as [|e els IH]; [contradiction|].
  cbn [combine_text]. rewrite !hasInk_append. destruct Hin as [->|Hin].
  - now rewrite Hs.
  - rewrite (IH Hin). now rewrite !orb_true_r.
Qed.

Lemma filter_filter_kept {A} (sel rm : A -> bool) (l : list A) :
  (forall a, sel a = true -> rm a = false) ->
  filter sel (filter (fun a => negb (rm a)) l) = filter sel l.
Proof.
  intros H. induction l as [|a l IH]; simpl; [reflexivity|].
  destruct (rm a) eqn:Er; simpl.
  - destruct (sel a) eqn:Es; [|assumption]. apply H in Es. congruence.
  - now rewrite IH.
Qed.

Lemma concat_map_nil {A B} (f : A -> list B) (l : list A) :
  (forall a, f a = []) -> concat (map f l) = [].
Proof.
  intros H. induction l as [|a l IH]; simpl; [reflexivity|]. now rewrite H, IH.
Qed.

Lemma concat_map_singleton {A B} (f : A -> B) (l : list A) :
  concat (map (fun a => [f a]) l) = map f l.
Proof. induction l as [|a l IH]; simpl; [reflexivity | now rewrite IH]. Qed.

Section InlineStyles.
Context {P : Platform} {N : Network}.

Lemma stylesheet_not_style (e : Element) : isStylesheetLink e = true -> isStyle e = false.
Proof.
  intros H. apply stylesheet_rel in H as [Ht _].
  now apply (hasTag_excl "link" "style" e).
Qed.

Lemma stylesheet_not_inline_script (e : Element) :
  isStylesheetLink e = true -> isInlineScript e = false.
Proof.
  intros H. apply stylesheet_rel in H as [Ht _]. unfold isInlineScript.
  now rewrite (hasTag_excl "link" "script" e).
Qed.

Lemma stylesheets_stripInline (doc0 : Document) :
  filter isStylesheetLink (elements (stripInline doc0))
  = filter isStylesheetLink (elements doc0).
Proof.
  unfold stripInline, removeAll, elements. cbn [head body]. rewrite !filter_app.
  rewrite !(filter_filter_kept isStylesheetLink isInlineScript)
    by apply stylesheet_not_inline_script.
  now rewrite !(filter_filter_kept isStylesheetLink isStyle) by apply stylesheet_not_style.
Qed.

(** With inline CSS, the links the CSS phase walks through are those of the
    page and the link of the combined file. *)
Lemma stylesheets_prepared (doc0 : Document) :
  JS.truthy (JS.trim (combinedCSS doc0)) = true ->
  exists l1 l2,
    filter isStylesheetLink (elements (prepared doc0)) = l1 ++ inlineStylesLink :: l2 /\
    l1 ++ l2 = filter isStylesheetLink (elements doc0).
Proof.
  intros H. unfold prepared. rewrite H.
  rewrite <- (stylesheets_stripInline doc0).
  set (d := stripInline doc0).
  exists (filter isStylesheetLink (head d)), (filter isStylesheetLink (body d)).
  split; [|unfold elements; now rewrite filter_app].
  destruct (JS.truthy (JS.trim (combinedJS doc0)));
    unfold elements, appendHead, appendBody; cbn [head body];
    rewrite ?filter_app; cbn [filter]; rewrite <- ?app_assoc;
    change (isStylesheetLink inlineStylesLink) with true;
    change (isStylesheetLink inlineScriptsTag) with false;
    rewrite ?app_nil_r; reflexivity.
Qed.

Lemma dCss_sheetTokenDelta (a : string) : dCss (sheetTokenDelta a) = [].
Proof.
  unfold sheetTokenDelta, fontDelta, imageDelta.
  destruct (isFontExt _); [now destruct (netBlob a)|].
  destruct (isImageExt _); [now destruct (netBlob a)|reflexivity].
Qed.

Lemma dCss_inlineTokenDelta (a : string) : dCss (inlineTokenDelta a) = [].
Proof.
  unfold inlineTokenDelta, fontDelta. destruct (isFontExt _); [now destruct (netBlob a)|reflexivity].
Qed.

Lemma dCss_sheetDelta (url : string) (el : Element) :
  dCss (sheetDelta url el) = [mkEntry (pageRef url "href" el) (Some (cssName url el))].
Proof.
  unfold sheetDelta. cbn [dCss dapp]. rewrite dCss_dconcat, map_map.
  now rewrite concat_map_nil by (intros; apply dCss_sheetTokenDelta).
Qed.

Lemma dCss_phase (sel : Element -> bool) (step : Element -> M Element) (d : Document) :
  (forall e, dCss (deltaOf (step e)) = []) -> dCss (phaseDelta sel step d) = [].
Proof.
  intros H. unfold phaseDelta. rewrite dCss_dconcat, map_map.
  now apply concat_map_nil.
Qed.

Lemma dCss_imgStep (url : string) (e : Element) : dCss (deltaOf (imgStep url e)) = [].
Proof. unfold imgStep, deltaOf, bind, fetchBlob. simpl. now destruct (netBlob _). Qed.

Lemma dCss_preloadStep (url : string) (e : Element) : dCss (deltaOf (preloadStep url e)) = [].
Proof. unfold preloadStep, deltaOf, bind, fetchBlob. simpl. now destruct (netBlob _). Qed.

Lemma dCss_iconPhase (url : string) (d : Document) : dCss (deltaOf (iconPhase url d)) = [].
Proof.
  unfold iconPhase, deltaOf, bind, fetchBlob.
  destruct (querySelector isIconLink d); simpl; now destruct (netBlob _).
Qed.

(** [metaInfo.cssFiles] has one entry for each link the CSS phase walks
    through. *)
Lemma cssFiles_final (url : string) (doc0 : Document) :
  cssFiles (finalMeta url doc0)
  = map (fun el => mkEntry (pageRef url "href" el) (Some (cssName url el)))
        (filter isStylesheetLink (elements (prepared doc0))).
Proof.
  unfold finalMeta, extendMeta, startMeta, bodyDelta. cbn [cssFiles app].
  rewrite deltaOf_addCombined, deltaOf_download. cbn [dCss dapp app].
  rewrite (dCss_phase isSrcScript (jsStep url)) by reflexivity.
  rewrite (dCss_phase isImg (imgStep url)) by apply dCss_imgStep.
  rewrite (dCss_phase isPreloadFont (preloadStep url)) by apply dCss_preloadStep.
  rewrite dCss_iconPhase.
  rewrite (dCss_dconcat (map inlineTokenDelta _)).
  rewrite map_map, concat_map_nil by (intros; apply dCss_inlineTokenDelta).
  cbn [app]. rewrite app_nil_r, dCss_dconcat, map_map.
  rewrite (map_ext _ (fun el => [mkEntry (pageRef url "href" el) (Some (cssName url el))])
             (dCss_sheetDelta url)).
  apply concat_map_singleton.
Qed.

Lemma metaInfoOf_ok (url : string) :
  JS.truthy (fetchTextResult url) = true ->
  metaInfoOf url = finalMeta url (pageDoc url).
Proof. intros H. unfold metaInfoOf. now rewrite runSite_ok. Qed.

Lemma scanOf_ok (url : string) :
  JS.truthy (fetchTextResult url) = true ->
  scanOf url
  = match runHeuristicScan (rewriteDoc url (prepared (pageDoc url))) url (metaInfoOf url) with
    | Returned scan => Some scan
    | Threw => None
    end.
Proof.
  intros H. rewrite metaInfoOf_ok by assumption. unfold scanOf.
  rewrite runSite_ok by assumption. unfold finalOf. cbn [fst packaged].
  now destruct (runHeuristicScan _ url _).
Qed.

(** The number of assets a scan reports, when it returns. *)
Lemma totalAssets_returned (doc : Document) (domain : string) (m : MetaInfo)
    (scan : ScanResult) :
  runHeuristicScan doc domain m = Returned scan -> totalAssets scan = totalAssetsOf m.
Proof.
  unfold runHeuristicScan. destruct (scanTitle doc); [|discriminate].
  destruct (formsIssuesOf doc (formControls doc)); [|discriminate].
  intros E. inversion E. reflexivity.
Qed.

End InlineStyles.

Section InlineStylesRun.
Context {P : Platform} {N : Network}.

Lemma pageRef_inlineStylesLink (url : string) :
  pageRef url "href" inlineStylesLink = resolveUrl url "css/inline-styles.css".
Proof. reflexivity. Qed.

Lemma packageWrites_inline_styles (url : string) (doc0 d : Document) (m : MetaInfo) :
  JS.truthy (JS.trim (combinedCSS doc0)) = true ->
  zipGet "website/css/inline-styles.css" (packageWrites url doc0 d m)
  = Some (Text (combinedCSS doc0)).
Proof.
  intros H. unfold packageWrites, auditWrites. rewrite H.
  destruct (runHeuristicScan d url m);
    destruct (JS.truthy (JS.trim (combinedJS doc0))); reflexivity.
Qed.

(** The three writes to the file of the combined inline CSS, when the text
    fetched for the link goes to that file. *)
Lemma inline_styles_writes (url : string) (doc0 : Document) :
  JS.truthy (JS.trim (combinedCSS doc0)) = true ->
  cssName url inlineStylesLink = "inline-styles.css" ->
  exists z1 z2 z3 z4,
    finalZip url doc0
    = z1 ++ [("website/css/inline-styles.css", Text (combinedCSS doc0))] ++
      z2 ++ [("website/css/inline-styles.css",
              Text (fetchTextResult (resolveUrl url "css/inline-styles.css")))] ++
      z3 ++ [("website/css/inline-styles.css", Text (combinedCSS doc0))] ++ z4 /\
    zipGet "website/css/inline-styles.css" z4 = None.
Proof.
  intros Hc Hname. destruct (stylesheets_prepared doc0 Hc) as (l1 & l2 & Hl & _).
  unfold finalZip, bodyDelta. rewrite deltaOf_addCombined, deltaOf_download.
  cbn [dZip dapp]. rewrite Hl, map_app, dconcat_app. cbn [map dconcat dZip dapp].
  unfold sheetDelta at 2. cbn [dZip dapp]. rewrite Hname, pageRef_inlineStylesLink.
  unfold packageWrites. rewrite Hc.
  set (jsw := if JS.truthy (JS.trim (combinedJS doc0))
              then [((jsDir ++ "inline-scripts.js")%string, Text (combinedJS doc0))] else []).
  set (A := dZip (dconcat (map (sheetDelta url) l1))).
  set (T := dZip (dconcat (map sheetTokenDelta _))).
  set (B := dZip (dconcat (map (sheetDelta url) l2))).
  set (R1 := dZip (phaseDelta isSrcScript _ _)).
  set (R2 := dZip (phaseDelta isImg _ _)).
  set (R3 := dZip (deltaOf (iconPhase _ _))).
  set (R4 := dZip (phaseDelta isPreloadFont _ _)).
  set (R5 := dZip (dconcat (map inlineTokenDelta _))).
  set (index := ((rootDir ++ "index.html")%string, Text _)).
  set (F := auditWrites _ _ _).
  exists folderZip, (jsw ++ A), (T ++ B ++ R1 ++ R2 ++ R3 ++ R4 ++ R5 ++ [index]), (jsw ++ F).
  split.
  - rewrite <- !app_assoc. reflexivity.
  - subst jsw F. unfold auditWrites.
    destruct (runHeuristicScan _ url _);
      destruct (JS.truthy (JS.trim (combinedJS doc0))); reflexivity.
Qed.

End InlineStylesRun.

(** C9, as the specification states it, fails for a page URL that the URL
    class does not parse.  The page of the example was asked for as
    [example.com]: the target of the created link stays the relative
    [css/inline-styles.css], its file name is [asset], and the text fetched
    for it is written to [website/css/asset].  Both writes to
    [website/css/inline-styles.css] hold the combined inline CSS: the entry
    is never overwritten, and the link of the final document points away
    from it. *)
Lemma inline_styles_not_overwritten :
  @resolveUrl barePlatform "example.com" "css/inline-styles.css" = "css/inline-styles.css" /\
  @fileNameFromUrl barePlatform "css/inline-styles.css" = "asset" /\
  In (FetchText "css/inline-styles.css")
     (@fetchCalls (examplePlatform inlineStyleDoc) bareUrlNet "example.com") /\
  In ("website/css/asset", Text "/* remote */")
     (@archiveWrites (examplePlatform inlineStyleDoc) bareUrlNet "example.com") /\
  filter (fun w => String.eqb (fst w) "website/css/inline-styles.css")
     (@archiveWrites (examplePlatform inlineStyleDoc) bareUrlNet "example.com")
  = [("website/css/inline-styles.css", Text (combinedCSS inlineStyleDoc));
     ("website/css/inline-styles.css", Text (combinedCSS inlineStyleDoc))] /\
  @rewritten (examplePlatform inlineStyleDoc) bareUrlNet "example.com"
  = Some (mkDocument
            [mkElement "link" [("rel", "stylesheet"); ("href", "css/asset")] EmptyString]
            []).
Proof.
  split; [reflexivity|]. split; [reflexivity|].
  split; [vm_compute; tauto|]. split; [vm_compute; tauto|].
  split; vm_compute; reflexivity.
Qed.

(** C9, amended.  When the page has an inline style block whose text is not
    all white space, the link created for the combined CSS is among the
    links the CSS phase selects; the run calls [fetchText] on the link's
    target resolved against the page, writes the text that comes back to
    [website/css/] under the local name of that target (its file name, or
    [style.css]) and rewrites the link to that name.  When the name is
    [inline-styles.css], as for a page URL that the URL class parses, that
    write goes over the combined CSS, which a write after [index.html] puts
    back.  In every case [website/css/inline-styles.css] holds the combined
    CSS in the end, and the link has an entry in [metaInfo.cssFiles], so
    that the list, and with it the number of assets, is one above what the
    links of the page account for; a scan that returns reports that
    number. *)
Theorem inline_styles_link_refetched {P : Platform} {N : Network}
    (url : string) (s : Element) :
  JS.truthy (fetchTextResult url) = true ->
  In s (styleEls (pageDoc url)) ->
  JS.truthy (JS.trim (textContent s)) = true ->
  let doc0 := pageDoc url in
  let remote := resolveUrl url "css/inline-styles.css" in
  let name := JS.orElse (fileNameFromUrl remote) "style.css" in
  let path := "website/css/inline-styles.css" in
  In inlineStylesLink (querySelectorAll isStylesheetLink (prepared doc0)) /\
  In (FetchText remote) (fetchCalls url) /\
  In (("website/css/" ++ name)%string, Text (fetchTextResult remote)) (archiveWrites url) /\
  getAttribute "href" (rewriteEl url inlineStylesLink) = Some ("css/" ++ name)%string /\
  (name = "inline-styles.css" ->
   exists z1 z2 z3 z4,
     archiveWrites url
     = z1 ++ [(path, Text (combinedCSS doc0))] ++
       z2 ++ [(path, Text (fetchTextResult remote))] ++
       z3 ++ [(path, Text (combinedCSS doc0))] ++ z4 /\
     zipGet path (z1 ++ [(path, Text (combinedCSS doc0))] ++
                  z2 ++ [(path, Text (fetchTextResult remote))])
     = Some (Text (fetchTextResult remote))) /\
  zipGet path (archiveWrites url) = Some (Text (combinedCSS doc0)) /\
  In (mkEntry remote (Some name)) (cssFiles (metaInfoOf url)) /\
  length (cssFiles (metaInfoOf url))
  = S (length (querySelectorAll isStylesheetLink doc0)) /\
  totalAssetsOf (metaInfoOf url)
  = S (length (querySelectorAll isStylesheetLink doc0))
    + length (jsFiles (metaInfoOf url)) + length (images (metaInfoOf url))
    + length (fonts (metaInfoOf url)) /\
  (forall scan,
     runHeuristicScan (rewriteDoc url (prepared doc0)) url (metaInfoOf url) = Returned scan ->
     scanOf url = Some scan /\ totalAssets scan = totalAssetsOf (metaInfoOf url)).
Proof.
  intros H Hs Hink doc0 remote name path.
  assert (Hc : JS.truthy (JS.trim (combinedCSS doc0)) = true).
  { rewrite trim_truthy. rewrite trim_truthy in Hink.
    now apply hasInk_combine_text with s. }
  destruct (stylesheets_prepared doc0 Hc) as (l1 & l2 & Hl & Hl').
  assert (Hin : In inlineStylesLink (filter isStylesheetLink (elements (prepared doc0)))).
  { rewrite Hl. apply in_or_app. right. now left. }
  assert (Hel : In inlineStylesLink (elements (prepared doc0)))
    by (now apply filter_In in Hin).
  assert (Hlen : length (cssFiles (metaInfoOf url))
                 = S (length (querySelectorAll isStylesheetLink doc0))).
  { rewrite metaInfoOf_ok, cssFiles_final by assumption. fold doc0.
    rewrite length_map, Hl. unfold querySelectorAll. fold (elements doc0).
    rewrite <- Hl', !length_app. simpl. lia. }
  split; [exact Hin|]. split.
  { rewrite fetchCalls_ok by assumption. right. fold doc0.
    unfold downloadCalls. apply in_or_app. left. unfold cssPhaseCalls.
    apply in_flat_map. exists inlineStylesLink. split; [assumption|]. now left. }
  split.
  { rewrite archiveWrites_ok by assumption. fold doc0.
    exact (sheet_file url doc0 inlineStylesLink Hel eq_refl). }
  split; [exact (rewriteEl_stylesheet url inlineStylesLink eq_refl)|].
  split.
  { intros Hn. destruct (inline_styles_writes url doc0 Hc Hn) as (z1 & z2 & z3 & z4 & Hz & _).
    exists z1, z2, z3, z4. rewrite archiveWrites_ok by assumption. fold doc0.
    split; [exact Hz|]. rewrite !app_assoc. apply zipGet_last. }
  split.
  { rewrite archiveWrites_ok by assumption. fold doc0. unfold finalZip, path.
    rewrite !app_assoc, zipGet_app. now rewrite packageWrites_inline_styles. }
  split.
  { rewrite metaInfoOf_ok, cssFiles_final by assumption. fold doc0.
    apply in_map_iff. exists inlineStylesLink. split; [reflexivity | assumption]. }
  split; [exact Hlen|].
  split; [unfold totalAssetsOf; now rewrite Hlen|].
  intros scan Hscan. split.
  - rewrite scanOf_ok by assumption. fold doc0. now rewrite Hscan.
  - now apply totalAssets_returned with (rewriteDoc url (prepared doc0)) url.
Qed.

(** The page of the example: its URL parses, the text fetched for the link
    goes over the combined CSS, and the last write puts it back. *)
Lemma inline_styles_link_refetched_witness :
  In inlineStylesLink
     (@querySelectorAll isStylesheetLink (@prepared (examplePlatform styledDoc) styledDoc)) /\
  In (FetchText "https://x.com/css/inline-styles.css")
     (@fetchCalls (examplePlatform styledDoc) styledNet examplePage) /\
  In ("website/css/inline-styles.css", Text "/* remote */")
     (@archiveWrites (examplePlatform styledDoc) styledNet examplePage) /\
  zipGet "website/css/inline-styles.css"
     (@archiveWrites (examplePlatform styledDoc) styledNet examplePage)
  = Some (Text (combinedCSS styledDoc)).
Proof.
  pose proof (@inline_styles_link_refetched (examplePlatform styledDoc) styledNet examplePage
                (mkElement "style" []
                   "body{background:url(bg.png)} @font-face{src:url(f.woff2)}")
                eq_refl (or_introl eq_refl) eq_refl) as W.
  exact (conj (proj1 W)
           (conj (proj1 (proj2 W))
              (conj (proj1 (proj2 (proj2 W)))
                    (proj1 (proj2 (proj2 (proj2 (proj2 (proj2 W))))))))).
Defined.

(** ** Empty texts and failed fetches *)

Section EmptyText.
Context {P : Platform}.

(** [fetchText] gives the same result, and leaves the same state, whether
    a URL answers with the empty text or does not answer. *)
Lemma fetchText_empty_or_failed (N1 N2 : Network) (x : string) (st : Run) :
  @netText N1 x = Some EmptyString -> @netText N2 x = None ->
  @fetchText N1 x st = @fetchText N2 x st /\
  @fetchText N1 x st = (EmptyString, mkRun (zip st) (meta st) (calls st ++ [FetchText x])).
Proof.
  intros H1 H2. unfold fetchText, fetchTextResult. now rewrite H1, H2.
Qed.

Lemma cssStep_empty_or_failed (N1 N2 : Network) (url : string) (el : Element) (st : Run) :
  @netText N1 (pageRef url "href" el) = Some EmptyString ->
  @netText N2 (pageRef url "href" el) = None ->
  @cssStep P N1 url el st = @cssStep P N2 url el st.
Proof.
  unfold pageRef. intros H1 H2.
  unfold cssStep, bind, fetchText, fetchTextResult. now rewrite H1, H2.
Qed.

Lemma jsStep_empty_or_failed (N1 N2 : Network) (url : string) (el : Element) (st : Run) :
  @netText N1 (pageRef url "src" el) = Some EmptyString ->
  @netText N2 (pageRef url "src" el) = None ->
  @jsStep P N1 url el st = @jsStep P N2 url el st.
Proof.
  unfold pageRef. intros H1 H2.
  unfold jsStep, bind, fetchText, fetchTextResult. now rewrite H1, H2.
Qed.

Lemma runSite_empty_or_failed (N1 N2 : Network) (url : string) :
  @netText N1 url = Some EmptyString -> @netText N2 url = None ->
  @runSite P N1 url emptyRun = (None, mkRun [] emptyMeta [FetchText url]) /\
  @runSite P N2 url emptyRun = (None, mkRun [] emptyMeta [FetchText url]).
Proof.
  intros H1 H2. split; apply runSite_failed; unfold fetchTextResult;
    [now rewrite H1 | now rewrite H2].
Qed.

End EmptyText.

(** C10.  Take two networks and a URL that the first answers with the
    empty text and the second does not answer.  [fetchText] returns the
    empty string on both and leaves the same state.  When the URL is the
    page's, both runs return [null] after that one call, with no archive.
    When it is the target of a style sheet link or of a script, the loop
    body does the same on both networks: the same empty file, the same entry
    in [metaInfo], the same rewritten attribute. *)
Theorem empty_text_same_as_failure {P : Platform} (N1 N2 : Network) (x : string) :
  @netText N1 x = Some EmptyString -> @netText N2 x = None ->
  (forall st,
     @fetchText N1 x st = (EmptyString, mkRun (zip st) (meta st) (calls st ++ [FetchText x])) /\
     @fetchText N2 x st = (EmptyString, mkRun (zip st) (meta st) (calls st ++ [FetchText x]))) /\
  (@processSite P N1 x = Returned None /\ @processSite P N2 x = Returned None /\
   @archiveWrites P N1 x = [] /\ @archiveWrites P N2 x = [] /\
   @fetchCalls P N1 x = [FetchText x] /\ @fetchCalls P N2 x = [FetchText x]) /\
  (forall url el st,
     resolveUrl url (attrOrProp "href" el) = x ->
     @cssStep P N1 url el st = @cssStep P N2 url el st /\
     @cssStep P N1 url el st
     = (setAttribute "href" ("css/" ++ JS.orElse (fileNameFromUrl x) "style.css") el,
        mkRun (zip st ++ [(cssDir ++ JS.orElse (fileNameFromUrl x) "style.css", Text EmptyString)%string])
              (meta (snd (pushCss (mkEntry x (Some (JS.orElse (fileNameFromUrl x) "style.css"))) st)))
              (calls st ++ [FetchText x]))) /\
  (forall url el st,
     resolveUrl url (attrOrProp "src" el) = x ->
     @jsStep P N1 url el st = @jsStep P N2 url el st /\
     @jsStep P N1 url el st
     = (setAttribute "src" ("js/" ++ JS.orElse (fileNameFromUrl x) "script.js") el,
        mkRun (zip st ++ [(jsDir ++ JS.orElse (fileNameFromUrl x) "script.js", Text EmptyString)%string])
              (meta (snd (pushJs (mkEntry x (Some (JS.orElse (fileNameFromUrl x) "script.js"))) st)))
              (calls st ++ [FetchText x]))).
Proof.
  intros H1 H2. split; [|split; [|split]].
  - intros st. destruct (fetchText_empty_or_failed N1 N2 x st H1 H2) as [E1 E2].
    split; [exact E2 | now rewrite <- E1].
  - destruct (runSite_empty_or_failed N1 N2 x H1 H2) as [R1 R2].
    unfold processSite, archiveWrites, fetchCalls. rewrite R1, R2. repeat split.
  - intros url el st Hx. split.
    + apply cssStep_empty_or_failed; unfold pageRef; now rewrite Hx.
    + unfold cssStep, bind, fetchText, fetchTextResult. rewrite Hx, H1. reflexivity.
  - intros url el st Hx. split.
    + apply jsStep_empty_or_failed; unfold pageRef; now rewrite Hx.
    + unfold jsStep, bind, fetchText, fetchTextResult. rewrite Hx, H1. reflexivity.
Qed.

Lemma empty_text_same_as_failure_witness :
  @processSite barePlatform (emptyAnswerNet examplePage) examplePage = Returned None /\
  @processSite barePlatform noAnswerNet examplePage = Returned None.
Proof.
  pose proof (@empty_text_same_as_failure barePlatform (emptyAnswerNet examplePage)
                noAnswerNet examplePage eq_refl eq_refl) as W.
  exact (conj (proj1 (proj1 (proj2 W))) (proj1 (proj2 (proj1 (proj2 W))))).
Defined.

(** * Further properties of [app.js] *)

(** ** What [extractUrlsFromCss] returns *)

Lemma re_exec_inv (s body rest : string) :
  re_exec s = Some (body, rest) ->
  exists pre q1 q2,
    s = (pre ++ "url(" ++ quoteText q1 ++ body ++ quoteText q2 ++ ")" ++ rest)%string /\
    JS.truthy body = true /\ allClass body = true.
Proof.
  induction s as [|c s IH]; cbn [re_exec].
  - discriminate.
  - destruct (matchAt (String c s)) as [[b r]|] eqn:E.
    + intros H; inversion H; subst.
      destruct (matchAt_inv _ _ _ E) as (q1 & q2 & Hs & Hb & Hc).
      exists EmptyString, q1, q2. auto.
    + intros H. destruct (IH H) as (pre & q1 & q2 & Hs & Hb & Hc).
      exists (String c pre), q1, q2. split; [|auto]. now rewrite Hs at 1.
Qed.

Lemma matchAt_consumes (s b r : string) :
  matchAt s = Some (b, r) -> String.length r + 6 <= String.length s.
Proof.
  intros H. destruct (matchAt_inv _ _ _ H) as (q1 & q2 & Hs & Hb & _).
  subst s. rewrite !length_append. destruct b; [discriminate|]. simpl. lia.
Qed.

Lemma re_exec_consumes (s b r : string) :
  re_exec s = Some (b, r) -> String.length r + 6 <= String.length s.
Proof.
  intros H. destruct (re_exec_inv _ _ _ H) as (pre & q1 & q2 & Hs & Hb & _).
  subst s. rewrite !length_append. destruct b; [discriminate|]. simpl. lia.
Qed.

(** X1.  Every string [extractUrlsFromCss] returns is the inner text of a
    [url()] token that occurs in the style sheet: it is not empty, and it
    holds no quote and no closing parenthesis. *)
Theorem extractUrlsFromCss_sound (css u : string) :
  In u (extractUrlsFromCss css) ->
  exists pre q1 q2 post,
    css = (pre ++ "url(" ++ quoteText q1 ++ u ++ quoteText q2 ++ ")" ++ post)%string /\
    JS.truthy u = true /\ allClass u = true.
Proof.
  remember (String.length css) as n eqn:Hn.
  assert (Hle : String.length css <= n) by lia. clear Hn.
  revert css Hle. induction n as [|n IH]; intros css Hle.
  - destruct css; [|simpl in Hle; lia]. intros [].
  - rewrite extractUrlsFromCss_step.
    destruct (re_exec css) as [[b r]|] eqn:E; [|intros []].
    pose proof (re_exec_consumes _ _ _ E) as Hlen.
    destruct (re_exec_inv _ _ _ E) as (pre & q1 & q2 & Hs & Hb & Hc).
    intros [<-|Hin].
    + exists pre, q1, q2, r. auto.
    + destruct (IH r ltac:(lia) Hin) as (pre' & q1' & q2' & post & Hr & Hu & Hcu).
      exists (pre ++ "url(" ++ quoteText q1 ++ b ++ quoteText q2 ++ ")" ++ pre')%string,
        q1', q2', post.
      split; [|auto]. rewrite Hs, Hr. now rewrite !append_assoc.
Qed.

Lemma extractUrlsFromCss_sound_witness :
  exists pre q1 q2 post,
    "a{src:url('f.woff2')}"
    = (pre ++ "url(" ++ quoteText q1 ++ "f.woff2" ++ quoteText q2 ++ ")" ++ post)%string /\
    JS.truthy "f.woff2" = true /\ allClass "f.woff2" = true.
Proof.
  apply (extractUrlsFromCss_sound "a{src:url('f.woff2')}" "f.woff2").
  simpl. auto.
Defined.

(** X2.  Every match takes at least six characters of the text, so a style
    sheet of [n] characters yields at most [n / 6] strings, and a text
    without [url(] yields none. *)
Theorem extractUrlsFromCss_bound (css : string) :
  6 * length (extractUrlsFromCss css) <= String.length css /\
  (hasUrlOpen css = false -> extractUrlsFromCss css = []).
Proof.
  split.
  - remember (String.length css) as n eqn:Hn.
    assert (Hle : String.length css <= n) by lia.
    rewrite Hn. clear Hn.
    revert css Hle. induction n as [|n IH]; intros css Hle.
    + destruct css; [|simpl in Hle; lia]. simpl. lia.
    + rewrite extractUrlsFromCss_step.
      destruct (re_exec css) as [[b r]|] eqn:E; [|simpl; lia].
      pose proof (re_exec_consumes _ _ _ E) as Hlen.
      pose proof (IH r ltac:(lia)). simpl length. lia.
  - intros H. rewrite extractUrlsFromCss_step. now rewrite hasUrlOpen_false_re_exec.
Qed.

Lemma extractUrlsFromCss_bound_witness :
  extractUrlsFromCss "body{color:red}" = [].
Proof. exact (proj2 (extractUrlsFromCss_bound "body{color:red}") eq_refl). Defined.

(** ** [escapeHtml] *)

Lemma replaceChar_append (c : ascii) (b x y : string) :
  replaceChar c b (x ++ y) = (replaceChar c b x ++ replaceChar c b y)%string.
Proof.
  induction x as [|d x IH]; [reflexivity|]. cbn [String.append replaceChar].
  destruct (Ascii.eqb d c); rewrite IH; [now rewrite append_assoc | reflexivity].
Qed.

Lemma escapeChar_passes (c : ascii) :
  replaceChar ">" "&gt;" (replaceChar "<" "&lt;" (replaceChar "&" "&amp;" (String c EmptyString)))
  = escapeChar c.
Proof.
  unfold escapeChar. cbn [replaceChar].
  destruct (Ascii.eqb_spec c "&") as [->|H1]; [reflexivity|].
  cbn [replaceChar].
  destruct (Ascii.eqb_spec c "<") as [->|H2]; [reflexivity|].
  cbn [replaceChar].
  destruct (Ascii.eqb_spec c ">") as [->|H3]; reflexivity.
Qed.

Lemma escapeHtml_escapeEach (s : string) : escapeHtml s = escapeEach s.
Proof.
  induction s as [|c s IH]; [reflexivity|].
  change (String c s) with (String c EmptyString ++ s)%string.
  unfold escapeHtml in *. rewrite !replaceChar_append, IH, escapeChar_passes.
  reflexivity.
Qed.

(** X3.  The three replacements of [escapeHtml] do not interfere: the
    result is the text with each ampersand, less-than and greater-than sign
    replaced by its entity, once, and nothing else changed.  In particular
    the ampersands of the entities are not escaped again, and escaping a
    text piece by piece gives the same as escaping it whole. *)
Theorem escapeHtml_each (s : string) :
  escapeHtml s = escapeEach s /\
  forall t, escapeHtml (s ++ t)%string = (escapeHtml s ++ escapeHtml t)%string.
Proof.
  split; [apply escapeHtml_escapeEach|].
  intros t. unfold escapeHtml. now rewrite !replaceChar_append.
Qed.

Lemma includes_append (c : ascii) (a b : string) :
  JS.includes c (a ++ b) = JS.includes c a || JS.includes c b.
Proof.
  induction a as [|d a IH]; [reflexivity|]. cbn [String.append JS.includes].
  now rewrite IH, orb_assoc.
Qed.

Lemma escapeChar_no_angle (c : ascii) :
  JS.includes "<" (escapeChar c) = false /\ JS.includes ">" (escapeChar c) = false.
Proof.
  unfold escapeChar.
  destruct (Ascii.eqb_spec c "&"); [split; reflexivity|].
  destruct (Ascii.eqb c "<") eqn:E2; [split; reflexivity|].
  destruct (Ascii.eqb c ">") eqn:E3; [split; reflexivity|].
  cbn [JS.includes]. now rewrite E2, E3.
Qed.

(** X4.  The text [escapeHtml] returns holds no less-than and no
    greater-than sign: put inside an element, it opens and closes no tag. *)
Theorem escapeHtml_no_angle (s : string) :
  JS.includes "<" (escapeHtml s) = false /\ JS.includes ">" (escapeHtml s) = false.
Proof.
  rewrite escapeHtml_escapeEach. induction s as [|c s [IH1 IH2]]; [split; reflexivity|].
  cbn [escapeEach]. rewrite !includes_append, IH1, IH2.
  destruct (escapeChar_no_angle c) as [-> ->]. split; reflexivity.
Qed.

Lemma escapeChar_cases (c : ascii) :
  (c = "&"%char /\ escapeChar c = "&amp;") \/
  (c = "<"%char /\ escapeChar c = "&lt;") \/
  (c = ">"%char /\ escapeChar c = "&gt;") \/
  (c <> "&"%char /\ escapeChar c = String c EmptyString).
Proof.
  unfold escapeChar.
  destruct (Ascii.eqb_spec c "&") as [->|H1]; [auto|].
  destruct (Ascii.eqb_spec c "<") as [->|H2]; [auto|].
  destruct (Ascii.eqb_spec c ">") as [->|H3]; auto.
Qed.

Lemma escapeEach_cons_inj (c d : ascii) (x y : string) :
  (escapeChar c ++ x)%string = (escapeChar d ++ y)%string -> c = d /\ x = y.
Proof.
  destruct (escapeChar_cases c) as [[-> ->]|[[-> ->]|[[-> ->]|[Hc ->]]]];
    destruct (escapeChar_cases d) as [[-> ->]|[[-> ->]|[[-> ->]|[Hd ->]]]];
    cbn [String.append]; intros H; inversion H; subst; auto; congruence.
Qed.

(** X5.  [escapeHtml] loses nothing: two texts with the same escaped form
    are the same text. *)
Theorem escapeHtml_injective (s t : string) : escapeHtml s = escapeHtml t -> s = t.
Proof.
  rewrite !escapeHtml_escapeEach. revert t.
  induction s as [|c s IH]; intros [|d t] H; cbn [escapeEach] in H.
  - reflexivity.
  - exfalso. destruct (escapeChar_cases d) as [[_ E]|[[_ E]|[[_ E]|[_ E]]]];
      rewrite E in H; discriminate.
  - exfalso. destruct (escapeChar_cases c) as [[_ E]|[[_ E]|[[_ E]|[_ E]]]];
      rewrite E in H; discriminate.
  - apply escapeEach_cons_inj in H as [-> H]. now rewrite (IH t H).
Qed.

Lemma escapeHtml_injective_witness : "a<b" = "a<b".
Proof. exact (escapeHtml_injective "a<b" "a<b" eq_refl). Defined.

(** ** The log *)

Lemma sliceTo_length (n : nat) (s : string) :
  String.length (sliceTo n s) = Nat.min n (String.length s).
Proof.
  revert s; induction n as [|n IH]; intros [|c s]; simpl; auto.
Qed.

Lemma sliceTo_prefix (n : nat) (s : string) :
  exists rest, s = (sliceTo n s ++ rest)%string.
Proof.
  revert s; induction n as [|n IH]; intros s.
  - exists s. now destruct s.
  - destruct s as [|c s]; [now exists EmptyString|].
    destruct (IH s) as [rest Hr]. exists rest. simpl. now rewrite <- Hr.
Qed.

Lemma includes_sliceTo (c : ascii) (n : nat) (s : string) :
  JS.includes c s = false -> JS.includes c (sliceTo n s) = false.
Proof.
  revert s; induction n as [|n IH]; intros [|d s]; simpl; auto.
  intros H. apply orb_false_iff in H as [H1 H2]. now rewrite H1, IH.
Qed.

(** The value read from a [textarea] holds no carriage return and is not
    longer than the text that was set. *)
Lemma textareaValue_spec (n : nat) (s : string) :
  String.length s <= n ->
  JS.includes CR (textareaValue s) = false /\
  String.length (textareaValue s) <= String.length s.
Proof.
  revert s; induction n as [|n IH]; intros [|c r] Hn; simpl in Hn; try lia;
    [split; [reflexivity | simpl; lia] .. |].
  cbn [textareaValue]. destruct (Ascii.eqb c CR) eqn:Ec.
  - destruct r as [|d r'].
    + split; [reflexivity | simpl; lia].
    + destruct (Ascii.eqb d LF).
      * destruct (IH r') as [I1 I2]; [simpl in Hn; lia|].
        cbn [JS.includes String.length]. rewrite I1. split; [reflexivity | lia].
      * destruct (IH (String d r')) as [I1 I2]; [lia|].
        cbn [JS.includes]. rewrite I1. split; [reflexivity|].
        cbn [String.length] in *. lia.
  - destruct (IH r) as [I1 I2]; [lia|].
    cbn [JS.includes String.length]. rewrite Ec, I1. split; [reflexivity | lia].
Qed.

Lemma textareaValue_no_CR (s : string) : JS.includes CR (textareaValue s) = false.
Proof. now apply (textareaValue_spec (String.length s)). Qed.

(** A text without carriage return is read back as it was set. *)
Lemma textareaValue_id (s : string) :
  JS.includes CR s = false -> textareaValue s = s.
Proof.
  induction s as [|c r IH]; [reflexivity|]. cbn [JS.includes textareaValue].
  intros H. apply orb_false_iff in H as [H1 H2]. rewrite H1. now rewrite IH.
Qed.

(** X6.  The text read from the log area after a call of [log] never holds
    more than [LOG_MAX] characters, and no carriage return.  It is the start
    of the new line followed by the old text, as the log area gives them
    back (line breaks normalised): the newest message comes first and only
    the end of the text is ever cut.  When neither the line nor the old text
    holds a carriage return and the whole fits, the text is exactly the line
    followed by the old text. *)
Theorem log_bounded (ts dash msg logArea : string) :
  let line := (ts ++ " " ++ dash ++ " " ++ msg ++ nl)%string in
  String.length (log ts dash msg logArea) <= LOG_MAX /\
  JS.includes CR (log ts dash msg logArea) = false /\
  (exists cut,
     textareaValue (line ++ logArea) = (log ts dash msg logArea ++ cut)%string) /\
  (JS.includes CR (line ++ logArea) = false ->
   String.length line + String.length logArea <= LOG_MAX ->
   log ts dash msg logArea = (line ++ logArea)%string).
Proof.
  intros line. unfold log.
  assert (Hv : (ts ++ " " ++ dash ++ " " ++ msg ++ nl ++ logArea)%string
               = (line ++ logArea)%string).
  { unfold line. now rewrite !append_assoc. }
  rewrite Hv. set (v := textareaValue (line ++ logArea)).
  pose proof (textareaValue_no_CR (line ++ logArea)) as Hcr. fold v in Hcr.
  assert (Hcut : textareaValue (sliceTo LOG_MAX v) = sliceTo LOG_MAX v)
    by now apply textareaValue_id, includes_sliceTo.
  assert (Hid : JS.includes CR (line ++ logArea) = false ->
                String.length v = String.length line + String.length logArea).
  { intros H. unfold v. rewrite textareaValue_id by assumption. apply length_append. }
  destruct (LOG_MAX <? String.length v) eqn:E.
  - apply Nat.ltb_lt in E. rewrite Hcut. repeat split.
    + rewrite sliceTo_length. lia.
    + now apply includes_sliceTo.
    + apply sliceTo_prefix.
    + intros H Hfit. apply Hid in H. lia.
  - apply Nat.ltb_ge in E. repeat split.
    + exact E.
    + exact Hcr.
    + exists EmptyString. now rewrite append_nil_r.
    + intros H _. unfold v. now apply textareaValue_id.
Qed.

Lemma log_bounded_witness :
  log "12:00:00" "-" "Starting fetch" EmptyString
  = ("12:00:00 - Starting fetch" ++ nl)%string.
Proof.
  refine (eq_trans (proj2 (proj2 (proj2
            (log_bounded "12:00:00" "-" "Starting fetch" EmptyString))) _ _) _).
  - reflexivity.
  - unfold LOG_MAX. simpl. lia.
  - reflexivity.
Defined.

(** ** [split], and what the URL helpers make of it *)

Lemma split_nonempty (c : ascii) (s : string) : JS.split c s <> [].
Proof.
  induction s as [|d s IH]; simpl; [discriminate|].
  destruct (Ascii.eqb d c); [discriminate|].
  destruct (JS.split c s); [congruence | discriminate].
Qed.

Lemma split_append_sep (c : ascii) (a b : string) :
  JS.split c (a ++ String c b) = JS.split c a ++ JS.split c b.
Proof.
  induction a as [|d a IH]; cbn [String.append JS.split].
  - now rewrite Ascii.eqb_refl.
  - rewrite IH. destruct (Ascii.eqb d c); [reflexivity|].
    pose proof (split_nonempty c a) as Hne.
    destruct (JS.split c a); [congruence | reflexivity].
Qed.

Lemma split_without (c : ascii) (s : string) :
  JS.includes c s = false -> JS.split c s = [s].
Proof.
  induction s as [|d s IH]; cbn [JS.includes JS.split]; [reflexivity|].
  intros H. apply orb_false_iff in H as [Hd Hs]. now rewrite Hd, (IH Hs).
Qed.

Lemma split_parts_without (c : ascii) (s : string) :
  Forall (fun x => JS.includes c x = false) (JS.split c s).
Proof.
  induction s as [|d s IH]; cbn [JS.split]; [now repeat constructor|].
  destruct (Ascii.eqb d c) eqn:E; [now constructor|].
  destruct (JS.split c s) as [|x xs]; [repeat constructor; simpl; now rewrite E|].
  inversion IH; subst. constructor; [|assumption]. simpl. now rewrite E.
Qed.

(** The pieces of a text hold no character the text does not hold. *)
Lemma split_parts_keep (c k : ascii) (s : string) :
  JS.includes k s = false -> Forall (fun x => JS.includes k x = false) (JS.split c s).
Proof.
  induction s as [|d s IH]; cbn [JS.split JS.includes]; [now repeat constructor|].
  intros H. apply orb_false_iff in H as [Hd Hs]. specialize (IH Hs).
  destruct (Ascii.eqb d c); [now constructor|].
  destruct (JS.split c s) as [|x xs]; [repeat constructor; simpl; now rewrite Hd|].
  inversion IH; subst. constructor; [|assumption]. simpl. now rewrite Hd.
Qed.

Lemma pop_In (l : list string) (x : string) : JS.pop l = Some x -> In x l.
Proof.
  destruct l as [|a l]; [discriminate|]. simpl. intros H; inversion H; subst.
  clear H. revert a. induction l as [|b l IH]; intros a; [now left|].
  destruct l as [|c l]; [right; now left|].
  change (last (b :: c :: l) a) with (last (c :: l) a).
  destruct (IH a) as [E|E]; [now left | right; now right].
Qed.

Lemma last_cons (l : list string) (b a : string) : last (b :: l) a = last l b.
Proof.
  revert b a. induction l as [|c l IH]; intros b a; [reflexivity|].
  change (last (b :: c :: l) a) with (last (c :: l) a).
  now rewrite (IH c a), (IH c b).
Qed.

Lemma pop_app (l1 l2 : list string) : l2 <> [] -> JS.pop (l1 ++ l2) = JS.pop l2.
Proof.
  intros H. destruct l2 as [|b l2]; [congruence|].
  induction l1 as [|a l1 IH]; [reflexivity|].
  cbn [app]. destruct (l1 ++ b :: l2) as [|x l] eqn:El; [now destruct l1|].
  cbn [JS.pop] in *. inversion IH as [E]. now rewrite last_cons, E.
Qed.

Lemma first_split_without (c k : ascii) (s : string) :
  JS.includes k s = false -> JS.includes k (JS.first (JS.split c s)) = false.
Proof.
  intros H. pose proof (split_parts_keep c k s H) as F.
  pose proof (split_nonempty c s) as Hne.
  destruct (JS.split c s); [congruence|]. now inversion F.
Qed.

Lemma first_split_no_sep (c : ascii) (s : string) :
  JS.includes c (JS.first (JS.split c s)) = false.
Proof.
  pose proof (split_parts_without c s) as F.
  pose proof (split_nonempty c s) as Hne.
  destruct (JS.split c s); [congruence|]. now inversion F.
Qed.

Lemma first_split_prefix (c : ascii) (s : string) :
  exists rest, s = (JS.first (JS.split c s) ++ rest)%string.
Proof.
  induction s as [|d s [rest IH]]; cbn [JS.split]; [now exists EmptyString|].
  destruct (Ascii.eqb d c); [now exists (String d s)|].
  pose proof (split_nonempty c s) as Hne.
  destruct (JS.split c s) as [|x xs]; [congruence|].
  exists rest. cbn [JS.first hd] in *. simpl. now rewrite <- IH.
Qed.

Lemma toLowerCase_length (s : string) : String.length (JS.toLowerCase s) = String.length s.
Proof. induction s as [|c s IH]; simpl; [reflexivity | now rewrite IH]. Qed.

Lemma truthy_length (s : string) : JS.truthy s = true <-> 0 < String.length s.
Proof. destruct s; simpl; split; intros; try lia; try discriminate; reflexivity. Qed.

(** ** The archive name, for any URL *)

Lemma replaceRuns_allSafe (b : bool) (s : string) : allSafe (replaceRuns b s) = true.
Proof.
  revert b; induction s as [|c s IH]; intros b; cbn [replaceRuns]; [reflexivity|].
  destruct (isUnsafe c) eqn:E.
  - destruct b; [apply IH|]. cbn [allSafe]. now rewrite IH.
  - cbn [allSafe]. now rewrite E, IH.
Qed.

Lemma replaceRuns_safe_id (b : bool) (s : string) :
  allSafe s = true -> replaceRuns b s = s.
Proof.
  revert b; induction s as [|c s IH]; intros b H; cbn [replaceRuns allSafe] in *;
    [reflexivity|].
  apply andb_true_iff in H as [Hc Hs]. apply negb_true_iff in Hc.
  now rewrite Hc, (IH false Hs).
Qed.

Lemma replaceRuns_length (b : bool) (s : string) :
  String.length (replaceRuns b s) <= String.length s.
Proof.
  revert b; induction s as [|c s IH]; intros b; cbn [replaceRuns]; [simpl; lia|].
  pose proof (IH true). pose proof (IH false).
  destruct (isUnsafe c); [destruct b|]; simpl; lia.
Qed.

Lemma safeName_truthy (s : string) : JS.truthy s = true -> JS.truthy (safeName s) = true.
Proof.
  destruct s as [|c s]; [discriminate|]. intros _. unfold safeName. cbn [replaceRuns].
  now destruct (isUnsafe c).
Qed.

(** X7.  Whatever the URL and whatever the browser makes of it, the name of
    the archive is a non-empty stem without any of the characters of the
    class of line 434, followed by [.zip]. *)
Theorem zipNameOf_safe {P : Platform} (url : string) :
  exists stem,
    zipNameOf url = (stem ++ ".zip")%string /\
    JS.truthy stem = true /\ allSafe stem = true.
Proof.
  exists (safeName (JS.orElse (domainFromUrl url) "site")). split; [reflexivity|].
  split.
  - apply safeName_truthy. unfold JS.orElse.
    now destruct (JS.truthy (domainFromUrl url)) eqn:E.
  - apply replaceRuns_allSafe.
Qed.

(** X8.  The replacement of line 434 is idempotent, never lengthens a name,
    and leaves a name without unsafe characters as it is. *)
Theorem safeName_idempotent (s : string) :
  safeName (safeName s) = safeName s /\
  String.length (safeName s) <= String.length s /\
  (allSafe s = true -> safeName s = s).
Proof.
  unfold safeName. split; [|split].
  - apply replaceRuns_safe_id, replaceRuns_allSafe.
  - apply replaceRuns_length.
  - apply replaceRuns_safe_id.
Qed.

Lemma safeName_idempotent_witness : safeName "example.com" = "example.com".
Proof. exact (proj2 (proj2 (safeName_idempotent "example.com")) eq_refl). Defined.

(** X9.  When the browser cannot parse the URL, [domainFromUrl] returns
    the start of the text, after a leading [http://] or [https://], up to
    the first slash: the result holds no slash. *)
Theorem domainFromUrl_fallback {P : Platform} (fullUrl : string) :
  URL_new fullUrl None = None ->
  JS.includes "/" (domainFromUrl fullUrl) = false /\
  exists rest, stripScheme fullUrl = (domainFromUrl fullUrl ++ rest)%string.
Proof.
  intros H. unfold domainFromUrl. rewrite H. split.
  - apply first_split_no_sep.
  - apply first_split_prefix.
Qed.

Lemma domainFromUrl_fallback_witness :
  JS.includes "/" (@domainFromUrl barePlatform "example.com/a/b") = false /\
  exists rest,
    stripScheme "example.com/a/b" = (@domainFromUrl barePlatform "example.com/a/b" ++ rest)%string.
Proof. exact (@domainFromUrl_fallback barePlatform "example.com/a/b" eq_refl). Defined.

(** ** File names and extensions *)

Section FileNames.
Context {P : Platform}.

Lemma lastSegment_no_slash (path seg : string) :
  lastSegment path = Some seg -> JS.includes "/" seg = false /\ JS.truthy seg = true.
Proof.
  unfold lastSegment. intros H. apply pop_In in H. apply filter_In in H as [Hin Ht].
  split; [|assumption].
  pose proof (split_parts_without "/" path) as F.
  rewrite Forall_forall in F. now apply F.
Qed.

Lemma lastSegment_keeps (k : ascii) (path seg : string) :
  JS.includes k path = false -> lastSegment path = Some seg -> JS.includes k seg = false.
Proof.
  unfold lastSegment. intros Hk H. apply pop_In in H. apply filter_In in H as [Hin _].
  pose proof (split_parts_keep "/" k path Hk) as F.
  rewrite Forall_forall in F. now apply F.
Qed.

Lemma includes_truthy (c : ascii) (s : string) : JS.includes c s = true -> JS.truthy s = true.
Proof. now destruct s. Qed.

Lemma includes_first_split (c k : ascii) (s : string) :
  JS.includes k s = false -> JS.includes k (JS.first (JS.split c s)) = false.
Proof. apply first_split_without. Qed.

End FileNames.

(** X10.  When the final segment of the path, cut at a question mark, has
    a dot, [fileNameFromUrl] returns exactly that text: a flat file name,
    without slash and without question mark. *)
Theorem fileNameFromUrl_dotted {P : Platform} (url : string) (u : URL) (seg : string) :
  URL_new url None = Some u ->
  lastSegment (pathname u) = Some seg ->
  JS.includes "." (JS.first (JS.split "?" seg)) = true ->
  fileNameFromUrl url = JS.first (JS.split "?" seg) /\
  JS.includes "/" (fileNameFromUrl url) = false /\
  JS.includes "?" (fileNameFromUrl url) = false.
Proof.
  intros Hu Hs Hd.
  assert (E : fileNameFromUrl url = JS.first (JS.split "?" seg)).
  { unfold fileNameFromUrl, fileNameOfPath, addGuess. rewrite Hu, Hs, Hd.
    unfold JS.orElse. now rewrite (includes_truthy _ _ Hd). }
  rewrite E. split; [reflexivity|]. split.
  - apply first_split_without. now apply (lastSegment_no_slash (pathname u)).
  - apply first_split_no_sep.
Qed.

Lemma fileNameFromUrl_dotted_witness :
  @fileNameFromUrl barePlatform "https://x.com/assets/app.min.js?v=2" = "app.min.js" /\
  JS.includes "/" (@fileNameFromUrl barePlatform "https://x.com/assets/app.min.js?v=2") = false /\
  JS.includes "?" (@fileNameFromUrl barePlatform "https://x.com/assets/app.min.js?v=2") = false.
Proof.
  exact (@fileNameFromUrl_dotted barePlatform "https://x.com/assets/app.min.js?v=2"
           (mkURL "https://x.com/assets/app.min.js?v=2" "x.com" "/assets/app.min.js")
           "app.min.js" eq_refl eq_refl eq_refl).
Defined.

(** X11.  When the path has no dot at all and at most five characters, the
    guessed extension is the whole path in lower case: the name is the final
    segment (or [index]), a dot, and the path, slashes included. *)
Theorem fileNameFromUrl_short_path {P : Platform} (url : string) (u : URL) :
  URL_new url None = Some u ->
  JS.includes "." (pathname u) = false ->
  JS.truthy (pathname u) = true ->
  String.length (pathname u) <= 5 ->
  fileNameFromUrl url
  = (JS.first (JS.split "?" (match lastSegment (pathname u) with
                             | Some seg => seg
                             | None => "index"
                             end))
     ++ "." ++ JS.toLowerCase (pathname u))%string.
Proof.
  intros Hu Hd Ht Hl. unfold fileNameFromUrl, fileNameOfPath. rewrite Hu.
  set (seg := match lastSegment (pathname u) with Some s => s | None => "index" end).
  assert (Hseg : JS.includes "." seg = false).
  { unfold seg. destruct (lastSegment (pathname u)) as [s|] eqn:E; [|reflexivity].
    now apply (lastSegment_keeps "." (pathname u)). }
  unfold addGuess. rewrite (first_split_without "?" "." seg Hseg).
  unfold guessExt. rewrite (split_without "." (pathname u) Hd). cbn [JS.pop last].
  assert (Hlow : JS.truthy (JS.toLowerCase (pathname u)) = true).
  { apply truthy_length. rewrite toLowerCase_length. now apply truthy_length. }
  rewrite Hlow, toLowerCase_length.
  assert ((String.length (pathname u) <=? 5) = true) as -> by now apply Nat.leb_le.
  cbn [andb]. unfold JS.orElse.
  now destruct (JS.first (JS.split "?" seg)).
Qed.

Lemma fileNameFromUrl_short_path_witness :
  @fileNameFromUrl barePlatform "https://x.com/a/b" = "b./a/b".
Proof.
  refine (@fileNameFromUrl_short_path barePlatform "https://x.com/a/b"
            (mkURL "https://x.com/a/b" "x.com" "/a/b") eq_refl eq_refl eq_refl _).
  simpl. lia.
Defined.

(** X12.  The extension by which a [url()] token is classified is the
    lower-cased text after the last dot, and a query string after it is cut
    off, provided the query itself holds no dot; a dot in the query makes the
    text after that dot the extension instead. *)
Theorem extOf_query (base e q : string) :
  JS.includes "." e = false -> JS.includes "?" e = false ->
  extOf (base ++ "." ++ e) = JS.toLowerCase e /\
  (JS.includes "." q = false -> extOf (base ++ "." ++ e ++ "?" ++ q) = JS.toLowerCase e) /\
  (forall q', JS.includes "." q' = false -> JS.includes "?" q' = false ->
     extOf (base ++ "." ++ e ++ "?" ++ q ++ "." ++ q') = JS.toLowerCase q').
Proof.
  intros Hd Hq. unfold extOf.
  change (base ++ "." ++ ?x)%string with (base ++ String "." x)%string.
  split; [|split].
  - rewrite split_append_sep, pop_app by apply split_nonempty.
    rewrite (split_without "." e Hd). cbn [JS.pop last].
    now rewrite (split_without "?" e Hq).
  - intros Hqd. rewrite split_append_sep, pop_app by apply split_nonempty.
    assert (Hn : JS.includes "." (e ++ "?" ++ q) = false).
    { rewrite includes_append, Hd. cbn [orb String.append JS.includes]. exact Hqd. }
    rewrite (split_without "." _ Hn). cbn [JS.pop last].
    change (e ++ "?" ++ q)%string with (e ++ String "?" q)%string.
    rewrite split_append_sep, (split_without "?" e Hq). reflexivity.
  - intros q' Hd' Hq'.
    replace (base ++ String "." (e ++ "?" ++ q ++ "." ++ q'))%string
      with ((base ++ "." ++ e ++ "?" ++ q) ++ String "." q')%string
      by (now rewrite !append_assoc).
    rewrite split_append_sep, pop_app by apply split_nonempty.
    rewrite (split_without "." q' Hd'). cbn [JS.pop last].
    now rewrite (split_without "?" q' Hq').
Qed.

Lemma extOf_query_witness :
  extOf "https://x.com/fonts/Inter.WOFF2" = "woff2" /\
  extOf "https://x.com/fonts/Inter.WOFF2?v=3" = "woff2".
Proof.
  destruct (extOf_query "https://x.com/fonts/Inter" "WOFF2" "v=3" eq_refl eq_refl)
    as (A & B & _).
  exact (conj A (B eq_refl)).
Defined.

(** ** Inline code taken out of the page *)

Lemma Forall_mapFirst (Q : Element -> Prop) (sel : Element -> bool)
    (f : Element -> Element) (l : list Element) :
  (forall e, Q e -> Q (f e)) -> Forall Q l -> Forall Q (mapFirst sel f l).
Proof.
  intros Hf H. induction H as [|e l He Hl IH]; simpl; [constructor|].
  destruct (sel e); constructor; auto.
Qed.

Lemma Forall_filter_none {A} (sel : A -> bool) (l : list A) :
  Forall (fun a => sel a = false) l -> filter sel l = [].
Proof.
  induction 1 as [|a l Ha Hl IH]; simpl; [reflexivity|]. now rewrite Ha.
Qed.

Lemma length_combine_text (els : list Element) :
  String.length (combine_text els)
  = list_sum (map (fun e => String.length (textContent e)) els) + 2 * length els.
Proof.
  induction els as [|e els IH]; [reflexivity|].
  cbn [combine_text map length]. unfold list_sum in *. cbn [fold_right].
  rewrite !length_append, IH. change (String.length nl2) with 2. lia.
Qed.

Section NoStyle.
Context {P : Platform} {N : Network}.

Lemma tagName_rewriteEl (url : string) (e : Element) :
  tagName (rewriteEl url e) = tagName e.
Proof.
  unfold rewriteEl, cssRewrite, jsRewrite, imgRewrite, preloadRewrite.
  destruct (isStylesheetLink e); [reflexivity|].
  destruct (isSrcScript e); [reflexivity|].
  destruct (isImg e); [now destruct (fetched _)|].
  destruct (isPreloadFont e); [now destruct (fetched _)|reflexivity].
Qed.

Lemma tagName_iconRewrite (url : string) (e : Element) :
  tagName (iconRewrite url e) = tagName e.
Proof. unfold iconRewrite. now destruct (fetched _). Qed.

Lemma no_style_stripInline (doc0 : Document) :
  Forall (fun e => isStyle e = false) (elements (stripInline doc0)).
Proof.
  unfold stripInline, removeAll, elements. cbn [head body].
  apply Forall_app. split; apply Forall_forall; intros e He;
    apply filter_In in He as [He _]; apply filter_In in He as [_ He];
    now apply negb_true_iff in He.
Qed.

Lemma no_style_prepared (doc0 : Document) :
  Forall (fun e => isStyle e = false) (elements (prepared doc0)).
Proof.
  pose proof (no_style_stripInline doc0) as H. unfold prepared.
  set (d := stripInline doc0) in *. unfold elements in *.
  apply Forall_app in H as [Hh Hb].
  destruct (JS.truthy (JS.trim (combinedCSS doc0)));
    destruct (JS.truthy (JS.trim (combinedJS doc0)));
    unfold appendHead, appendBody; cbn [head body];
    repeat (apply Forall_app; split); auto; repeat constructor.
Qed.

Lemma no_style_rewriteDoc (url : string) (d : Document) :
  Forall (fun e => isStyle e = false) (elements d) ->
  Forall (fun e => isStyle e = false) (elements (rewriteDoc url d)).
Proof.
  intros H. unfold rewriteDoc.
  assert (Hm : Forall (fun e => isStyle e = false) (elements (mapDoc (rewriteEl url) d))).
  { rewrite elements_mapDoc. apply Forall_map. revert H. apply Forall_impl.
    intros e He. unfold isStyle, hasTag in *. now rewrite tagName_rewriteEl. }
  unfold elements in *. apply Forall_app in Hm as [Hh Hb].
  assert (Hi : forall e, isStyle e = false -> isStyle (iconRewrite url e) = false).
  { intros e He. unfold isStyle, hasTag in *. now rewrite tagName_iconRewrite. }
  unfold updateFirst. destruct (existsb isIconLink _); cbn [head body];
    apply Forall_app; split; auto; now apply Forall_mapFirst.
Qed.

End NoStyle.

(** X13.  A run that got its HTML ends with a document that has no [style]
    element left, whatever the page was; [metaInfo.inlineCssBlocks] is the
    number of [style] elements of the page, blank ones included, and
    [metaInfo.inlineCssSize] is the length of their texts plus two
    characters for each. *)
Theorem inline_styles_removed {P : Platform} {N : Network} (url : string) :
  JS.truthy (fetchTextResult url) = true ->
  exists d,
    rewritten url = Some d /\
    querySelectorAll isStyle d = [] /\
    inlineCssBlocks (metaInfoOf url) = length (querySelectorAll isStyle (pageDoc url)) /\
    inlineCssSize (metaInfoOf url)
    = list_sum (map (fun e => String.length (textContent e))
                    (querySelectorAll isStyle (pageDoc url)))
      + 2 * length (querySelectorAll isStyle (pageDoc url)).
Proof.
  intros H. exists (rewriteDoc url (prepared (pageDoc url))).
  split; [now apply rewritten_ok|]. split.
  - apply Forall_filter_none. fold (elements (rewriteDoc url (prepared (pageDoc url)))).
    apply no_style_rewriteDoc, no_style_prepared.
  - rewrite metaInfoOf_ok by assumption. unfold finalMeta, extendMeta, startMeta.
    cbn [inlineCssBlocks inlineCssSize]. split; [reflexivity|].
    apply length_combine_text.
Qed.

Lemma inline_styles_removed_witness :
  exists d,
    @rewritten (examplePlatform styledDoc) styledNet examplePage = Some d /\
    querySelectorAll isStyle d = [] /\
    inlineCssBlocks (@metaInfoOf (examplePlatform styledDoc) styledNet examplePage) = 1 /\
    inlineCssSize (@metaInfoOf (examplePlatform styledDoc) styledNet examplePage) = 57 + 2 * 1.
Proof.
  exact (@inline_styles_removed (examplePlatform styledDoc) styledNet examplePage eq_refl).
Defined.

(** ** What the phases record in [metaInfo] *)

Lemma dJs_dconcat (ds : list Delta) : dJs (dconcat ds) = concat (map dJs ds).
Proof. induction ds as [|d ds IH]; simpl; [reflexivity | now rewrite IH]. Qed.

Lemma dImages_dconcat (ds : list Delta) : dImages (dconcat ds) = concat (map dImages ds).
Proof. induction ds as [|d ds IH]; simpl; [reflexivity | now rewrite IH]. Qed.

Section MetaLists.
Context {P : Platform} {N : Network}.
Variable url : string.

Lemma dJs_sheetTokenDelta (a : string) : dJs (sheetTokenDelta a) = [].
Proof.
  unfold sheetTokenDelta, fontDelta, imageDelta.
  destruct (isFontExt _); [now destruct (netBlob a)|].
  destruct (isImageExt _); [now destruct (netBlob a)|reflexivity].
Qed.

Lemma dJs_inlineTokenDelta (a : string) : dJs (inlineTokenDelta a) = [].
Proof.
  unfold inlineTokenDelta, fontDelta.
  destruct (isFontExt _); [now destruct (netBlob a)|reflexivity].
Qed.

Lemma dImages_inlineTokenDelta (a : string) : dImages (inlineTokenDelta a) = [].
Proof.
  unfold inlineTokenDelta, fontDelta.
  destruct (isFontExt _); [now destruct (netBlob a)|reflexivity].
Qed.

Lemma dJs_sheetDelta (el : Element) : dJs (sheetDelta url el) = [].
Proof.
  unfold sheetDelta. cbn [dJs dapp]. rewrite dJs_dconcat, map_map.
  now rewrite concat_map_nil by (intros; apply dJs_sheetTokenDelta).
Qed.

Lemma dJs_phase (sel : Element -> bool) (step : Element -> M Element) (d : Document) :
  (forall e, dJs (deltaOf (step e)) = []) -> dJs (phaseDelta sel step d) = [].
Proof.
  intros H. unfold phaseDelta. rewrite dJs_dconcat, map_map. now apply concat_map_nil.
Qed.

Lemma dImages_phase (sel : Element -> bool) (step : Element -> M Element) (d : Document) :
  (forall e, dImages (deltaOf (step e)) = []) -> dImages (phaseDelta sel step d) = [].
Proof.
  intros H. unfold phaseDelta. rewrite dImages_dconcat, map_map. now apply concat_map_nil.
Qed.

Lemma dJs_imgStep (e : Element) : dJs (deltaOf (imgStep url e)) = [].
Proof. unfold imgStep, deltaOf, bind, fetchBlob. simpl. now destruct (netBlob _). Qed.

Lemma dJs_preloadStep (e : Element) : dJs (deltaOf (preloadStep url e)) = [].
Proof. unfold preloadStep, deltaOf, bind, fetchBlob. simpl. now destruct (netBlob _). Qed.

Lemma dImages_preloadStep (e : Element) : dImages (deltaOf (preloadStep url e)) = [].
Proof. unfold preloadStep, deltaOf, bind, fetchBlob. simpl. now destruct (netBlob _). Qed.

Lemma dJs_iconPhase (d : Document) : dJs (deltaOf (iconPhase url d)) = [].
Proof.
  unfold iconPhase, deltaOf, bind, fetchBlob.
  destruct (querySelector isIconLink d); simpl; now destruct (netBlob _).
Qed.

Lemma dImages_iconPhase (d : Document) : dImages (deltaOf (iconPhase url d)) = [].
Proof.
  unfold iconPhase, deltaOf, bind, fetchBlob.
  destruct (querySelector isIconLink d); simpl; now destruct (netBlob _).
Qed.

Lemma dImages_imgStep (e : Element) :
  dImages (deltaOf (imgStep url e))
  = [mkEntry (pageRef url "src" e)
       (if fetched (pageRef url "src" e)
        then Some (fileNameFromUrl (pageRef url "src" e)) else None)].
Proof.
  unfold imgStep, deltaOf, bind, fetchBlob, fetched, pageRef. simpl.
  now destruct (netBlob _).
Qed.

Lemma jsFiles_final (doc0 : Document) :
  jsFiles (finalMeta url doc0)
  = map (fun el => mkEntry (pageRef url "src" el) (Some (jsName url el)))
        (filter isSrcScript (elements (prepared doc0))).
Proof.
  unfold finalMeta, extendMeta, startMeta, bodyDelta. cbn [jsFiles app].
  rewrite deltaOf_addCombined, deltaOf_download. cbn [dJs dapp app].
  rewrite (dJs_phase isImg (imgStep url)) by apply dJs_imgStep.
  rewrite (dJs_phase isPreloadFont (preloadStep url)) by apply dJs_preloadStep.
  rewrite dJs_iconPhase.
  rewrite (dJs_dconcat (map inlineTokenDelta _)).
  rewrite map_map, (concat_map_nil (fun a => dJs (inlineTokenDelta a)))
    by apply dJs_inlineTokenDelta.
  rewrite dJs_dconcat, map_map, (concat_map_nil (fun el => dJs (sheetDelta url el)))
    by apply dJs_sheetDelta.
  cbn [app]. rewrite app_nil_r. unfold phaseDelta. rewrite dJs_dconcat, map_map.
  apply (concat_map_singleton
           (fun el => mkEntry (pageRef url "src" el) (Some (jsName url el)))).
Qed.

Lemma dImages_sheetTokenDelta_named (a : string) :
  Forall (fun en => m_fname en <> None) (dImages (sheetTokenDelta a)).
Proof.
  unfold sheetTokenDelta, fontDelta, imageDelta.
  destruct (isFontExt _); [destruct (netBlob a); constructor|].
  destruct (isImageExt _); [|constructor].
  destruct (netBlob a); repeat constructor. discriminate.
Qed.

Lemma Forall_concat_map {A B} (Q : B -> Prop) (f : A -> list B) (l : list A) :
  (forall a, Forall Q (f a)) -> Forall Q (concat (map f l)).
Proof.
  intros H. induction l as [|a l IH]; simpl; [constructor|].
  apply Forall_app. auto.
Qed.

Lemma dImages_sheetDelta_named (el : Element) :
  Forall (fun en => m_fname en <> None) (dImages (sheetDelta url el)).
Proof.
  unfold sheetDelta. cbn [dImages dapp app]. rewrite dImages_dconcat, map_map.
  apply Forall_concat_map. intros a. apply dImages_sheetTokenDelta_named.
Qed.

Lemma images_final (doc0 : Document) :
  images (finalMeta url doc0)
  = concat (map (fun el => dImages (sheetDelta url el))
                (filter isStylesheetLink (elements (prepared doc0)))) ++
    map (fun el => mkEntry (pageRef url "src" el)
                     (if fetched (pageRef url "src" el)
                      then Some (fileNameFromUrl (pageRef url "src" el)) else None))
        (filter isImg (elements (prepared doc0))).
Proof.
  unfold finalMeta, extendMeta, startMeta, bodyDelta. cbn [images app].
  rewrite deltaOf_addCombined, deltaOf_download. cbn [dImages dapp app].
  rewrite (dImages_phase isSrcScript (jsStep url)) by reflexivity.
  rewrite (dImages_phase isPreloadFont (preloadStep url)) by apply dImages_preloadStep.
  rewrite dImages_iconPhase.
  rewrite (dImages_dconcat (map inlineTokenDelta _)).
  rewrite map_map, (concat_map_nil (fun a => dImages (inlineTokenDelta a)))
    by apply dImages_inlineTokenDelta.
  cbn [app]. rewrite app_nil_r, dImages_dconcat, map_map. f_equal.
  unfold phaseDelta. rewrite dImages_dconcat, map_map.
  rewrite (map_ext _ _ dImages_imgStep).
  apply (concat_map_singleton
           (fun el => mkEntry (pageRef url "src" el)
                        (if fetched (pageRef url "src" el)
                         then Some (fileNameFromUrl (pageRef url "src" el)) else None))).
Qed.

End MetaLists.

(** ** The combined inline script and its element *)

Section InlineScripts.
Context {P : Platform} {N : Network}.

(** With inline JavaScript, the scripts the JS phase walks through are
    those left in the page and, last, the element of the combined file. *)
Lemma scripts_prepared (doc0 : Document) :
  JS.truthy (JS.trim (combinedJS doc0)) = true ->
  filter isSrcScript (elements (prepared doc0))
  = filter isSrcScript (elements (stripInline doc0)) ++ [inlineScriptsTag].
Proof.
  intros H. unfold prepared. rewrite H.
  destruct (JS.truthy (JS.trim (combinedCSS doc0)));
    unfold elements, appendHead, appendBody; cbn [head body];
    rewrite ?filter_app; cbn [filter];
    change (isSrcScript inlineStylesLink) with false;
    change (isSrcScript inlineScriptsTag) with true;
    rewrite <- ?app_assoc, ?app_nil_r; reflexivity.
Qed.

Lemma packageWrites_inline_scripts (url : string) (doc0 d : Document) (m : MetaInfo) :
  JS.truthy (JS.trim (combinedJS doc0)) = true ->
  zipGet "website/js/inline-scripts.js" (packageWrites url doc0 d m)
  = Some (Text (combinedJS doc0)).
Proof.
  intros H. unfold packageWrites, auditWrites. rewrite H.
  destruct (runHeuristicScan d url m);
    destruct (JS.truthy (JS.trim (combinedCSS doc0))); reflexivity.
Qed.

End InlineScripts.

(** X14.  When the page has an inline script whose text is not all white
    space, the element created for the combined JavaScript is the last of
    the scripts the JS phase selects: the run calls [fetchText] on
    [js/inline-scripts.js] resolved against the page, writes the text that
    comes back to [website/js/] under the local name of that target (its
    file name, or [script.js]) and records target and name as the last entry
    of [metaInfo.jsFiles].  Whatever the fetch returned and whatever that
    name is, [website/js/inline-scripts.js] holds the combined JavaScript in
    the end. *)
Theorem inline_scripts_tag_refetched {P : Platform} {N : Network}
    (url : string) (s : Element) :
  JS.truthy (fetchTextResult url) = true ->
  In s (inlineScriptEls (pageDoc url)) ->
  JS.truthy (JS.trim (textContent s)) = true ->
  let doc0 := pageDoc url in
  let remote := resolveUrl url "js/inline-scripts.js" in
  let name := JS.orElse (fileNameFromUrl remote) "script.js" in
  querySelectorAll isSrcScript (prepared doc0)
  = querySelectorAll isSrcScript (stripInline doc0) ++ [inlineScriptsTag] /\
  In (FetchText remote) (fetchCalls url) /\
  In (("website/js/" ++ name)%string, Text (fetchTextResult remote)) (archiveWrites url) /\
  jsFiles (metaInfoOf url)
  = map (fun el => mkEntry (pageRef url "src" el) (Some (jsName url el)))
        (querySelectorAll isSrcScript (stripInline doc0)) ++
    [mkEntry remote (Some name)] /\
  zipGet "website/js/inline-scripts.js" (archiveWrites url) = Some (Text (combinedJS doc0)).
Proof.
  intros H Hs Hink doc0 remote name.
  assert (Hj : JS.truthy (JS.trim (combinedJS doc0)) = true).
  { rewrite trim_truthy. rewrite trim_truthy in Hink.
    now apply hasInk_combine_text with s. }
  pose proof (scripts_prepared doc0 Hj) as Hl.
  assert (Hel : In inlineScriptsTag (elements (prepared doc0))).
  { assert (Hin : In inlineScriptsTag (filter isSrcScript (elements (prepared doc0))))
      by (rewrite Hl; apply in_or_app; right; now left).
    now apply filter_In in Hin. }
  split; [exact Hl|]. split.
  { rewrite fetchCalls_ok by assumption. right. fold doc0.
    unfold downloadCalls. apply in_or_app. right. apply in_or_app. left.
    unfold jsPhaseCalls. rewrite Hl, map_app. apply in_or_app. right. now left. }
  split.
  { rewrite archiveWrites_ok by assumption. fold doc0.
    exact (script_file url doc0 inlineScriptsTag Hel eq_refl). }
  split.
  { rewrite metaInfoOf_ok, jsFiles_final by assumption. fold doc0.
    rewrite Hl, map_app. reflexivity. }
  rewrite archiveWrites_ok by assumption. fold doc0. unfold finalZip.
  rewrite !app_assoc, zipGet_app. now rewrite packageWrites_inline_scripts.
Qed.

(** The page of the example has one inline script. *)
Lemma inline_scripts_tag_refetched_witness :
  In (FetchText "https://x.com/js/inline-scripts.js")
     (@fetchCalls (examplePlatform scriptedDoc) scriptedNet examplePage) /\
  zipGet "website/js/inline-scripts.js"
     (@archiveWrites (examplePlatform scriptedDoc) scriptedNet examplePage)
  = Some (Text (@combinedJS (examplePlatform scriptedDoc) scriptedDoc)).
Proof.
  pose proof (@inline_scripts_tag_refetched (examplePlatform scriptedDoc) scriptedNet
                examplePage (mkElement "script" [] "console.log(1)")
                eq_refl (or_introl eq_refl) eq_refl) as W.
  exact (conj (proj1 (proj2 W)) (proj2 (proj2 (proj2 (proj2 W))))).
Defined.

(** ** Where the archive's entries lie *)

Lemma Forall_dZip_dconcat (Q : string * Content -> Prop) (ds : list Delta) :
  Forall (fun d => Forall Q (dZip d)) ds -> Forall Q (dZip (dconcat ds)).
Proof.
  intros H. rewrite dZip_dconcat. induction H as [|d ds Hd Hds IH]; simpl; [constructor|].
  apply Forall_app. auto.
Qed.

Section UnderWebsite.
Context {P : Platform} {N : Network}.
Variable url : string.

Let Under (z : Zip) : Prop := Forall (fun w => underWebsite w = true) z.

Lemma under_fontDelta (a : string) : Under (dZip (fontDelta a)).
Proof. unfold Under, fontDelta. destruct (netBlob a); repeat constructor. Qed.

Lemma under_imageDelta (a : string) : Under (dZip (imageDelta a)).
Proof. unfold Under, imageDelta. destruct (netBlob a); repeat constructor. Qed.

Lemma under_sheetTokenDelta (a : string) : Under (dZip (sheetTokenDelta a)).
Proof.
  unfold sheetTokenDelta. destruct (isFontExt _); [apply under_fontDelta|].
  destruct (isImageExt _); [apply under_imageDelta | constructor].
Qed.

Lemma under_inlineTokenDelta (a : string) : Under (dZip (inlineTokenDelta a)).
Proof.
  unfold inlineTokenDelta. destruct (isFontExt _); [apply under_fontDelta | constructor].
Qed.

Lemma under_sheetDelta (el : Element) : Under (dZip (sheetDelta url el)).
Proof.
  unfold sheetDelta. cbn [dZip dapp]. apply Forall_app. split.
  - repeat constructor.
  - apply Forall_dZip_dconcat, Forall_forall. intros d Hd.
    apply in_map_iff in Hd as (a & <- & _). apply under_sheetTokenDelta.
Qed.

Lemma under_phase (sel : Element -> bool) (step : Element -> M Element) (d : Document) :
  (forall e, Under (dZip (deltaOf (step e)))) -> Under (dZip (phaseDelta sel step d)).
Proof.
  intros H. unfold phaseDelta. apply Forall_dZip_dconcat, Forall_forall. intros x Hx.
  apply in_map_iff in Hx as (e & <- & _). apply H.
Qed.

Lemma under_jsStep (e : Element) : Under (dZip (deltaOf (jsStep url e))).
Proof. repeat constructor. Qed.

Lemma under_imgStep (e : Element) : Under (dZip (deltaOf (imgStep url e))).
Proof.
  unfold imgStep, deltaOf, bind, fetchBlob. simpl.
  destruct (netBlob _); repeat constructor.
Qed.

Lemma under_preloadStep (e : Element) : Under (dZip (deltaOf (preloadStep url e))).
Proof.
  unfold preloadStep, deltaOf, bind, fetchBlob. simpl.
  destruct (netBlob _); repeat constructor.
Qed.

Lemma under_iconPhase (d : Document) : Under (dZip (deltaOf (iconPhase url d))).
Proof.
  unfold iconPhase, deltaOf, bind, fetchBlob.
  destruct (querySelector isIconLink d); simpl; destruct (netBlob _); repeat constructor.
Qed.

Lemma under_finalZip (doc0 : Document) : Under (finalZip url doc0).
Proof.
  unfold finalZip, bodyDelta. rewrite deltaOf_addCombined, deltaOf_download.
  cbn [dZip dapp]. unfold Under. rewrite !Forall_app. repeat split.
  - repeat constructor.
  - destruct (JS.truthy (JS.trim (combinedCSS doc0))); repeat constructor.
  - destruct (JS.truthy (JS.trim (combinedJS doc0))); repeat constructor.
  - apply Forall_dZip_dconcat, Forall_forall. intros d Hd.
    apply in_map_iff in Hd as (e & <- & _). apply under_sheetDelta.
  - apply under_phase, under_jsStep.
  - apply under_phase, under_imgStep.
  - apply under_iconPhase.
  - apply under_phase, under_preloadStep.
  - apply Forall_dZip_dconcat, Forall_forall. intros d Hd.
    apply in_map_iff in Hd as (a & <- & _). apply under_inlineTokenDelta.
  - unfold packageWrites, auditWrites.
    destruct (runHeuristicScan _ url _);
      destruct (JS.truthy (JS.trim (combinedCSS doc0)));
      destruct (JS.truthy (JS.trim (combinedJS doc0))); repeat constructor.
Qed.

End UnderWebsite.

(** X15.  Every entry a run writes to the archive, folder or file, lies
    under [website/]: whatever the page and the network are, and whether or
    not the page could be fetched, nothing is written beside that folder. *)
Theorem archive_under_website {P : Platform} {N : Network} (url : string) :
  Forall (fun w => underWebsite w = true) (archiveWrites url).
Proof.
  destruct (JS.truthy (fetchTextResult url)) eqn:H.
  - rewrite archiveWrites_ok by assumption. apply under_finalZip.
  - unfold archiveWrites. rewrite runSite_failed by assumption. constructor.
Qed.

(** ** What a run leaves of the page *)

Lemma find_filter {A} (sel : A -> bool) (l : list A) :
  find sel l = hd_error (filter sel l).
Proof. induction l as [|a l IH]; simpl; [reflexivity|]. now destruct (sel a). Qed.

Lemma hd_error_map {A B} (f : A -> B) (l : list A) :
  hd_error (map f l) = option_map f (hd_error l).
Proof. now destruct l. Qed.

Lemma length_filter_map {A} (p : A -> bool) (l : list A) :
  length (filter p l) = length (filter (fun b : bool => b) (map p l)).
Proof.
  induction l as [|a l IH]; simpl; [reflexivity|]. destruct (p a); simpl; now rewrite IH.
Qed.

Lemma kept_map {B} (sel : Element -> bool) (obs : Element -> B)
    (g : Element -> Element) (l : list Element) :
  (forall e, sel (g e) = sel e /\ (sel e = true -> obs (g e) = obs e)) ->
  map obs (filter sel (map g l)) = map obs (filter sel l).
Proof.
  intros H. induction l as [|e l IH]; simpl; [reflexivity|].
  destruct (H e) as [Hs Ho]. rewrite Hs.
  destruct (sel e); simpl; [rewrite Ho by reflexivity|]; now rewrite IH.
Qed.

Lemma kept_mapFirst {B} (sel : Element -> bool) (obs : Element -> B)
    (s : Element -> bool) (g : Element -> Element) (l : list Element) :
  (forall e, s e = true -> sel (g e) = sel e /\ (sel e = true -> obs (g e) = obs e)) ->
  map obs (filter sel (mapFirst s g l)) = map obs (filter sel l).
Proof.
  intros H. induction l as [|e l IH]; simpl; [reflexivity|].
  destruct (s e) eqn:Es; simpl.
  - destruct (H e Es) as [Hs Ho]. rewrite Hs.
    destruct (sel e); simpl; [rewrite Ho by reflexivity|]; reflexivity.
  - destruct (sel e); simpl; now rewrite IH.
Qed.

Section KeptByTheRun.
Context {P : Platform} {N : Network}.
Variable url : string.

Lemma filter_prepared (sel : Element -> bool) (doc0 : Document) :
  (forall e, sel e = true -> isStyle e = false /\ isInlineScript e = false) ->
  sel inlineStylesLink = false -> sel inlineScriptsTag = false ->
  filter sel (elements (prepared doc0)) = filter sel (elements doc0).
Proof.
  intros H Hl Ht.
  assert (Hs : filter sel (elements (stripInline doc0)) = filter sel (elements doc0)).
  { unfold stripInline, removeAll, elements. cbn [head body]. rewrite !filter_app.
    rewrite !(filter_filter_kept sel isInlineScript) by (intros e He; now apply H).
    now rewrite !(filter_filter_kept sel isStyle) by (intros e He; now apply H). }
  rewrite <- Hs. unfold prepared. set (d := stripInline doc0).
  destruct (JS.truthy (JS.trim (combinedCSS doc0)));
    destruct (JS.truthy (JS.trim (combinedJS doc0)));
    unfold elements, appendHead, appendBody; cbn [head body];
    rewrite ?filter_app; cbn [filter]; rewrite ?Hl, ?Ht, ?app_nil_r; reflexivity.
Qed.

(** What is read off the selected elements is the same after the run as in
    the page. *)
Lemma kept_rewritten {B} (sel : Element -> bool) (obs : Element -> B) (doc0 : Document) :
  Kept url sel obs ->
  map obs (filter sel (elements (rewriteDoc url (prepared doc0))))
  = map obs (filter sel (elements doc0)).
Proof.
  intros (H1 & H2 & H3 & H4 & H5).
  rewrite <- (filter_prepared sel doc0 H3 H4 H5).
  set (d := prepared doc0). unfold rewriteDoc, updateFirst.
  destruct (existsb isIconLink (head (mapDoc (rewriteEl url) d)));
    unfold elements, mapDoc; cbn [head body]; rewrite !filter_app, !map_app;
    rewrite ?(kept_mapFirst sel obs isIconLink (iconRewrite url)) by exact H2;
    now rewrite !(kept_map sel obs (rewriteEl url)) by exact H1.
Qed.

Lemma kept_querySelector {B} (sel : Element -> bool) (obs : Element -> B)
    (doc0 : Document) :
  Kept url sel obs ->
  option_map obs (querySelector sel (rewriteDoc url (prepared doc0)))
  = option_map obs (querySelector sel doc0).
Proof.
  intros H. unfold querySelector.
  fold (elements (rewriteDoc url (prepared doc0))). fold (elements doc0).
  rewrite !find_filter, <- !hd_error_map. now rewrite kept_rewritten.
Qed.

Lemma kept_count {B} (sel : Element -> bool) (obs : Element -> B) (doc0 : Document) :
  Kept url sel obs ->
  length (querySelectorAll sel (rewriteDoc url (prepared doc0)))
  = length (querySelectorAll sel doc0).
Proof.
  intros H.
  exact (eq_trans (eq_sym (length_map obs _))
           (eq_trans (f_equal (@length B) (kept_rewritten sel obs doc0 H))
                     (length_map obs _))).
Qed.

Lemma kept_count_filter (sel p : Element -> bool) (doc0 : Document) :
  Kept url sel p ->
  length (filter p (querySelectorAll sel (rewriteDoc url (prepared doc0))))
  = length (filter p (querySelectorAll sel doc0)).
Proof.
  intros H.
  exact (eq_trans (length_filter_map p _)
           (eq_trans (f_equal (fun l => length (filter (fun b : bool => b) l))
                              (kept_rewritten sel p doc0 H))
                     (eq_sym (length_filter_map p _)))).
Qed.

(** An element with a tag other than [link], [script] and [img] is not
    rewritten. *)
Lemma rewriteEl_other_tag (t : string) (e : Element) :
  String.eqb t "link" = false -> String.eqb t "script" = false ->
  String.eqb t "img" = false -> hasTag t e = true -> rewriteEl url e = e.
Proof.
  intros Hl Hs Hi Ht.
  pose proof (hasTag_excl t "link" e Hl Ht) as El.
  pose proof (hasTag_excl t "script" e Hs Ht) as Es.
  pose proof (hasTag_excl t "img" e Hi Ht) as Ei.
  unfold rewriteEl, isStylesheetLink, isSrcScript, isImg, isPreloadFont.
  now rewrite El, Es, Ei.
Qed.

Lemma Kept_tag {B} (t : string) (sel : Element -> bool) (obs : Element -> B) :
  (forall e, sel e = true -> hasTag t e = true) ->
  String.eqb t "link" = false -> String.eqb t "script" = false ->
  String.eqb t "style" = false -> String.eqb t "img" = false ->
  Kept url sel obs.
Proof.
  intros Hsel Hl Hs Hst Hi.
  assert (Hno : forall e e', tagName e' = tagName e -> hasTag t e = false ->
                             sel e' = sel e /\ (sel e = true -> obs e' = obs e)).
  { intros e e' Htag Ht.
    assert (sel e = false) as ->.
    { destruct (sel e) eqn:E; [|reflexivity]. apply Hsel in E. congruence. }
    assert (sel e' = false) as ->.
    { destruct (sel e') eqn:E; [|reflexivity]. apply Hsel in E.
      unfold hasTag in *. rewrite Htag in E. congruence. }
    split; [reflexivity | discriminate]. }
  repeat split.
  - destruct (hasTag t e) eqn:Ht.
    + now rewrite (rewriteEl_other_tag t e).
    + now apply (Hno e (rewriteEl url e) (tagName_rewriteEl url e)).
  - destruct (hasTag t e) eqn:Ht.
    + now rewrite (rewriteEl_other_tag t e).
    + intros He. apply Hsel in He. congruence.
  - apply (Hno e (iconRewrite url e) (tagName_iconRewrite url e)).
    destruct (hasTag t e) eqn:Ht; [|reflexivity].
    apply (hasTag_excl t "link" e Hl) in Ht.
    unfold isIconLink in H. rewrite Ht in H. discriminate.
  - apply (Hno e (iconRewrite url e) (tagName_iconRewrite url e)).
    destruct (hasTag t e) eqn:Ht; [|reflexivity].
    apply (hasTag_excl t "link" e Hl) in Ht.
    unfold isIconLink in H. rewrite Ht in H. discriminate.
  - apply Hsel in H. now apply (hasTag_excl t "style" e).
  - apply Hsel in H. unfold isInlineScript. now rewrite (hasTag_excl t "script" e).
  - destruct (sel inlineStylesLink) eqn:E; [|reflexivity]. apply Hsel in E.
    unfold hasTag in E. cbn [tagName inlineStylesLink] in E.
    rewrite String.eqb_sym in E. congruence.
  - destruct (sel inlineScriptsTag) eqn:E; [|reflexivity]. apply Hsel in E.
    unfold hasTag in E. cbn [tagName inlineScriptsTag] in E.
    rewrite String.eqb_sym in E. congruence.
Qed.

(** The rewriting of an element writes [href] or [src] and nothing else. *)
Lemma getAttribute_rewriteEl (n : string) (e : Element) :
  String.eqb "href" n = false -> String.eqb "src" n = false ->
  getAttribute n (rewriteEl url e) = getAttribute n e.
Proof.
  intros Hh Hs.
  unfold rewriteEl, cssRewrite, jsRewrite, imgRewrite, preloadRewrite.
  destruct (isStylesheetLink e); [now apply getAttribute_setAttribute_other|].
  destruct (isSrcScript e); [now apply getAttribute_setAttribute_other|].
  destruct (isImg e);
    [destruct (fetched _); [now apply getAttribute_setAttribute_other | reflexivity]|].
  destruct (isPreloadFont e); [|reflexivity].
  destruct (fetched _); [now apply getAttribute_setAttribute_other | reflexivity].
Qed.

Lemma getAttribute_iconRewrite (n : string) (e : Element) :
  String.eqb "href" n = false -> getAttribute n (iconRewrite url e) = getAttribute n e.
Proof.
  intros Hh. unfold iconRewrite.
  destruct (fetched _); [now apply getAttribute_setAttribute_other | reflexivity].
Qed.

Lemma Kept_img : Kept url isImg lacksAlt.
Proof.
  repeat split.
  - unfold isImg, hasTag. now rewrite tagName_rewriteEl.
  - intros _. unfold lacksAlt, attrOrEmpty. now rewrite getAttribute_rewriteEl.
  - unfold isImg, hasTag. now rewrite tagName_iconRewrite.
  - intros _. unfold lacksAlt, attrOrEmpty. now rewrite getAttribute_iconRewrite.
  - now apply (hasTag_excl "img" "style" e).
  - unfold isInlineScript. now rewrite (hasTag_excl "img" "script" e).
Qed.

Lemma Kept_title : Kept url isTitle textContent.
Proof. now apply (Kept_tag "title"). Qed.

Lemma Kept_meta {B} (n : string) (obs : Element -> B) : Kept url (isMetaNamed n) obs.
Proof.
  apply (Kept_tag "meta"); try reflexivity.
  unfold isMetaNamed. intros e H. now apply andb_true_iff in H.
Qed.

Lemma Kept_charset {B} (obs : Element -> B) : Kept url isMetaCharset obs.
Proof.
  apply (Kept_tag "meta"); try reflexivity.
  unfold isMetaCharset. intros e H. now apply andb_true_iff in H.
Qed.

Lemma Kept_h1 {B} (obs : Element -> B) : Kept url (hasTag "h1") obs.
Proof. now apply (Kept_tag "h1"). Qed.

Lemma Kept_a {B} (obs : Element -> B) : Kept url (hasTag "a") obs.
Proof. now apply (Kept_tag "a"). Qed.

Lemma images_prepared (doc0 : Document) :
  filter isImg (elements (prepared doc0)) = filter isImg (elements doc0).
Proof.
  destruct Kept_img as (_ & _ & H & Hl & Ht). now apply filter_prepared.
Qed.

Lemma option_map_cases {A B} (f : A -> B) (x y : option A) (z : B) :
  option_map f x = option_map f y ->
  match x with Some a => f a | None => z end = match y with Some a => f a | None => z end.
Proof. destruct x, y; simpl; congruence. Qed.

Lemma option_map_some {A B} (f : A -> B) (x y : option A) :
  option_map f x = option_map f y ->
  match x with Some _ => true | None => false end
  = match y with Some _ => true | None => false end.
Proof. destruct x, y; simpl; congruence. Qed.

Lemma titleOf_rewritten (doc0 : Document) :
  titleOf (rewriteDoc url (prepared doc0)) = titleOf doc0.
Proof.
  unfold titleOf. f_equal.
  apply (option_map_cases textContent), kept_querySelector, Kept_title.
Qed.

Lemma metaDescOf_rewritten (doc0 : Document) :
  metaDescOf (rewriteDoc url (prepared doc0)) = metaDescOf doc0.
Proof.
  unfold metaDescOf.
  apply (option_map_cases (attrOrEmpty "content")), kept_querySelector, Kept_meta.
Qed.

Lemma hasViewportOf_rewritten (doc0 : Document) :
  hasViewportOf (rewriteDoc url (prepared doc0)) = hasViewportOf doc0.
Proof.
  unfold hasViewportOf.
  apply (option_map_some (fun _ => tt)), kept_querySelector, Kept_meta.
Qed.

Lemma charsetOf_rewritten (doc0 : Document) :
  charsetOf (rewriteDoc url (prepared doc0)) = charsetOf doc0.
Proof.
  unfold charsetOf.
  apply (option_map_some (fun _ => tt)), kept_querySelector, Kept_charset.
Qed.

Lemma missingAlt_rewritten (doc0 : Document) :
  length (missingAltOf (rewriteDoc url (prepared doc0))) = length (missingAltOf doc0).
Proof. unfold missingAltOf. apply kept_count_filter, Kept_img. Qed.

Lemma images_rewritten (doc0 : Document) :
  length (querySelectorAll isImg (rewriteDoc url (prepared doc0)))
  = length (querySelectorAll isImg doc0).
Proof. apply (kept_count isImg lacksAlt), Kept_img. Qed.

Lemma h1s_rewritten (doc0 : Document) :
  length (h1sOf (rewriteDoc url (prepared doc0))) = length (h1sOf doc0).
Proof. unfold h1sOf. apply (kept_count _ (fun _ => tt)), Kept_h1. Qed.

Lemma badAnchors_rewritten (doc0 : Document) :
  length (badAnchorsOf (rewriteDoc url (prepared doc0))) = length (badAnchorsOf doc0).
Proof. unfold badAnchorsOf. apply kept_count_filter, Kept_a. Qed.

End KeptByTheRun.

(** The findings and the suggestions depend on the document through eight
    observations only. *)
Lemma scanFindings_reads (dash : string) (d d' : Document) (lang : string)
    (formsIssues : nat) (m : MetaInfo) :
  titleOf d = titleOf d' -> metaDescOf d = metaDescOf d' ->
  hasViewportOf d = hasViewportOf d' -> charsetOf d = charsetOf d' ->
  length (missingAltOf d) = length (missingAltOf d') ->
  length (querySelectorAll isImg d) = length (querySelectorAll isImg d') ->
  length (h1sOf d) = length (h1sOf d') ->
  length (badAnchorsOf d) = length (badAnchorsOf d') ->
  scanFindings dash d lang formsIssues m = scanFindings dash d' lang formsIssues m /\
  scanSuggestions d lang formsIssues m = scanSuggestions d' lang formsIssues m.
Proof.
  unfold scanFindings, scanSuggestions.
  generalize (titleOf d) (titleOf d') (metaDescOf d) (metaDescOf d')
             (hasViewportOf d) (hasViewportOf d') (charsetOf d) (charsetOf d')
             (length (missingAltOf d)) (length (missingAltOf d'))
             (length (querySelectorAll isImg d)) (length (querySelectorAll isImg d'))
             (length (h1sOf d)) (length (h1sOf d'))
             (length (badAnchorsOf d)) (length (badAnchorsOf d')).
  intros; subst; split; reflexivity.
Qed.

(** X16.  The audit runs on the rewritten document, yet what it reads off
    the document is what the fetched page had: for any [lang] attribute,
    number of forms with unlabeled controls and [metaInfo], the findings and
    the suggestions computed on the document the run ends with are those
    computed on the page as parsed.  Taking the inline code out, adding the
    two elements of the combined files and rewriting [href] and [src]
    changes no title, meta element, image [alt], heading or anchor. *)
Theorem scan_reads_the_page {P : Platform} {N : Network}
    (url dash lang : string) (formsIssues : nat) (m : MetaInfo) :
  JS.truthy (fetchTextResult url) = true ->
  exists d,
    rewritten url = Some d /\
    scanFindings dash d lang formsIssues m
    = scanFindings dash (pageDoc url) lang formsIssues m /\
    scanSuggestions d lang formsIssues m
    = scanSuggestions (pageDoc url) lang formsIssues m.
Proof.
  intros H. exists (rewriteDoc url (prepared (pageDoc url))).
  split; [now apply rewritten_ok|].
  apply scanFindings_reads.
  - apply titleOf_rewritten.
  - apply metaDescOf_rewritten.
  - apply hasViewportOf_rewritten.
  - apply charsetOf_rewritten.
  - apply missingAlt_rewritten.
  - apply images_rewritten.
  - apply h1s_rewritten.
  - apply badAnchors_rewritten.
Qed.

Lemma scan_reads_the_page_witness :
  exists d,
    @rewritten (examplePlatform scriptedDoc) scriptedNet examplePage = Some d /\
    scanFindings "--" d "en" 0 emptyMeta = scanFindings "--" scriptedDoc "en" 0 emptyMeta /\
    scanSuggestions d "en" 0 emptyMeta = scanSuggestions scriptedDoc "en" 0 emptyMeta.
Proof.
  exact (@scan_reads_the_page (examplePlatform scriptedDoc) scriptedNet examplePage
           "--" "en" 0 emptyMeta eq_refl).
Defined.

(** X17.  [metaInfo.images] ends with one entry for each [img] element of
    the page, in document order, fetched or not: the entry of an image that
    could not be fetched has no file name.  The entries before them are the
    images found in fetched style sheets, which are recorded only when their
    fetch succeeded and so all have a file name. *)
Theorem images_recorded {P : Platform} {N : Network} (url : string) :
  JS.truthy (fetchTextResult url) = true ->
  exists fromSheets,
    images (metaInfoOf url)
    = fromSheets ++
      map (fun el => mkEntry (pageRef url "src" el)
                       (if fetched (pageRef url "src" el)
                        then Some (fileNameFromUrl (pageRef url "src" el)) else None))
          (querySelectorAll isImg (pageDoc url)) /\
    Forall (fun en => m_fname en <> None) fromSheets.
Proof.
  intros H. rewrite metaInfoOf_ok, images_final, images_prepared by assumption.
  eexists. split; [reflexivity|].
  apply Forall_concat_map. intros el. apply dImages_sheetDelta_named.
Qed.

Lemma images_recorded_witness :
  exists fromSheets,
    images (@metaInfoOf (examplePlatform brokenAssetsDoc) brokenAssetsNet examplePage)
    = fromSheets ++ [mkEntry "https://cdn.x.com/logo.png" None] /\
    Forall (fun en => m_fname en <> None) fromSheets.
Proof.
  exact (@images_recorded (examplePlatform brokenAssetsDoc) brokenAssetsNet examplePage
           eq_refl).
Defined.

(** ** Issues and suggestions *)

Lemma warns_unless (c : bool) (f : Finding) :
  length (filter isWarn (if c then [] else [f])) = if c then 0 else Nat.b2n (isWarn f).
Proof. destruct c; [reflexivity|]. simpl. now destruct (isWarn f). Qed.

Lemma warns_when (c : bool) (f : Finding) :
  length (filter isWarn (if c then [f] else [])) = if c then Nat.b2n (isWarn f) else 0.
Proof. destruct c; [|reflexivity]. simpl. now destruct (isWarn f). Qed.

Lemma length_unless {A} (c : bool) (x : A) :
  length (if c then [] else [x]) = if c then 0 else 1.
Proof. now destruct c. Qed.

(** X18.  The number of issues the page shows is the number of suggestions
    plus one for each of the three warnings that come without a suggestion:
    anchors that lead nowhere, more than 20000 characters of inline CSS,
    more than 50000 of inline JavaScript.  So there are never more
    suggestions than issues, at most eight suggestions and at most eleven
    issues. *)
Theorem issues_and_suggestions {P : Platform}
    (dash : string) (doc : Document) (lang : string) (formsIssues : nat) (m : MetaInfo) :
  issuesOf (scanFindings dash doc lang formsIssues m)
  = length (scanSuggestions doc lang formsIssues m)
    + (if length (badAnchorsOf doc) =? 0 then 0 else 1)
    + (if 20000 <? inlineCssSize m then 1 else 0)
    + (if 50000 <? inlineJsSize m then 1 else 0) /\
  length (scanSuggestions doc lang formsIssues m) <= 8.
Proof.
  unfold issuesOf, scanFindings, scanSuggestions.
  rewrite !filter_app, !length_app, !warns_unless, !warns_when, !length_unless.
  cbn [isWarn level Nat.b2n].
  generalize (20000 <? inlineCssSize m) (50000 <? inlineJsSize m)
             (JS.truthy (titleOf doc)) (JS.truthy (metaDescOf doc)) (hasViewportOf doc)
             (JS.truthy lang) (charsetOf doc) (0 <? inlineCssBlocks m)
             (0 <? inlineJsBlocks m).
  intros b1 b2 b3 b4 b5 b6 b7 b8 b9.
  assert (E : forall b : bool, (if b then 0 else 0) = 0) by now intros [].
  rewrite !E.
  destruct (length (missingAltOf doc)), (length (h1sOf doc)) as [|[|?]], formsIssues,
    (length (badAnchorsOf doc)), (40 <? totalAssetsOf m);
    cbn [filter isWarn level length Nat.eqb];
    destruct b3, b4, b5, b6; split; lia.
Qed.

Section IconFile.
Context {P : Platform} {N : Network}.

Lemma icon_file (url : string) (doc0 : Document) (l : Element) (b : Blob) :
  querySelector isIconLink (prepared doc0) = Some l ->
  netBlob (pageRef url "href" l) = Some b ->
  In ((rootDir ++ iconName url l)%string, Bin b) (finalZip url doc0).
Proof.
  intros Hq Hb. apply In_download_finalZip. rewrite deltaOf_download.
  cbn [dZip dapp]. do 3 (apply in_or_app; right). apply in_or_app. left.
  unfold iconPhase, deltaOf, bind, fetchBlob, pageRef, iconName in *.
  rewrite Hq. simpl. rewrite Hb. simpl. now left.
Qed.

End IconFile.

(** X19.  Every attribute the run rewrites names an entry of the archive:
    the value it gives the attribute, put after [website/] character for
    character, is a path to which the run has written.  This holds for the
    [href] of every style sheet link and the [src] of every script with a
    source, fetched or not; for the [src] of an image and the [href] of a
    font preload whose fetch succeeded; and for the [href] of the icon link,
    when the page has one and its fetch succeeded.  The statement is about
    names as texts, which is how the run makes them: a browser reads the
    attribute as a URL, so for a name that holds a percent escape it looks
    for the decoded name, and that one need not be in the archive. *)
Theorem rewritten_references_in_archive {P : Platform} {N : Network}
    (url : string) (e : Element) :
  JS.truthy (fetchTextResult url) = true ->
  In e (elements (prepared (pageDoc url))) ->
  (isStylesheetLink e = true ->
   exists v, getAttribute "href" (rewriteEl url e) = Some v /\
             zipGet ("website/" ++ v) (archiveWrites url) <> None) /\
  (isSrcScript e = true ->
   exists v, getAttribute "src" (rewriteEl url e) = Some v /\
             zipGet ("website/" ++ v) (archiveWrites url) <> None) /\
  (isImg e = true -> fetched (pageRef url "src" e) = true ->
   exists v, getAttribute "src" (rewriteEl url e) = Some v /\
             zipGet ("website/" ++ v) (archiveWrites url) <> None) /\
  (isPreloadFont e = true -> fetched (pageRef url "href" e) = true ->
   exists v, getAttribute "href" (rewriteEl url e) = Some v /\
             zipGet ("website/" ++ v) (archiveWrites url) <> None) /\
  (querySelector isIconLink (prepared (pageDoc url)) = Some e ->
   fetched (pageRef url "href" e) = true ->
   exists v, getAttribute "href" (iconRewrite url e) = Some v /\
             zipGet ("website/" ++ v) (archiveWrites url) <> None).
Proof.
  intros H He. rewrite archiveWrites_ok by assumption. repeat split.
  - intros Hs. eexists. split; [now apply rewriteEl_stylesheet|].
    exact (zipGet_In _ _ _ (sheet_file url _ e He Hs)).
  - intros Hs. eexists. split; [now apply rewriteEl_script|].
    exact (zipGet_In _ _ _ (script_file url _ e He Hs)).
  - intros Hs Hf. destruct (rewriteEl_img url e Hs) as [_ Ha]. rewrite Hf in Ha.
    eexists. split; [exact Ha|]. unfold fetched in Hf.
    destruct (netBlob (pageRef url "src" e)) as [b|] eqn:Hb; [|discriminate].
    exact (zipGet_In _ _ _ (image_file url _ e b He Hs Hb)).
  - intros Hs Hf. destruct (rewriteEl_preload url e Hs) as [_ Ha]. rewrite Hf in Ha.
    eexists. split; [exact Ha|]. unfold fetched in Hf.
    destruct (netBlob (pageRef url "href" e)) as [b|] eqn:Hb; [|discriminate].
    exact (zipGet_In _ _ _ (preload_file url _ e b He Hs Hb)).
  - intros Hq Hf. pose proof (iconRewrite_href url e) as Ha. rewrite Hf in Ha.
    eexists. split; [exact Ha|]. unfold fetched in Hf.
    destruct (netBlob (pageRef url "href" e)) as [b|] eqn:Hb; [|discriminate].
    exact (zipGet_In _ _ _ (icon_file url _ e b Hq Hb)).
Qed.

(** The script of the example is rewritten to [js/app.js], and the file is
    there. *)
Lemma rewritten_references_in_archive_witness :
  exists v,
    getAttribute "src"
      (@rewriteEl (examplePlatform scriptedDoc) scriptedNet examplePage
         (mkElement "script" [("src", "app.js")] EmptyString)) = Some v /\
    zipGet ("website/" ++ v)
      (@archiveWrites (examplePlatform scriptedDoc) scriptedNet examplePage) <> None.
Proof.
  exact (proj1 (proj2
    (@rewritten_references_in_archive (examplePlatform scriptedDoc) scriptedNet examplePage
       (mkElement "script" [("src", "app.js")] EmptyString)
       eq_refl (or_intror (or_intror (or_intror (or_introl eq_refl))))))
    eq_refl).
Defined.
